(** * BIMUniXchange: the identifier reconciler and the export header

    A shallow embedding of the two ArchiCAD scripts of the repository:

    - [1.ArchiCADUniqueIDAssigner.py]: [analyze_existing_ids] and
      [generate_new_ids_for_problem_elements] of [SmartUniqueIDAssigner];
    - [2.ArchiCADMetadataExtractor.py]: the column and row assembly of
      [FastElementExtractor.extract_to_csv].

    Python [str] values are lists of Unicode code points, Python [dict]s
    whose iteration order cannot influence a result are [gmap]s, Python
    [set]s are [gset]s, and the one dictionary whose insertion order does
    matter ([elements_by_type]) is an association list.  The [while] loops
    of the generator run on fuel and return [None] when it runs out; the
    fuel given to them is proved to be enough. *)

From Stdlib Require Import NArith String Ascii DecimalN DecimalFacts.
From stdpp Require Import gmap list sorting.

Set Warnings "-clear-no-such-hyp".

Open Scope N_scope.

(** ** Python strings *)

Module PyStr.

(** A [str] is its sequence of code points. *)
Definition pystr := list N.

(** A literal of the source, read character by character. *)
Fixpoint str (s : string) : pystr :=
  match s with
  | EmptyString => []
  | String a s' => N_of_ascii a :: str s'
  end.

(** [str.isspace] on one code point: the characters CPython's
    [Py_UNICODE_ISSPACE] accepts, which are the ones [str.strip()] removes. *)
Definition is_space (c : N) : bool :=
  ((9 <=? c) && (c <=? 13)) || ((28 <=? c) && (c <=? 32))
  || (c =? 133) || (c =? 160) || (c =? 5760)
  || ((8192 <=? c) && (c <=? 8202))
  || (c =? 8232) || (c =? 8233) || (c =? 8239) || (c =? 8287) || (c =? 12288).

(** [s.lstrip()] *)
Fixpoint lstrip (s : pystr) : pystr :=
  match s with
  | [] => []
  | c :: s' => if is_space c then lstrip s' else s
  end.

(** [s.rstrip()] *)
Fixpoint rstrip (s : pystr) : pystr :=
  match s with
  | [] => []
  | c :: s' =>
      match rstrip s' with
      | [] => if is_space c then [] else [c]
      | r => c :: r
      end
  end.

(** [s.strip()]: whitespace is dropped from both ends. *)
Definition strip (s : pystr) : pystr := rstrip (lstrip s).

(** The digits of a decimal numeral, most significant first. *)
Fixpoint uint_codes (u : Decimal.uint) : pystr :=
  match u with
  | Decimal.Nil => []
  | Decimal.D0 u => 48 :: uint_codes u
  | Decimal.D1 u => 49 :: uint_codes u
  | Decimal.D2 u => 50 :: uint_codes u
  | Decimal.D3 u => 51 :: uint_codes u
  | Decimal.D4 u => 52 :: uint_codes u
  | Decimal.D5 u => 53 :: uint_codes u
  | Decimal.D6 u => 54 :: uint_codes u
  | Decimal.D7 u => 55 :: uint_codes u
  | Decimal.D8 u => 56 :: uint_codes u
  | Decimal.D9 u => 57 :: uint_codes u
  end.

(** The format specification [03d] on a non-negative integer: its decimal
    digits, padded on the left with zeros up to a width of three, and never
    cut when there are more. *)
Definition format_03d (counter : N) : pystr :=
  let u := N.to_uint counter in
  uint_codes (Nat.iter (3 - Decimal.nb_digits u) Decimal.D0 u).

(** The f-string [f"{prefix}-{counter:03d}"]. *)
Definition format_id (prefix : pystr) (counter : N) : pystr :=
  prefix ++ str "-" ++ format_03d counter.

(** What a decimal suffix reads back as. *)
Definition parse_decimal (s : pystr) : N :=
  foldl (λ acc c, 10 * acc + (c - 48)) 0 s.

(** Python's [<] on [str]: lexicographic on code points, a proper prefix
    being smaller. *)
Fixpoint str_ltb (s t : pystr) : bool :=
  match s, t with
  | _, [] => false
  | [], _ :: _ => true
  | a :: s', b :: t' => (a <? b) || ((a =? b) && str_ltb s' t')
  end.

(** [s <= t], the comparison [sorted] orders by. *)
Definition str_le (s t : pystr) : Prop := str_ltb t s = false.

#[global] Instance str_le_dec s t : Decision (str_le s t).
Proof. unfold str_le. apply _. Defined.

End PyStr.

Import PyStr.

(** ** [SmartUniqueIDAssigner] *)

Module Assigner.

(** The element GUIDs of the host are strings. *)
Abbreviation guid_t := pystr (only parsing).

(** An entry of the list [get_all_elements_fast] returns.  The host handle
    under ['element'] is only passed back to the host and is left out. *)
Record elem_data := ElemData { guid : guid_t; etype : pystr }.

#[global] Instance elem_data_eq_dec : EqDecision elem_data.
Proof. solve_decision. Defined.

(** The part of [self] that [__init__] builds without the host. *)
Record SmartUniqueIDAssigner := {
  element_prefixes : gmap pystr pystr;
  available_element_types : list pystr
}.

(** [SmartUniqueIDAssigner()], once connected. *)
Definition init : SmartUniqueIDAssigner := {|
  element_prefixes := list_to_map [
    (str "Wall", str "W"); (str "Slab", str "S"); (str "Beam", str "B");
    (str "Column", str "C"); (str "Roof", str "R");
    (str "CurtainWall", str "CW"); (str "Stair", str "ST");
    (str "Railing", str "RL"); (str "Door", str "D");
    (str "Window", str "WIN"); (str "Skylight", str "SK");
    (str "Zone", str "Z"); (str "Mesh", str "M"); (str "Morph", str "MO");
    (str "Shell", str "SH"); (str "Object", str "O") ];
  available_element_types := str <$> [
    "Wall"; "Slab"; "Beam"; "Column"; "Roof"; "CurtainWall";
    "Stair"; "Railing"; "Door"; "Window"; "Skylight";
    "Zone"; "Mesh"; "Morph"; "Shell"; "Object" ]%string
|}.

(** *** [analyze_existing_ids] *)

(** The dictionary [analysis] the method returns. *)
Record analysis_t := {
  total_elements : nat;
  unique_ids : nat;
  empty_ids : nat;
  duplicate_count : nat;
  elements_needing_new_ids : gset guid_t;
  existing_unique_ids : gset pystr;
  duplicate_elements : gmap guid_t pystr
}.

(** The test [not element_id or element_id.strip() == ""]. *)
Definition is_absent (element_id : pystr) : bool :=
  bool_decide (element_id = []) || bool_decide (strip element_id = []).

(** The body of the first loop, on the pair [(id_counts, empty_ids)].
    The subscript [id_counts[clean_id]] raises [KeyError] on a key the
    dictionary does not have: [None] here. *)
Definition count_id (element_guid : guid_t) (element_id : pystr)
    (acc : gmap pystr (list guid_t) * list guid_t)
    : option (gmap pystr (list guid_t) * list guid_t) :=
  let '(id_counts, empty) := acc in
  if is_absent element_id then Some (id_counts, empty ++ [element_guid])
  else
    let clean_id := strip element_id in
    let id_counts :=
      match id_counts !! clean_id with
      | None => <[clean_id := []]> id_counts
      | Some _ => id_counts
      end in
    match id_counts !! clean_id with
    | None => None
    | Some element_guids =>
        Some (<[clean_id := element_guids ++ [element_guid]]> id_counts, empty)
    end.

(** The body of the second loop, on the pair [(duplicate_ids, unique_ids)]. *)
Definition split_id (element_id : pystr) (element_guids : list guid_t)
    (acc : gmap guid_t pystr * gset pystr) : gmap guid_t pystr * gset pystr :=
  let '(duplicate_ids, unique) := acc in
  if decide (1 < length element_guids)%nat
  then (foldl (λ d g, <[g := element_id]> d) duplicate_ids element_guids, unique)
  else (duplicate_ids, {[element_id]} ∪ unique).

(** The first loop; an exception in one round ends it. *)
Definition count_ids (existing_ids : gmap guid_t pystr)
    : option (gmap pystr (list guid_t) * list guid_t) :=
  map_fold (λ element_guid element_id acc, acc ≫= count_id element_guid element_id)
    (Some (∅, [])) existing_ids.

(** [dict.items()] is walked with [map_fold]: the order of the walk only
    decides the order inside [id_counts] and [empty_ids], of which the
    method keeps lengths and sets. *)
Definition analyze_existing_ids (existing_ids : gmap guid_t pystr)
    : option analysis_t :=
  match count_ids existing_ids with
  | None => None
  | Some (id_counts, empty) =>
      let '(duplicate_ids, unique) := map_fold split_id (∅, ∅) id_counts in
      Some {| total_elements := size existing_ids;
              unique_ids := size unique;
              empty_ids := length empty;
              duplicate_count := size duplicate_ids;
              elements_needing_new_ids :=
                list_to_set (empty ++ (map_to_list duplicate_ids).*1);
              existing_unique_ids := unique;
              duplicate_elements := duplicate_ids |}
  end.

(** The same method along given orders of its two walks.  [items] is
    [existing_ids.items()] in the order the dictionary happens to have, so
    [len(existing_ids)] is its length; [counts] gives [id_counts.items()]
    for the dictionary the first loop has built. *)
Definition count_walk (items : list (guid_t * pystr))
    : option (gmap pystr (list guid_t) * list guid_t) :=
  foldl (λ acc item, acc ≫= count_id item.1 item.2) (Some (∅, [])) items.

Definition analyze_walk (items : list (guid_t * pystr))
    (counts : gmap pystr (list guid_t) → list (pystr * list guid_t))
    : option analysis_t :=
  match count_walk items with
  | None => None
  | Some (id_counts, empty) =>
      let '(duplicate_ids, unique) :=
        foldl (λ acc item, split_id item.1 item.2 acc) (∅, ∅) (counts id_counts) in
      Some {| total_elements := length items;
              unique_ids := size unique;
              empty_ids := length empty;
              duplicate_count := size duplicate_ids;
              elements_needing_new_ids :=
                list_to_set (empty ++ (map_to_list duplicate_ids).*1);
              existing_unique_ids := unique;
              duplicate_elements := duplicate_ids |}
  end.

(** *** [generate_new_ids_for_problem_elements] *)

(** [self.element_prefixes.get(element_type, 'GEN')] *)
Definition prefix_for (self : SmartUniqueIDAssigner) (element_type : pystr) : pystr :=
  default (str "GEN") (element_prefixes self !! element_type).

(** Both counter loops,
    [while f"{prefix}-{counter:03d}" in all_reserved_ids: counter += 1]
    and [while True: ... if new_id not in all_reserved_ids: break],
    step the counter up to the first candidate that is not reserved. *)
Fixpoint next_free (fuel : nat) (prefix : pystr) (all_reserved_ids : gset pystr)
    (counter : N) : option N :=
  match fuel with
  | O => None
  | S fuel' =>
      if decide (format_id prefix counter ∈ all_reserved_ids)
      then next_free fuel' prefix all_reserved_ids (counter + 1)
      else Some counter
  end.

(** One more round than there are reserved identifiers. *)
Definition loop_fuel (all_reserved_ids : gset pystr) : nat :=
  S (size all_reserved_ids).

(** The variables the generation loops update. *)
Record gen_state := GenState {
  all_reserved_ids : gset pystr;
  new_id_mapping : gmap guid_t pystr
}.

(** [for elem_data in type_elements: ...], with the counter threaded. *)
Fixpoint assign_elements (prefix : pystr) (type_elements : list elem_data)
    (counter : N) (st : gen_state) : option (N * gen_state) :=
  match type_elements with
  | [] => Some (counter, st)
  | elem_data :: rest =>
      match next_free (loop_fuel (all_reserved_ids st)) prefix
              (all_reserved_ids st) counter with
      | None => None
      | Some counter =>
          let new_id := format_id prefix counter in
          assign_elements prefix rest (counter + 1)
            {| all_reserved_ids := {[new_id]} ∪ all_reserved_ids st;
               new_id_mapping := <[guid elem_data := new_id]> (new_id_mapping st) |}
      end
  end.

(** The body of [for element_type, type_elements in elements_by_type.items()]. *)
Definition assign_type (self : SmartUniqueIDAssigner) (element_type : pystr)
    (type_elements : list elem_data) (st : gen_state) : option gen_state :=
  let prefix := prefix_for self element_type in
  match next_free (loop_fuel (all_reserved_ids st)) prefix (all_reserved_ids st) 1 with
  | None => None
  | Some counter => snd <$> assign_elements prefix type_elements counter st
  end.

(** [elements_by_type[k].append(x)] on a [defaultdict(list)]: a new key goes
    to the end, which is the order [items()] walks. *)
Fixpoint dict_append (k : pystr) (x : elem_data)
    (d : list (pystr * list elem_data)) : list (pystr * list elem_data) :=
  match d with
  | [] => [(k, [x])]
  | (k', xs) :: d' =>
      if decide (k = k') then (k', xs ++ [x]) :: d'
      else (k', xs) :: dict_append k x d'
  end.

Definition group_by_type (problem_elements : list elem_data)
    : list (pystr * list elem_data) :=
  foldl (λ d elem_data, dict_append (etype elem_data) elem_data d) [] problem_elements.

(** The loop over the types. *)
Fixpoint assign_types (self : SmartUniqueIDAssigner)
    (elements_by_type : list (pystr * list elem_data)) (st : gen_state)
    : option gen_state :=
  match elements_by_type with
  | [] => Some st
  | (element_type, type_elements) :: rest =>
      match assign_type self element_type type_elements st with
      | None => None
      | Some st' => assign_types self rest st'
      end
  end.

(** The elements the method filters out of [elements]. *)
Definition problem_elements_of (elements : list elem_data) (analysis : analysis_t)
    : list elem_data :=
  filter (λ elem_data, guid elem_data ∈ elements_needing_new_ids analysis) elements.

Definition generate_new_ids_for_problem_elements (self : SmartUniqueIDAssigner)
    (elements : list elem_data) (analysis : analysis_t)
    : option (gmap guid_t pystr) :=
  if decide (elements_needing_new_ids analysis = ∅) then Some ∅
  else
    let problem_elements := problem_elements_of elements analysis in
    let elements_by_type := group_by_type problem_elements in
    new_id_mapping <$>
      assign_types self elements_by_type
        {| all_reserved_ids := existing_unique_ids analysis;
           new_id_mapping := ∅ |}.

(** Steps 2 to 4 of [assign_unique_ids_to_all_elements] on a snapshot of
    the host: the elements in the order the host lists them, and the
    identifier the host stores for each. *)
Definition existing_ids_of (snapshot : list (elem_data * pystr)) : gmap guid_t pystr :=
  foldl (λ d '(e, element_id), <[guid e := element_id]> d) ∅ snapshot.

Definition reconcile (self : SmartUniqueIDAssigner)
    (snapshot : list (elem_data * pystr)) : option (gmap guid_t pystr) :=
  let elements := snapshot.*1 in
  let existing_ids := existing_ids_of snapshot in
  analysis ← analyze_existing_ids existing_ids;
  generate_new_ids_for_problem_elements self elements analysis.

End Assigner.

Import Assigner.

(** ** [FastElementExtractor.extract_to_csv] *)

Module Extractor.

(** What the [csv.DictWriter] has written: the field names [writeheader]
    wrote, and one list of cells for every [writerow] that went through. *)
Record table := Table { header : list pystr; rows : list (list pystr) }.

(** How a call that has opened the file ends: [writeheader] raised, so
    nothing is written; a [writerow] raised, so the header and the rows
    before it are written; or every row is written.  In the first two cases
    the handler of the method returns [False].  The file system is taken to
    accept the file. *)
Inductive export_end :=
  | HeaderRefused
  | RowRefused (written : table)
  | Complete (written : table).

(** [['Element_GUID', 'Element_Type']] *)
Definition fixed_columns : list pystr :=
  [str "Element_GUID"; str "Element_Type"].

(** [for guid, data in d.items(): all_columns.update(data.keys())] *)
Definition add_keys (d : gmap guid_t (gmap pystr pystr)) (all_columns : gset pystr)
    : gset pystr :=
  map_fold (λ _ data acc, acc ∪ dom data) all_columns d.

Definition all_columns_of (properties_data classifications_data
    : gmap guid_t (gmap pystr pystr)) : gset pystr :=
  add_keys classifications_data
    (add_keys properties_data (list_to_set fixed_columns)).

(** [sorted] on a list of strings. *)
Definition sorted (l : list pystr) : list pystr := merge_sort str_le l.

(** The comprehension walks the set [all_columns] in the order the set
    happens to have; [elements] is one such order. *)
Definition sorted_columns_of (all_columns : gset pystr) : list pystr :=
  fixed_columns
  ++ sorted (filter (λ col, col ∉ fixed_columns) (elements all_columns)).

(** The file is opened with [encoding='utf-8-sig'].  Its encoder raises
    [UnicodeEncodeError] on a string that has a surrogate code point,
    [U+D800] to [U+DFFF], and accepts every other string. *)
Definition encodable (s : pystr) : bool :=
  forallb (λ c, negb ((55296 <=? c) && (c <=? 57343))) s.

(** [row_data] once [update] has run: the properties of the GUID with
    its classifications laid over them. *)
Definition row_data_of (classifications_data properties_data
    : gmap guid_t (gmap pystr pystr)) (guid : guid_t) : gmap pystr pystr :=
  default ∅ (classifications_data !! guid) ∪ default ∅ (properties_data !! guid).

(** [complete_row]: [row_data.get(col, "")] for every column. *)
Definition complete_row_of (sorted_columns : list pystr)
    (row_data : gmap pystr pystr) : list pystr :=
  (λ col, default [] (row_data !! col)) <$> sorted_columns.

(** The body of [for elem_data in elements] up to [complete_row].
    [row_data] is the dictionary stored in [properties_data] itself when the
    GUID has one, so [update] changes the stored dictionary too. *)
Definition write_row (sorted_columns : list pystr)
    (classifications_data properties_data : gmap guid_t (gmap pystr pystr))
    (elem_data : Assigner.elem_data)
    : gmap guid_t (gmap pystr pystr) * list pystr :=
  let guid := Assigner.guid elem_data in
  let row_data := row_data_of classifications_data properties_data guid in
  let properties_data :=
    match properties_data !! guid with
    | Some _ => <[guid := row_data]> properties_data
    | None => properties_data
    end in
  (properties_data, complete_row_of sorted_columns row_data).

(** The loop with its [writer.writerow(complete_row)].  The writer hands
    the line of a row to the file in one piece, so a row with a cell that
    cannot be encoded is not written, and the exception ends the loop:
    [false] with the rows written so far. *)
Fixpoint write_rows (sorted_columns : list pystr)
    (classifications_data : gmap guid_t (gmap pystr pystr))
    (elements : list Assigner.elem_data)
    (properties_data : gmap guid_t (gmap pystr pystr))
    (written : list (list pystr)) : bool * list (list pystr) :=
  match elements with
  | [] => (true, written)
  | elem_data :: rest =>
      let '(properties_data, complete_row) :=
        write_row sorted_columns classifications_data properties_data elem_data in
      if forallb encodable complete_row
      then write_rows sorted_columns classifications_data rest properties_data
             (written ++ [complete_row])
      else (false, written)
  end.

(** Step 4 of [extract_to_csv], from the three things the host supplied.
    Without elements the method returns [False] before it opens the file:
    [None]. *)
Definition extract_to_csv (elements : list Assigner.elem_data)
    (properties_data classifications_data : gmap guid_t (gmap pystr pystr))
    : option export_end :=
  match elements with
  | [] => None
  | _ =>
      let all_columns := all_columns_of properties_data classifications_data in
      let sorted_columns := sorted_columns_of all_columns in
      if forallb encodable sorted_columns
      then
        let '(all_written, written) :=
          write_rows sorted_columns classifications_data elements
            properties_data [] in
        let t := {| header := sorted_columns; rows := written |} in
        Some (if all_written then Complete t else RowRefused t)
      else Some HeaderRefused
  end.


(** A dictionary of dictionaries all of whose keys and values the file
    accepts. *)
Definition writable (d : gmap guid_t (gmap pystr pystr)) : Prop :=
  map_Forall (λ _ data,
    map_Forall (λ k v, encodable k = true ∧ encodable v = true) data) d.

#[global] Instance writable_dec d : Decision (writable d).
Proof. unfold writable. apply _. Defined.

End Extractor.

(** ** The vocabulary of the classification *)

Module Classes.

(** [g] carries the identifier [s], trimmed and not absent. *)
Definition holds (existing_ids : gmap guid_t pystr) (g : guid_t) (s : pystr) : Prop :=
  ∃ element_id,
    existing_ids !! g = Some element_id ∧ strip element_id ≠ [] ∧ strip element_id = s.

(** [g] has an identifier that is empty once trimmed. *)
Definition absent (existing_ids : gmap guid_t pystr) (g : guid_t) : Prop :=
  ∃ element_id, existing_ids !! g = Some element_id ∧ strip element_id = [].

(** [g] is the only holder of [s]. *)
Definition sole (existing_ids : gmap guid_t pystr) (g : guid_t) (s : pystr) : Prop :=
  holds existing_ids g s ∧ ∀ g', holds existing_ids g' s → g' = g.

(** [g] holds [s] and so does another element. *)
Definition shared (existing_ids : gmap guid_t pystr) (g : guid_t) (s : pystr) : Prop :=
  holds existing_ids g s ∧ ∃ g', g' ≠ g ∧ holds existing_ids g' s.

End Classes.

Import Classes.

(** ** The generation step as the specification words it *)

Module Steps.

(** One type's elements, in order: each takes the least counter [C] at or
    above the current one whose candidate is not reserved, the candidate is
    reserved, and the next element goes on from [C + 1]. *)
Inductive steps (prefix : pystr)
  : N → gset pystr → gmap guid_t pystr → list elem_data
    → gset pystr → gmap guid_t pystr → Prop :=
| steps_nil counter R m : steps prefix counter R m [] R m
| steps_cons counter R m e es C R' m' :
    counter ≤ C →
    format_id prefix C ∉ R →
    (∀ k, counter ≤ k < C → format_id prefix k ∈ R) →
    steps prefix (C + 1) ({[format_id prefix C]} ∪ R)
      (<[guid e := format_id prefix C]> m) es R' m' →
    steps prefix counter R m (e :: es) R' m'.

(** The types one after the other, each with its own counter from 1 on the
    elements of that type among [problem], in the order of [problem]. *)
Inductive runs (self : SmartUniqueIDAssigner) (problem : list elem_data)
  : list pystr → gset pystr → gmap guid_t pystr
    → gset pystr → gmap guid_t pystr → Prop :=
| runs_nil R m : runs self problem [] R m R m
| runs_cons T Ts R m R1 m1 R' m' :
    steps (prefix_for self T) 1 R m (filter (λ e, etype e = T) problem) R1 m1 →
    runs self problem Ts R1 m1 R' m' →
    runs self problem (T :: Ts) R m R' m'.

(** The identifier the host stores for [g] once every write-back of the
    mapping has succeeded. *)
Definition final_id (existing_ids new_id_mapping : gmap guid_t pystr) (g : guid_t)
    : option pystr :=
  match new_id_mapping !! g with
  | Some new_id => Some new_id
  | None => existing_ids !! g
  end.

(** No prefix of the table starts with a whitespace character. *)
Definition clean_prefixes (self : SmartUniqueIDAssigner) : Prop :=
  ∀ T p c, element_prefixes self !! T = Some p → head p = Some c → is_space c = false.

(** Every element with an existing identifier is among [elements]. *)
Definition covers (elements : list elem_data) (existing_ids : gmap guid_t pystr) : Prop :=
  ∀ g, is_Some (existing_ids !! g) → g ∈ guid <$> elements.

End Steps.

Import Steps.

(** ** What the loops keep true *)

Module Invariants.

(** What the first loop has built once it has walked [m]. *)
Definition counted (acc : gmap pystr (list guid_t) * list guid_t)
    (m : gmap guid_t pystr) : Prop :=
  (∀ g, g ∈ acc.2 ↔ absent m g)
  ∧ (∀ s g, (∃ gs, acc.1 !! s = Some gs ∧ g ∈ gs) ↔ holds m g s)
  ∧ (∀ s gs, acc.1 !! s = Some gs → NoDup gs ∧ gs ≠ []).

(** The lists of [id_counts] do not overlap. *)
Definition apart (c : gmap pystr (list guid_t)) : Prop :=
  ∀ s s' gs gs' g,
    c !! s = Some gs → c !! s' = Some gs' → g ∈ gs → g ∈ gs' → s = s'.

(** What the second loop has built once it has walked [c]. *)
Definition sorted_out (acc : gmap guid_t pystr * gset pystr)
    (c : gmap pystr (list guid_t)) : Prop :=
  apart c →
  (∀ g s, acc.1 !! g = Some s ↔
          ∃ gs, c !! s = Some gs ∧ (1 < length gs)%nat ∧ g ∈ gs)
  ∧ (∀ s, s ∈ acc.2 ↔ ∃ gs, c !! s = Some gs ∧ (length gs ≤ 1)%nat).

(** What [elements_by_type] holds once the loop has walked [l]. *)
Definition grouped (d : list (pystr * list elem_data)) (l : list elem_data) : Prop :=
  NoDup d.*1
  ∧ (∀ T es, (T, es) ∈ d → es = filter (λ e, etype e = T) l ∧ es ≠ [])
  ∧ (∀ e, e ∈ l → etype e ∈ d.*1).

(** The reserved set holds [U] and every assigned value, no assigned value
    is in [U], and no value is assigned to two elements. *)
Definition sound (U R : gset pystr) (m : gmap guid_t pystr) : Prop :=
  U ⊆ R
  ∧ (∀ g v, m !! g = Some v → v ∈ R ∧ v ∉ U)
  ∧ (∀ g1 g2 v, m !! g1 = Some v → m !! g2 = Some v → g1 = g2).

End Invariants.

Import Invariants.

(** ** Inputs to run the code on *)

Module Examples.

Definition E1 : elem_data := ElemData (str "E1") (str "Wall").
Definition E2 : elem_data := ElemData (str "E2") (str "Wall").
Definition E3 : elem_data := ElemData (str "E3") (str "Wall").
Definition E4 : elem_data := ElemData (str "E4") (str "Beam").

(** Two walls share [W-001], a third has [W-005] alone, a beam has none. *)
Definition snapshot : list (elem_data * pystr) :=
  [(E1, str "W-001"); (E2, str "W-001"); (E3, str "W-005"); (E4, str "")].



(** Two walls without identifier in an otherwise empty project. *)
Definition blank_walls : list (elem_data * pystr) :=
  [(E1, str ""); (E2, str " ")].

(** The same assigner with another list of types to fetch. *)
Definition init_walls_only : SmartUniqueIDAssigner :=
  {| element_prefixes := element_prefixes init;
     available_element_types := [str "Wall"] |}.

(** What the host returned for two elements of the export. *)
Definition properties_data : gmap guid_t (gmap pystr pystr) :=
  {[ str "E1" := {[ str "Element_Type" := str "Wall";
                    str "Element_GUID" := str "E1";
                    str "Layer" := str "Shell";
                    str "Area" := str "12.5" ]};
     str "E4" := {[ str "Element_Type" := str "Beam";
                    str "Element_GUID" := str "E4";
                    str "Length" := str "3.2" ]} ]}.

Definition classifications_data : gmap guid_t (gmap pystr pystr) :=
  {[ str "E1" := {[ str "Classification_ARCHICAD" := str "Wall" ]};
     str "E4" := ∅ ]}.


End Examples.

Import Examples.

(** ** The methods of [SmartUniqueIDAssigner] that talk to the host *)

Module AssignerHost.

(** [get_all_elements_fast].  [GetElementsByType] answers with the GUIDs of
    the elements of a type, or raises ([None]); a type whose call raises is
    skipped with a warning. *)
Definition get_all_elements_fast (self : SmartUniqueIDAssigner)
    (GetElementsByType : pystr → option (list guid_t)) : list elem_data :=
  foldl (λ all_elements elem_type,
           match GetElementsByType elem_type with
           | Some elements =>
               all_elements ++ ((λ g, ElemData g elem_type) <$> elements)
           | None => all_elements
           end)
    [] (available_element_types self).

(** One answer of [GetPropertyValuesOfElements]: its [propertyValues], each
    entry being the [value] of its [propertyValue] when it has one. *)
Abbreviation values_wrapper := (list (option pystr)) (only parsing).

(** The identifier read from one answer: the first value when it is there
    and not empty, the empty string otherwise. *)
Definition read_element_id (id_value_wrapper : values_wrapper) : pystr :=
  match id_value_wrapper with
  | Some value :: _ => if decide (value = []) then [] else value
  | _ => []
  end.

(** [for i, id_value_wrapper in enumerate(all_id_values)], with the guard
    [if i < len(elements)]. *)
Fixpoint store_ids (elements : list elem_data) (i : nat)
    (all_id_values : list values_wrapper) (existing_ids : gmap guid_t pystr)
    : gmap guid_t pystr :=
  match all_id_values with
  | [] => existing_ids
  | id_value_wrapper :: rest =>
      store_ids elements (S i) rest
        match elements !! i with
        | Some elem_data =>
            <[guid elem_data := read_element_id id_value_wrapper]> existing_ids
        | None => existing_ids
        end
  end.

(** [get_existing_ids_bulk].  When a host call raises ([None]) the handler
    gives every element the empty identifier, over whatever was stored. *)
Definition get_existing_ids_bulk (elements : list elem_data)
    (GetPropertyValuesOfElements : option (list values_wrapper))
    : gmap guid_t pystr :=
  match GetPropertyValuesOfElements with
  | Some all_id_values => store_ids elements 0 all_id_values ∅
  | None =>
      foldl (λ existing_ids elem_data, <[guid elem_data := []]> existing_ids)
        ∅ elements
  end.

(** *** The mapping with the order of its items *)

(** [d[k] = v] on a dictionary kept as the list of its items in the order
    [items()] walks them: a key the dictionary has keeps its place, a new
    key goes to the end. *)
Fixpoint dict_set (k : guid_t) (v : pystr) (d : list (guid_t * pystr))
    : list (guid_t * pystr) :=
  match d with
  | [] => [(k, v)]
  | (k', v') :: d' =>
      if decide (k = k') then (k', v) :: d' else (k', v') :: dict_set k v d'
  end.

(** The loops of [generate_new_ids_for_problem_elements] once more, with
    [new_id_mapping] kept as the list of its items. *)
Fixpoint assign_elements_items (prefix : pystr) (type_elements : list elem_data)
    (counter : N) (all_reserved_ids : gset pystr)
    (new_id_mapping : list (guid_t * pystr))
    : option (N * gset pystr * list (guid_t * pystr)) :=
  match type_elements with
  | [] => Some (counter, all_reserved_ids, new_id_mapping)
  | elem_data :: rest =>
      match next_free (loop_fuel all_reserved_ids) prefix all_reserved_ids
              counter with
      | None => None
      | Some counter =>
          let new_id := format_id prefix counter in
          assign_elements_items prefix rest (counter + 1)
            ({[new_id]} ∪ all_reserved_ids)
            (dict_set (guid elem_data) new_id new_id_mapping)
      end
  end.

Definition assign_type_items (self : SmartUniqueIDAssigner) (element_type : pystr)
    (type_elements : list elem_data) (all_reserved_ids : gset pystr)
    (new_id_mapping : list (guid_t * pystr))
    : option (gset pystr * list (guid_t * pystr)) :=
  let prefix := prefix_for self element_type in
  match next_free (loop_fuel all_reserved_ids) prefix all_reserved_ids 1 with
  | None => None
  | Some counter =>
      (λ r, (r.1.2, r.2))
      <$> assign_elements_items prefix type_elements counter all_reserved_ids
            new_id_mapping
  end.

Fixpoint assign_types_items (self : SmartUniqueIDAssigner)
    (elements_by_type : list (pystr * list elem_data))
    (all_reserved_ids : gset pystr) (new_id_mapping : list (guid_t * pystr))
    : option (gset pystr * list (guid_t * pystr)) :=
  match elements_by_type with
  | [] => Some (all_reserved_ids, new_id_mapping)
  | (element_type, type_elements) :: rest =>
      match assign_type_items self element_type type_elements all_reserved_ids
              new_id_mapping with
      | None => None
      | Some (all_reserved_ids, new_id_mapping) =>
          assign_types_items self rest all_reserved_ids new_id_mapping
      end
  end.

Definition new_id_mapping_items (self : SmartUniqueIDAssigner)
    (elements : list elem_data) (analysis : analysis_t)
    : option (list (guid_t * pystr)) :=
  if decide (elements_needing_new_ids analysis = ∅) then Some []
  else
    snd <$> assign_types_items self
              (group_by_type (problem_elements_of elements analysis))
              (existing_unique_ids analysis) [].

(** What one [SetPropertyValuesOfElements] call ends in. *)
Inductive set_outcome :=
  | Succeeded
  | Failed (message : option pystr)
  | NoResults
  | Raised (text : pystr)
  | Interrupted.

(** An entry of [failed_elements]. *)
Record failed_element := FailedElement {
  failed_guid : guid_t;
  failed_new_id : pystr;
  failed_reason : pystr
}.

(** The dictionary [assign_ids_super_fast] returns. *)
Record assignment_results := AssignmentResults {
  success_count : nat;
  permission_denied_count : nat;
  other_errors : nat;
  failed_elements : list failed_element;
  total_attempted : nat
}.

(** [needle in hay] on strings. *)
Fixpoint contains (needle hay : pystr) : bool :=
  bool_decide (needle `prefix_of` hay)
  || match hay with
     | [] => false
     | _ :: hay' => contains needle hay'
     end.

(** The counts of [generate_assignment_report]: [d[k] += 1] on a
    [defaultdict(int)], and a read of it. *)
Definition incr (k : pystr) (d : gmap pystr nat) : gmap pystr nat :=
  <[k := S (default O (d !! k))]> d.

Definition count_of (d : gmap pystr nat) (k : pystr) : nat := default O (d !! k).

(** The three counters, in the order [type_counts], [kept_unchanged],
    [assigned_new]. *)
Definition count_element (new_id_mapping : gmap guid_t pystr)
    (acc : gmap pystr nat * gmap pystr nat * gmap pystr nat)
    (elem_data : elem_data) : gmap pystr nat * gmap pystr nat * gmap pystr nat :=
  let '(type_counts, kept_unchanged, assigned_new) := acc in
  let element_type := etype elem_data in
  let type_counts := incr element_type type_counts in
  match new_id_mapping !! guid elem_data with
  | Some _ => (type_counts, kept_unchanged, incr element_type assigned_new)
  | None => (type_counts, incr element_type kept_unchanged, assigned_new)
  end.

(** The first loop of [generate_assignment_report]. *)
Definition count_by_type (elements : list elem_data)
    (new_id_mapping : gmap guid_t pystr)
    : gmap pystr nat * gmap pystr nat * gmap pystr nat :=
  foldl (count_element new_id_mapping) (∅, ∅, ∅) elements.

Section write_back.

(** [str.lower], which the script applies to the error message of the host;
    the case mapping of Unicode is left to Python. *)
Variable lower : pystr → pystr.

(** The test on the error message of a failed assignment. *)
Definition is_permission_error (error_msg : pystr) : bool :=
  contains (str "permission") (lower error_msg)
  || contains (str "teamwork") (lower error_msg)
  || contains (str "reserved") (lower error_msg).

(** The body of the loop of [assign_ids_super_fast] for an outcome other
    than [KeyboardInterrupt], on the four variables it updates. *)
Definition record_outcome (element_guid : guid_t) (new_id : pystr)
    (outcome : set_outcome) (r : assignment_results) : assignment_results :=
  match outcome with
  | Succeeded =>
      AssignmentResults (S (success_count r)) (permission_denied_count r)
        (other_errors r) (failed_elements r) (total_attempted r)
  | Failed message =>
      let error_msg := default (str "Unknown error") message in
      if is_permission_error error_msg
      then AssignmentResults (success_count r) (S (permission_denied_count r))
             (other_errors r)
             (failed_elements r
              ++ [FailedElement element_guid new_id
                    (str "TeamWork permission denied")])
             (total_attempted r)
      else AssignmentResults (success_count r) (permission_denied_count r)
             (S (other_errors r))
             (failed_elements r ++ [FailedElement element_guid new_id error_msg])
             (total_attempted r)
  | NoResults =>
      AssignmentResults (success_count r) (permission_denied_count r)
        (S (other_errors r))
        (failed_elements r
         ++ [FailedElement element_guid new_id (str "No response from API")])
        (total_attempted r)
  | Raised text =>
      AssignmentResults (success_count r) (permission_denied_count r)
        (S (other_errors r))
        (failed_elements r
         ++ [FailedElement element_guid new_id (str "Processing error: " ++ text)])
        (total_attempted r)
  | Interrupted => r
  end.

(** [for i, (element_guid, new_id) in enumerate(new_id_mapping.items(), 1)]:
    one call of the host for each entry, until a [KeyboardInterrupt]
    breaks the loop. *)
Fixpoint assign_each (SetPropertyValuesOfElements : guid_t → pystr → set_outcome)
    (items : list (guid_t * pystr)) (r : assignment_results)
    : assignment_results :=
  match items with
  | [] => r
  | (element_guid, new_id) :: rest =>
      match SetPropertyValuesOfElements element_guid new_id with
      | Interrupted => r
      | outcome =>
          assign_each SetPropertyValuesOfElements rest
            (record_outcome element_guid new_id outcome r)
      end
  end.

(** [assign_ids_super_fast].  [new_id_mapping] is the dictionary as the
    list of its items in the order [items()] walks them, the order in which
    the keys were inserted; [len(new_id_mapping)] is its length.
    [GetBuiltInPropertyId] answers or raises ([None]). *)
Definition assign_ids_super_fast (GetBuiltInPropertyId : option unit)
    (SetPropertyValuesOfElements : guid_t → pystr → set_outcome)
    (new_id_mapping : list (guid_t * pystr)) : assignment_results :=
  match GetBuiltInPropertyId with
  | Some _ =>
      assign_each SetPropertyValuesOfElements new_id_mapping
        (AssignmentResults 0 0 0 [] (length new_id_mapping))
  | None =>
      AssignmentResults 0 0 (length new_id_mapping) [] (length new_id_mapping)
  end.

End write_back.

(** How a run of [assign_unique_ids_to_all_elements] ends: without
    elements, without anything to assign, after the write-back of a mapping,
    or in the handler because step 3 or 4 raised. *)
Inductive run_end :=
  | NoElementsFound
  | AlreadyUnique
  | Assigned (analysis : analysis_t) (new_id_mapping : list (guid_t * pystr))
      (results : assignment_results)
  | Crashed.

(** Steps 1 to 5 of [assign_unique_ids_to_all_elements].  The host is
    asked for the property id of the identifier twice, in step 2 and in
    step 5, and may answer or raise each time; in step 2 it answers the bulk
    read for the elements it is asked about, and a raise of either call ends
    in the handler of [get_existing_ids_bulk]. *)
Definition assign_unique_ids_to_all_elements (self : SmartUniqueIDAssigner)
    (lower : pystr → pystr)
    (GetElementsByType : pystr → option (list guid_t))
    (GetBuiltInPropertyId_read : option unit)
    (GetPropertyValuesOfElements : list elem_data → option (list values_wrapper))
    (GetBuiltInPropertyId_write : option unit)
    (SetPropertyValuesOfElements : guid_t → pystr → set_outcome) : run_end :=
  let elements := get_all_elements_fast self GetElementsByType in
  match elements with
  | [] => NoElementsFound
  | _ =>
      let existing_ids :=
        get_existing_ids_bulk elements
          match GetBuiltInPropertyId_read with
          | Some _ => GetPropertyValuesOfElements elements
          | None => None
          end in
      match analyze_existing_ids existing_ids with
      | None => Crashed
      | Some analysis =>
          match new_id_mapping_items self elements analysis with
          | None => Crashed
          | Some [] => AlreadyUnique
          | Some new_id_mapping =>
              Assigned analysis new_id_mapping
                (assign_ids_super_fast lower GetBuiltInPropertyId_write
                   SetPropertyValuesOfElements new_id_mapping)
          end
      end
  end.

(** What the method returns.  Step 6 writes the report to a file, which
    can raise; the handler then returns [False] like for any other
    exception. *)
Definition returned (report_written : bool) (r : run_end) : bool :=
  match r with
  | NoElementsFound => false
  | AlreadyUnique => true
  | Assigned analysis _ results =>
      report_written
      && (bool_decide (0 < success_count results)%nat
          || bool_decide (0 < unique_ids analysis)%nat)
  | Crashed => false
  end.

End AssignerHost.

(** ** The methods of [FastElementExtractor] that talk to the host *)

Module ExtractorHost.

(** [get_all_elements_fast] of the extractor, with its own list of types. *)
Definition element_types : list pystr :=
  str <$> [ "Wall"; "Slab"; "Beam"; "Column"; "Roof"; "CurtainWall";
            "Stair"; "Railing"; "Door"; "Window"; "Skylight";
            "Zone"; "Mesh"; "Morph"; "Shell"; "Object" ]%string.

Definition get_all_elements_fast
    (GetElementsByType : pystr → option (list guid_t)) : list elem_data :=
  foldl (λ all_elements elem_type,
           match GetElementsByType elem_type with
           | Some elements =>
               all_elements ++ ((λ g, ElemData g elem_type) <$> elements)
           | None => all_elements
           end)
    [] element_types.

(** The dictionary every element starts with. *)
Definition basic_data (element_type : pystr) (element_guid : guid_t)
    : gmap pystr pystr :=
  <[str "Element_GUID" := element_guid]> {[ str "Element_Type" := element_type ]}.

(** One entry of [propertyValues]: the text [str(value)] of its value,
    the mark that it has no value, or an item whose [propertyValue] cannot
    be read (the host answered with an error for this property), on which
    the body of the loop raises. *)
Inductive value_item :=
  | Value (text : pystr)
  | NoValue
  | ErrorItem.

(** What the body of the loop stores for an item: [str(value)],
    ['<Undefined>'] for an item without value, and nothing for an item on
    which it raises. *)
Definition stored_text (prop_value : value_item) : option pystr :=
  match prop_value with
  | Value text => Some text
  | NoValue => Some (str "<Undefined>")
  | ErrorItem => None
  end.

(** [for j, prop_value in enumerate(prop_values_wrapper.propertyValues)].
    [property_details] holds the name of each property, or [None] when
    reading the name raises.  A property past the end of
    [property_details], one whose name cannot be read and one whose value
    cannot be read are skipped, the last two by [except: continue]. *)
Fixpoint store_properties (property_details : list (option pystr)) (j : nat)
    (propertyValues : list value_item) (data : gmap pystr pystr)
    : gmap pystr pystr :=
  match propertyValues with
  | [] => data
  | prop_value :: rest =>
      store_properties property_details (S j) rest
        match property_details !! j, stored_text prop_value with
        | Some (Some prop_name), Some text => <[prop_name := text]> data
        | _, _ => data
        end
  end.

(** [for i, prop_values_wrapper in enumerate(all_prop_values)], with the
    guard [if i >= len(element_map): continue]. *)
Fixpoint store_elements (elements : list elem_data)
    (property_details : list (option pystr)) (i : nat)
    (all_prop_values : list (list value_item))
    (results : gmap guid_t (gmap pystr pystr)) : gmap guid_t (gmap pystr pystr) :=
  match all_prop_values with
  | [] => results
  | prop_values_wrapper :: rest =>
      store_elements elements property_details (S i) rest
        match elements !! i with
        | Some elem_data =>
            <[guid elem_data :=
                store_properties property_details 0 prop_values_wrapper
                  (basic_data (etype elem_data) (guid elem_data))]> results
        | None => results
        end
  end.

(** [get_all_properties_bulk].  When the discovery of the properties
    raises the method returns the empty dictionary; when the bulk read
    raises every element gets its basic data only. *)
Definition get_all_properties_bulk (elements : list elem_data)
    (GetDetailsOfProperties : option (list (option pystr)))
    (GetPropertyValuesOfElements : option (list (list value_item)))
    : gmap guid_t (gmap pystr pystr) :=
  match GetDetailsOfProperties with
  | None => ∅
  | Some property_details =>
      match GetPropertyValuesOfElements with
      | Some all_prop_values =>
          store_elements elements property_details 0 all_prop_values ∅
      | None =>
          foldl (λ results elem_data,
                   <[guid elem_data :=
                       basic_data (etype elem_data) (guid elem_data)]> results)
            ∅ elements
      end
  end.

(** [s.replace(old, new)] for one-character [old] and [new]. *)
Definition replace_char (old new : N) (s : pystr) : pystr :=
  (λ c, if decide (c = old) then new else c) <$> s.

(** [system_name.replace(' ', '_').replace('-', '_').replace('.', '_')] *)
Definition clean_system_name (system_name : pystr) : pystr :=
  replace_char 46 95 (replace_char 45 95 (replace_char 32 95 system_name)).

(** The dictionary [system_names], from the GUID of a system to its name. *)
Definition system_names_of (class_systems : list (pystr * pystr))
    : gmap pystr pystr :=
  foldl (λ system_names '(system_guid, name), <[system_guid := name]> system_names)
    ∅ class_systems.

(** One entry of [classificationIds]: the GUID of its system and the name
    of its item when it has one; [None] for an entry without
    [classificationId] or one that raises, which is skipped. *)
Definition add_classification (system_names : gmap pystr pystr)
    (data : gmap pystr pystr) (classification : option (pystr * option pystr))
    : gmap pystr pystr :=
  match classification with
  | None => data
  | Some (system_guid, item) =>
      let system_name :=
        default (str "Unknown_System") (system_names !! system_guid) in
      let item_name := default [] item in
      <[str "Classification_" ++ clean_system_name system_name := item_name]> data
  end.

(** [for i, class_wrapper in enumerate(all_classifications)].  The
    subscript [elements[i]] has no guard: past the end of [elements] it
    raises [IndexError], [None] here. *)
Fixpoint store_classifications (elements : list elem_data)
    (system_names : gmap pystr pystr) (i : nat)
    (all_classifications : list (list (option (pystr * option pystr))))
    (classifications : gmap guid_t (gmap pystr pystr))
    : option (gmap guid_t (gmap pystr pystr)) :=
  match all_classifications with
  | [] => Some classifications
  | class_wrapper :: rest =>
      match elements !! i with
      | None => None
      | Some elem_data =>
          store_classifications elements system_names (S i) rest
            (<[guid elem_data :=
                 foldl (add_classification system_names) ∅ class_wrapper]>
               classifications)
      end
  end.

(** What the handler of [get_classifications_fast] leaves: an empty
    dictionary for every element. *)
Definition no_classifications (elements : list elem_data)
    : gmap guid_t (gmap pystr pystr) :=
  foldl (λ classifications elem_data, <[guid elem_data := ∅]> classifications)
    ∅ elements.

(** [get_classifications_fast].  Without classification systems the
    method returns the empty dictionary; any exception, of the host or of
    the subscript, ends in the handler. *)
Definition get_classifications_fast (elements : list elem_data)
    (GetAllClassificationSystems : option (list (pystr * pystr)))
    (GetClassificationsOfElements
       : option (list (list (option (pystr * option pystr)))))
    : gmap guid_t (gmap pystr pystr) :=
  match GetAllClassificationSystems with
  | None => no_classifications elements
  | Some [] => ∅
  | Some class_systems =>
      match GetClassificationsOfElements with
      | None => no_classifications elements
      | Some all_classifications =>
          default (no_classifications elements)
            (store_classifications elements (system_names_of class_systems) 0
               all_classifications ∅)
      end
  end.

(** Steps 1 to 4 of [extract_to_csv] on the answers of the host. *)
Definition export
    (GetElementsByType : pystr → option (list guid_t))
    (GetDetailsOfProperties : option (list (option pystr)))
    (GetPropertyValuesOfElements : option (list (list value_item)))
    (GetAllClassificationSystems : option (list (pystr * pystr)))
    (GetClassificationsOfElements
       : option (list (list (option (pystr * option pystr)))))
    : option Extractor.export_end :=
  let elements := get_all_elements_fast GetElementsByType in
  Extractor.extract_to_csv elements
    (get_all_properties_bulk elements GetDetailsOfProperties
       GetPropertyValuesOfElements)
    (get_classifications_fast elements GetAllClassificationSystems
       GetClassificationsOfElements).

End ExtractorHost.

(** ** Measures used for counting *)

Module Measures.

(** The number of GUIDs filed in [id_counts]. *)
Definition filed (id_counts : gmap pystr (list guid_t)) : nat :=
  map_fold (λ _ element_guids n, (length element_guids + n)%nat) O id_counts.

End Measures.

Import Measures.

(** ** Facts about strings *)

Module PyStrFacts.

Example strip_both_ends : strip ([32; 9] ++ str "W-001" ++ [13; 10]) = str "W-001".
Proof. reflexivity. Qed.

Example strip_keeps_inner : strip (str " W 001 ") = str "W 001".
Proof. reflexivity. Qed.

Example strip_blank : strip (str "   ") = str "".
Proof. reflexivity. Qed.

Example format_pads : format_id (str "B") 12 = str "B-012".
Proof. reflexivity. Qed.

Example str_order : str_ltb (str "Area") (str "Layer") = true
                    ∧ str_ltb (str "Layer") (str "Length") = true
                    ∧ str_ltb (str "Zone") (str "area") = true.
Proof. by vm_compute. Qed.

Lemma lstrip_split s :
  ∃ l, s = l ++ lstrip s ∧ Forall (λ c, is_space c = true) l.
Proof.
  induction s as [|c s [l [Hs Hl]]]; simpl.
  - exists []. split; [done | constructor].
  - destruct (is_space c) eqn:Hc.
    + exists (c :: l). split; [by rewrite <- app_comm_cons, <- Hs | by constructor].
    + exists []. split; [done | constructor].
Qed.

Lemma rstrip_split s :
  ∃ r, s = rstrip s ++ r ∧ Forall (λ c, is_space c = true) r.
Proof.
  induction s as [|c s [r [Hs Hr]]]; simpl.
  - exists []. split; [done | constructor].
  - destruct (rstrip s) as [|d t] eqn:Ht.
    + simpl in Hs. subst r. destruct (is_space c) eqn:Hc.
      * exists (c :: s). split; [done | by constructor].
      * exists s. split; [done | done].
    + exists r. split; [by rewrite Hs at 1 | done].
Qed.

Lemma lstrip_head s c : head (lstrip s) = Some c → is_space c = false.
Proof.
  induction s as [|d s IH]; simpl; [done |].
  destruct (is_space d) eqn:Hd; [done |]. simpl. by intros [= <-].
Qed.

Lemma rstrip_last s c : last (rstrip s) = Some c → is_space c = false.
Proof.
  revert c. induction s as [|d s IH]; simpl; intros c; [done |].
  destruct (rstrip s) as [|e t] eqn:Ht.
  - destruct (is_space d) eqn:Hd; [done |]. simpl. by intros [= <-].
  - rewrite last_cons. intros H. apply IH.
    destruct (last (e :: t)) eqn:Hl; [done |].
    by apply last_None in Hl.
Qed.

Lemma rstrip_head s c : head s = Some c → is_space c = false → head (rstrip s) = Some c.
Proof.
  destruct s as [|d s]; simpl; [done |]. intros [= ->] Hc.
  destruct (rstrip s); [by rewrite Hc | done].
Qed.

Lemma rstrip_head_inv s c : head (rstrip s) = Some c → head s = Some c.
Proof.
  destruct s as [|d s]; simpl; [done |].
  destruct (rstrip s); [by destruct (is_space d) | done].
Qed.

Lemma strip_nil : strip [] = [].
Proof. done. Qed.

Lemma rstrip_fixed s c : last s = Some c → is_space c = false → rstrip s = s.
Proof.
  induction s as [|d s IH]; simpl; [done |].
  destruct s as [|e t].
  - simpl. intros [= ->] ->. done.
  - rewrite last_cons. destruct (last (e :: t)) as [x|] eqn:Hl;
      [| by apply last_None in Hl].
    intros [= ->] Hc. rewrite (IH eq_refl Hc). done.
Qed.

Lemma lstrip_fixed s c : head s = Some c → is_space c = false → lstrip s = s.
Proof. destruct s; simpl; [done |]. by intros [= ->] ->. Qed.

Lemma strip_fixed s a z :
  head s = Some a → is_space a = false →
  last s = Some z → is_space z = false → strip s = s.
Proof.
  intros Ha Hsa Hz Hsz. unfold strip.
  rewrite (lstrip_fixed _ _ Ha Hsa). by apply (rstrip_fixed _ z).
Qed.

Lemma uint_codes_inj u v : uint_codes u = uint_codes v → u = v.
Proof.
  revert v. induction u; intros [] H; simpl in H; try done;
    injection H as H; f_equal; auto.
Qed.

Lemma uint_codes_length u : length (uint_codes u) = Decimal.nb_digits u.
Proof. induction u; simpl; auto. Qed.

Lemma of_uint_iter_D0 n u : N.of_uint (Nat.iter n Decimal.D0 u) = N.of_uint u.
Proof. induction n; simpl; auto. Qed.

Lemma format_03d_inj c c' : format_03d c = format_03d c' → c = c'.
Proof.
  unfold format_03d. intros H%uint_codes_inj.
  apply (f_equal N.of_uint) in H.
  by rewrite !of_uint_iter_D0, !Unsigned.of_to in H.
Qed.

Lemma format_id_inj prefix c c' : format_id prefix c = format_id prefix c' → c = c'.
Proof.
  unfold format_id. intros H%app_inv_head%app_inv_head. by apply format_03d_inj.
Qed.

Lemma parse_codes_acc u acc :
  foldl (λ a c, 10 * a + (c - 48)) (N.pos acc) (uint_codes u)
  = N.pos (Pos.of_uint_acc u acc).
Proof.
  revert acc. induction u; intros acc; simpl; try done;
    rewrite <- IHu; f_equal; lia.
Qed.

Lemma parse_codes u : parse_decimal (uint_codes u) = N.of_uint u.
Proof.
  unfold parse_decimal, N.of_uint.
  induction u; simpl; try done; by rewrite <- parse_codes_acc.
Qed.

Lemma parse_format_03d c : parse_decimal (format_03d c) = c.
Proof.
  unfold format_03d. by rewrite parse_codes, of_uint_iter_D0, Unsigned.of_to.
Qed.

Lemma of_uint_acc_bound u acc :
  N.pos (Pos.of_uint_acc u acc) + 1
  ≤ (N.pos acc + 1) * 10 ^ N.of_nat (Decimal.nb_digits u).
Proof.
  revert acc. induction u; intros acc;
    [simpl; lia | cbn [Pos.of_uint_acc Decimal.nb_digits] ..];
    (etrans; [apply IHu |]);
    rewrite Nat2N.inj_succ, N.pow_succ_r'; nia.
Qed.

Lemma of_uint_bound u : N.of_uint u < 10 ^ N.of_nat (Decimal.nb_digits u).
Proof.
  unfold N.of_uint.
  induction u; cbn [Pos.of_uint Decimal.nb_digits];
    [simpl; lia | rewrite Nat2N.inj_succ, N.pow_succ_r'; lia | ..];
    match goal with
    | |- context [Pos.of_uint_acc ?u ?a] =>
        pose proof (of_uint_acc_bound u a);
        rewrite Nat2N.inj_succ, N.pow_succ_r'; nia
    end.
Qed.

Lemma nb_digits_large c : 1000 ≤ c → (4 ≤ Decimal.nb_digits (N.to_uint c))%nat.
Proof.
  intros Hc. pose proof (of_uint_bound (N.to_uint c)) as Hb.
  rewrite Unsigned.of_to in Hb.
  destruct (Decimal.nb_digits (N.to_uint c)) as [|[|[|[|n]]]]; simpl in Hb; lia.
Qed.

Lemma nb_digits_small c : c < 1000 → (Decimal.nb_digits (N.to_uint c) ≤ 3)%nat.
Proof.
  intros Hc.
  assert (Hall : forallb (λ n, Decimal.nb_digits (N.to_uint (N.of_nat n)) <=? 3)%nat
                   (seq 0 1000) = true) by (vm_compute; reflexivity).
  rewrite forallb_forall in Hall.
  specialize (Hall (N.to_nat c)). rewrite N2Nat.id in Hall.
  apply Nat.leb_le, Hall, in_seq. lia.
Qed.

Lemma nb_digits_pos c : (1 ≤ Decimal.nb_digits (N.to_uint c))%nat.
Proof.
  destruct (Decimal.nb_digits (N.to_uint c)) eqn:H; [| lia].
  apply DecimalFacts.nb_digits_0 in H.
  destruct c as [|p]; [done |].
  apply (f_equal N.of_uint) in H. by rewrite Unsigned.of_to in H.
Qed.

Lemma format_03d_length c :
  length (format_03d c) = (3 `max` Decimal.nb_digits (N.to_uint c))%nat.
Proof.
  unfold format_03d. rewrite uint_codes_length, DecimalFacts.nb_digits_iter_D0. lia.
Qed.

Lemma format_03d_large c : 1000 ≤ c → format_03d c = uint_codes (N.to_uint c).
Proof.
  intros H%nb_digits_large. unfold format_03d.
  by replace (3 - Decimal.nb_digits (N.to_uint c))%nat with O by lia.
Qed.

End PyStrFacts.

(** ** Facts about [analyze_existing_ids] *)

Module AnalysisFacts.

Lemma is_absent_true element_id : is_absent element_id = true ↔ strip element_id = [].
Proof.
  unfold is_absent. rewrite orb_true_iff, !bool_decide_eq_true.
  split; [intros [-> | H]; done | auto].
Qed.

(** The subscript never raises: the key was stored just before. *)
Lemma count_id_eq g element_id c e :
  count_id g element_id (c, e) =
  Some (if is_absent element_id then (c, e ++ [g])
        else (<[strip element_id := default [] (c !! strip element_id) ++ [g]]> c, e)).
Proof.
  unfold count_id. destruct (is_absent element_id); [done |].
  destruct (c !! strip element_id) as [gs|] eqn:Hc; [by rewrite Hc |].
  by rewrite lookup_insert_eq, insert_insert_eq.
Qed.

Lemma holds_insert (m : gmap guid_t pystr) i x g s :
  m !! i = None →
  holds (<[i:=x]> m) g s ↔ (g = i ∧ strip x ≠ [] ∧ strip x = s) ∨ holds m g s.
Proof.
  intros Hi. unfold holds. split.
  - intros (element_id & Hl & Hne & Hs).
    destruct (decide (i = g)) as [-> | Hig].
    + rewrite lookup_insert_eq in Hl. injection Hl as ->. by left.
    + rewrite lookup_insert_ne in Hl by done. right. eauto.
  - intros [(-> & Hne & Hs) | (element_id & Hl & Hne & Hs)].
    + exists x. by rewrite lookup_insert_eq.
    + exists element_id. rewrite lookup_insert_ne; [done | congruence].
Qed.

Lemma absent_insert (m : gmap guid_t pystr) i x g :
  m !! i = None →
  absent (<[i:=x]> m) g ↔ (g = i ∧ strip x = []) ∨ absent m g.
Proof.
  intros Hi. unfold absent. split.
  - intros (element_id & Hl & Hs).
    destruct (decide (i = g)) as [-> | Hig].
    + rewrite lookup_insert_eq in Hl. injection Hl as ->. by left.
    + rewrite lookup_insert_ne in Hl by done. right. eauto.
  - intros [(-> & Hs) | (element_id & Hl & Hs)].
    + exists x. by rewrite lookup_insert_eq.
    + exists element_id. rewrite lookup_insert_ne; [done | congruence].
Qed.

(** One round of the first loop, on an element the walk has not met. *)
Lemma counted_step (m : gmap guid_t pystr) (i : guid_t) (x : pystr)
    (c : gmap pystr (list guid_t)) (e : list guid_t) :
  m !! i = None → counted (c, e) m →
  ∃ acc, count_id i x (c, e) = Some acc ∧ counted acc (<[i:=x]> m).
Proof.
  intros Hi (He & Hc & Hw). simpl in He, Hc, Hw.
  rewrite count_id_eq. eexists. split; [done |]. destruct (is_absent x) eqn:Hx.
  + apply is_absent_true in Hx. split_and!; simpl.
    * intros g. rewrite elem_of_app, list_elem_of_singleton, He, absent_insert by done.
      naive_solver.
    * intros s g. rewrite Hc, holds_insert by done. naive_solver.
    * done.
  + assert (strip x ≠ []) as Hne.
    { intros H%is_absent_true. congruence. }
    split_and!; simpl.
    * intros g. rewrite He, absent_insert by done. naive_solver.
    * intros s g. rewrite holds_insert by done. rewrite <- Hc.
      destruct (decide (s = strip x)) as [-> | Hs].
      -- rewrite lookup_insert_eq. split.
         ++ intros (gs & [= <-] & [Hg | ->%list_elem_of_singleton]%elem_of_app);
              [| by left].
            right. destruct (c !! strip x) as [gs|] eqn:Hl; [eauto |].
            by apply elem_of_nil in Hg.
         ++ intros [(-> & _ & _) | (gs & Hl & Hg)].
            ** eexists. split; [done |]. apply elem_of_app. right.
               by apply list_elem_of_singleton.
            ** eexists. split; [done |]. rewrite Hl. simpl.
               apply elem_of_app. by left.
      -- rewrite lookup_insert_ne by done. naive_solver.
    * intros s gs. destruct (decide (s = strip x)) as [-> | Hs].
      -- rewrite lookup_insert_eq. intros [= <-]. split; [| by destruct (default _ _)].
         apply NoDup_app. split_and!.
         ++ destruct (c !! strip x) as [gs|] eqn:Hl; [by apply (Hw _ _ Hl) |].
            constructor.
         ++ intros g Hg ->%list_elem_of_singleton.
            destruct (c !! strip x) as [gs|] eqn:Hl; [| by apply elem_of_nil in Hg].
            assert (holds m i (strip x)) as (? & ? & _) by (apply Hc; eauto).
            congruence.
         ++ apply NoDup_singleton.
      -- rewrite lookup_insert_ne by done. apply Hw.
Qed.

Lemma counted_empty : counted (∅, []) ∅.
Proof.
  split_and!; simpl.
  + intros g. split; [by intros ?%elem_of_nil |].
    by intros (? & ?%lookup_empty_Some & _).
  + intros s g. split; [by intros (? & ?%lookup_empty_Some & _) |].
    by intros (? & ?%lookup_empty_Some & _).
  + by intros s gs ?%lookup_empty_Some.
Qed.

Lemma counted_fold (existing_ids : gmap guid_t pystr) :
  ∃ acc, count_ids existing_ids = Some acc ∧ counted acc existing_ids.
Proof.
  unfold count_ids.
  apply (map_fold_weak_ind (λ r m, ∃ acc, r = Some acc ∧ counted acc m)).
  - exists (∅, []). split; [done | apply counted_empty].
  - intros i x m r Hi ([c e] & -> & Hcounted).
    cbn [mbind option_bind]. by apply counted_step.
Qed.

Lemma assign_all_lookup (element_id : pystr) (gs : list guid_t)
    (d : gmap guid_t pystr) (g : guid_t) :
  foldl (λ d g, <[g := element_id]> d) d gs !! g
  = if decide (g ∈ gs) then Some element_id else d !! g.
Proof.
  revert d. induction gs as [|h gs IH]; intros d; simpl; [done |].
  - rewrite IH. destruct (decide (g ∈ gs)) as [Hg | Hg].
    + by rewrite decide_True by (by right).
    + destruct (decide (h = g)) as [-> | Hh].
      * rewrite lookup_insert_eq. by rewrite decide_True by left.
      * rewrite lookup_insert_ne by done.
        rewrite decide_False; [done |]. by intros [-> | ?]%elem_of_cons.
Qed.

Lemma apart_insert (c : gmap pystr (list guid_t)) i x :
  c !! i = None → apart (<[i:=x]> c) → apart c.
Proof.
  intros Hi Ha s s' gs gs' g Hs Hs' Hg Hg'.
  apply (Ha s s' gs gs' g); [| | done..];
    rewrite lookup_insert_ne; [done | congruence | done | congruence].
Qed.

(** One round of the second loop, on an identifier the walk has not met. *)
Lemma sorted_out_step (c : gmap pystr (list guid_t)) (i : pystr) (x : list guid_t)
    (acc : gmap guid_t pystr * gset pystr) :
  c !! i = None → sorted_out acc c → sorted_out (split_id i x acc) (<[i:=x]> c).
Proof.
  destruct acc as [d u]. intros Hi IH Ha.
  destruct (IH (apart_insert _ _ _ Hi Ha)) as [Hd Hu]. simpl in Hd, Hu.
  unfold split_id. destruct (decide (1 < length x)%nat) as [Hx | Hx]; simpl.
  + split.
    * intros g s. rewrite assign_all_lookup.
      destruct (decide (g ∈ x)) as [Hg | Hg].
      -- split.
         ++ intros [= <-]. exists x. by rewrite lookup_insert_eq.
         ++ intros (gs & Hl & _ & Hgs). f_equal.
            apply (Ha i s x gs g); [by rewrite lookup_insert_eq | done..].
      -- rewrite Hd. split.
         ++ intros (gs & Hl & ?). exists gs.
            rewrite lookup_insert_ne; [done | congruence].
         ++ intros (gs & Hl & Hlen & Hgs).
            destruct (decide (i = s)) as [-> | His].
            ** rewrite lookup_insert_eq in Hl. by injection Hl as <-.
            ** rewrite lookup_insert_ne in Hl by done. eauto.
    * intros s. rewrite Hu. split.
      -- intros (gs & Hl & ?). exists gs.
         rewrite lookup_insert_ne; [done | congruence].
      -- intros (gs & Hl & Hlen).
         destruct (decide (i = s)) as [-> | His].
         ++ rewrite lookup_insert_eq in Hl. injection Hl as <-. lia.
         ++ rewrite lookup_insert_ne in Hl by done. eauto.
  + split.
    * intros g s. rewrite Hd. split.
      -- intros (gs & Hl & ?). exists gs.
         rewrite lookup_insert_ne; [done | congruence].
      -- intros (gs & Hl & Hlen & Hgs).
         destruct (decide (i = s)) as [-> | His].
         ++ rewrite lookup_insert_eq in Hl. injection Hl as <-. lia.
         ++ rewrite lookup_insert_ne in Hl by done. eauto.
    * intros s. rewrite elem_of_union, elem_of_singleton, Hu. split.
      -- intros [-> | (gs & Hl & ?)].
         ++ exists x. rewrite lookup_insert_eq. split; [done | lia].
         ++ exists gs. rewrite lookup_insert_ne; [done | congruence].
      -- intros (gs & Hl & Hlen).
         destruct (decide (i = s)) as [-> | His]; [by left |].
         rewrite lookup_insert_ne in Hl by done. eauto.
Qed.

Lemma sorted_out_empty : sorted_out (∅, ∅) ∅.
Proof.
  intros _. simpl. split.
  + intros g s. rewrite lookup_empty. split; [done |].
    by intros (? & ?%lookup_empty_Some & _).
  + intros s. split; [by intros ?%not_elem_of_empty |].
    by intros (? & ?%lookup_empty_Some & _).
Qed.

Lemma sorted_out_fold (id_counts : gmap pystr (list guid_t)) :
  sorted_out (map_fold split_id (∅, ∅) id_counts) id_counts.
Proof.
  apply (map_fold_weak_ind sorted_out).
  - apply sorted_out_empty.
  - intros i x c acc Hi IH. by apply sorted_out_step.
Qed.

Lemma two_members {A} (l : list A) (a b : A) :
  a ∈ l → b ∈ l → a ≠ b → (1 < length l)%nat.
Proof.
  destruct l as [|x [|y l]]; simpl; [by intros ?%elem_of_nil | | lia].
  intros ->%list_elem_of_singleton ->%list_elem_of_singleton. done.
Qed.

Lemma another_member {A} (l : list A) (a : A) :
  NoDup l → (1 < length l)%nat → a ∈ l → ∃ b, b ∈ l ∧ b ≠ a.
Proof.
  destruct l as [|x [|y l]]; simpl; [lia.. |].
  intros [Hx _]%NoDup_cons _ [-> | Ha]%elem_of_cons.
  - exists y. split; [right; left |]. intros ->. apply Hx. left.
  - exists x. split; [left |]. by intros ->.
Qed.

Lemma holds_fun (m : gmap guid_t pystr) g s s' : holds m g s → holds m g s' → s = s'.
Proof. intros (x & Hx & _ & <-) (y & Hy & _ & <-). congruence. Qed.

(** What the two loops leave, in terms of the classes of the elements. *)
Lemma classes_of_counted (m : gmap guid_t pystr) (c : gmap pystr (list guid_t))
    (e : list guid_t) (d : gmap guid_t pystr) (u : gset pystr) :
  counted (c, e) m → sorted_out (d, u) c →
  (∀ s, s ∈ u ↔ ∃ g, sole m g s)
  ∧ (∀ g s, d !! g = Some s ↔ shared m g s)
  ∧ (∀ g, g ∈ (list_to_set (e ++ (map_to_list d).*1) : gset guid_t)
          ↔ absent m g ∨ ∃ s, shared m g s).
Proof.
  intros (He & Hc & Hw) Hsorted. simpl in He, Hc, Hw.
  assert (apart c) as Hapart.
  { intros s s' gs gs' g Hs Hs' Hg Hg'.
    apply (holds_fun m g); apply Hc; eauto. }
  destruct (Hsorted Hapart) as [Hd Hu]. simpl in Hd, Hu.
  assert (∀ g s, d !! g = Some s ↔ shared m g s) as Hdup.
  { intros g s. rewrite Hd. split.
    - intros (gs & Hl & Hlen & Hg). destruct (Hw _ _ Hl) as [Hnd _].
      destruct (another_member gs g Hnd Hlen Hg) as (g' & Hg' & Hne).
      split; [apply Hc; eauto |]. exists g'. split; [done |]. apply Hc; eauto.
    - intros [(gs & Hl & Hg)%Hc (g' & Hne & (gs' & Hl' & Hg')%Hc)].
      rewrite Hl in Hl'. injection Hl' as <-.
      exists gs. split_and!; [done | | done]. by apply (two_members gs g' g). }
  split_and!; [| done |].
  - intros s. rewrite Hu. split.
    + intros (gs & Hl & Hlen). destruct (Hw _ _ Hl) as [_ Hne].
      destruct gs as [|g [|? ?]]; [done | | simpl in Hlen; lia].
      exists g. split.
      * apply Hc. exists [g]. split; [done | left].
      * intros g' (gs' & Hl' & Hg')%Hc.
        rewrite Hl in Hl'. injection Hl' as <-.
        by apply list_elem_of_singleton in Hg'.
    + intros (g & (gs & Hl & Hg)%Hc & Hsole). exists gs. split; [done |].
      destruct (decide (1 < length gs)%nat) as [Hlen |]; [| lia].
      destruct (Hw _ _ Hl) as [Hnd _].
      destruct (another_member gs g Hnd Hlen Hg) as (g' & Hg' & Hne).
      exfalso. apply Hne, Hsole, Hc. eauto.
  - intros g. rewrite elem_of_list_to_set, elem_of_app, He.
    apply or_iff_compat_l. split.
    + intros ([g' s] & -> & Hs%elem_of_map_to_list)%list_elem_of_fmap.
      exists s. by apply Hdup.
    + intros (s & Hs%Hdup). apply list_elem_of_fmap.
      exists (g, s). split; [done |]. by apply elem_of_map_to_list.
Qed.

Section analysis.
Variable existing_ids : gmap guid_t pystr.

(** The method returns, and its sets are the classes of the elements. *)
Lemma analysis_spec :
  ∃ a, analyze_existing_ids existing_ids = Some a
    ∧ (∀ s, s ∈ existing_unique_ids a ↔ ∃ g, sole existing_ids g s)
    ∧ (∀ g s, duplicate_elements a !! g = Some s ↔ shared existing_ids g s)
    ∧ (∀ g, g ∈ elements_needing_new_ids a
            ↔ absent existing_ids g ∨ ∃ s, shared existing_ids g s).
Proof.
  unfold analyze_existing_ids.
  destruct (counted_fold existing_ids) as ([c e] & -> & Hcounted).
  pose proof (sorted_out_fold c) as Hsorted.
  destruct (map_fold split_id (∅, ∅) c) as [d u].
  eexists. split; [done |]. simpl.
  by apply (classes_of_counted existing_ids c e d u).
Qed.

End analysis.

End AnalysisFacts.

(** ** Facts about the generation loops *)

Module GenerateFacts.

Import PyStrFacts.

Lemma next_free_enough (prefix : pystr) (R Q : gset pystr) (fuel : nat) (c : N) :
  (∀ k, c ≤ k → format_id prefix k ∈ R → format_id prefix k ∈ Q) →
  (size Q < fuel)%nat →
  ∃ c', next_free fuel prefix R c = Some c' ∧ c ≤ c'
        ∧ (format_id prefix c' ∉ R)
        ∧ ∀ k, c ≤ k < c' → format_id prefix k ∈ R.
Proof.
  revert Q c. induction fuel as [|fuel IH]; intros Q c HS Hsize; [lia |].
  simpl. destruct (decide (format_id prefix c ∈ R)) as [Hin | Hout].
  - destruct (IH (Q ∖ {[format_id prefix c]}) (c + 1)) as (c' & Hc' & Hle & Hfree & Hbelow).
    + intros k Hk HkR. apply elem_of_difference. split; [apply HS; [lia | done] |].
      intros ->%elem_of_singleton%format_id_inj. lia.
    + assert (size (Q ∖ {[format_id prefix c]}) < size Q)%nat; [| lia].
      apply subset_size. apply HS in Hin; [| lia]. set_solver.
    + exists c'. split_and!; [done | lia | done |].
      intros k Hk. destruct (decide (k = c)) as [-> | Hne]; [done |].
      apply Hbelow. lia.
  - exists c. split_and!; [done | lia | done |]. intros k Hk. lia.
Qed.

Lemma next_free_total (prefix : pystr) (R : gset pystr) (c : N) :
  ∃ c', next_free (loop_fuel R) prefix R c = Some c' ∧ c ≤ c'
        ∧ (format_id prefix c' ∉ R)
        ∧ ∀ k, c ≤ k < c' → format_id prefix k ∈ R.
Proof. apply (next_free_enough prefix R R); [done | unfold loop_fuel; lia]. Qed.

(** The loop over one type's elements does what [steps] says. *)
Lemma assign_elements_steps (prefix : pystr) es counter st :
  ∃ counter' st',
    assign_elements prefix es counter st = Some (counter', st')
    ∧ steps prefix counter (all_reserved_ids st) (new_id_mapping st) es
        (all_reserved_ids st') (new_id_mapping st').
Proof.
  revert counter st.
  induction es as [|e es IH]; intros counter st; cbn [assign_elements].
  - exists counter, st. split; [done | constructor].
  - destruct (next_free_total prefix (all_reserved_ids st) counter)
      as (C & -> & Hle & Hfree & Hbelow).
    edestruct IH as (counter' & st' & -> & Hsteps).
    exists counter', st'. split; [done |].
    by apply (steps_cons _ _ _ _ _ _ C).
Qed.

(** A step that starts below the first free counter is a step from there. *)
Lemma steps_from_lower (prefix : pystr) c c0 R m es R' m' :
  c ≤ c0 → (∀ k, c ≤ k < c0 → format_id prefix k ∈ R) →
  steps prefix c0 R m es R' m' → steps prefix c R m es R' m'.
Proof.
  intros Hle Hbelow Hs. destruct Hs as [|c0 R m e es C R' m' HC Hfree HbC Hrest];
    [constructor |].
  apply (steps_cons _ _ _ _ _ _ C); [lia | done | | done].
  intros k Hk. destruct (decide (k < c0)); [apply Hbelow | apply HbC]; lia.
Qed.

Lemma assign_type_steps self T es st :
  ∃ st',
    assign_type self T es st = Some st'
    ∧ steps (prefix_for self T) 1 (all_reserved_ids st) (new_id_mapping st) es
        (all_reserved_ids st') (new_id_mapping st').
Proof.
  unfold assign_type.
  destruct (next_free_total (prefix_for self T) (all_reserved_ids st) 1)
    as (c0 & -> & Hle & _ & Hbelow).
  destruct (assign_elements_steps (prefix_for self T) es c0 st)
    as (counter' & st' & -> & Hsteps).
  exists st'. split; [done |]. by apply (steps_from_lower _ 1 c0).
Qed.

(** *** The grouping by type *)

Lemma filter_none {A} (P : A → Prop) `{∀ x, Decision (P x)} (l : list A) :
  (∀ x, x ∈ l → ¬ P x) → filter P l = [].
Proof.
  induction l as [|a l IH]; intros Hl; [done |].
  rewrite filter_cons_False by (apply Hl; left).
  apply IH. intros x Hx. apply Hl. by right.
Qed.

Lemma dict_append_keys k x d :
  (dict_append k x d).*1 = if decide (k ∈ d.*1) then d.*1 else d.*1 ++ [k].
Proof.
  induction d as [|[k' xs] d IH]; cbn [dict_append]; [done |].
  destruct (decide (k = k')) as [-> | Hk]; rewrite !fmap_cons; cbn [fst].
  - by rewrite decide_True by left.
  - rewrite IH. destruct (decide (k ∈ d.*1)) as [Hin | Hout].
    + by rewrite decide_True by (by right).
    + rewrite decide_False; [done |]. by intros [-> | ?]%elem_of_cons.
Qed.

Lemma dict_append_elem k x d T es :
  NoDup d.*1 →
  (T, es) ∈ dict_append k x d →
  (T ≠ k ∧ (T, es) ∈ d)
  ∨ (T = k ∧ ((∃ es0, (k, es0) ∈ d ∧ es = es0 ++ [x]) ∨ ((k ∉ d.*1) ∧ es = [x]))).
Proof.
  induction d as [|[k' xs] d IH]; simpl.
  - intros _ [= -> ->]%list_elem_of_singleton. right. split; [done |]. right.
    split; [apply not_elem_of_nil | done].
  - intros [Hk' Hnd]%NoDup_cons. destruct (decide (k = k')) as [<- | Hk].
    + intros [[= -> ->] | Hin]%elem_of_cons.
      * right. split; [done |]. left. exists xs. split; [left | done].
      * left. split; [| by right]. intros ->. apply Hk'.
        apply list_elem_of_fmap. by exists (k, es).
    + intros [[= -> ->] | Hin]%elem_of_cons.
      * left. split; [congruence | left].
      * destruct (IH Hnd Hin) as [[? ?] | [-> [(es0 & ? & ->) | [Hout ->]]]].
        -- left. split; [done | by right].
        -- right. split; [done |]. left. exists es0. split; [by right | done].
        -- right. split; [done |]. right. split; [| done].
           by intros [-> | ?]%elem_of_cons.
Qed.

Lemma grouped_append d l x :
  grouped d l → grouped (dict_append (etype x) x d) (l ++ [x]).
Proof.
  intros (Hnd & Hes & Hall). split_and!.
  - rewrite dict_append_keys. case_decide; [done |].
    apply NoDup_app. split_and!; [done | | apply NoDup_singleton].
    by intros k Hk ->%list_elem_of_singleton.
  - intros T es Hin. rewrite filter_app.
    destruct (dict_append_elem _ _ _ _ _ Hnd Hin)
      as [[HT Hd] | [-> [(es0 & Hd & ->) | [Hout ->]]]].
    + destruct (Hes _ _ Hd) as [-> Hne]. split; [| done].
      rewrite (filter_cons_False _ x) by (simpl; congruence).
      by rewrite filter_nil, app_nil_r.
    + destruct (Hes _ _ Hd) as [-> Hne].
      rewrite (filter_cons_True _ x) by done. rewrite filter_nil.
      split; [done |]. by destruct (filter _ l).
    + rewrite (filter_cons_True _ x) by done. rewrite filter_nil.
      split; [| done].
      replace (filter (λ e, etype e = etype x) l) with (@nil elem_data); [done |].
      symmetry. apply filter_none.
      intros e He Heq. apply Hout. rewrite <- Heq. by apply Hall.
  - intros e [He | ->%list_elem_of_singleton]%elem_of_app;
      rewrite dict_append_keys; case_decide.
    + by apply Hall.
    + apply elem_of_app. left. by apply Hall.
    + done.
    + apply elem_of_app. right. by apply list_elem_of_singleton.
Qed.

Lemma group_by_type_grouped l : grouped (group_by_type l) l.
Proof.
  unfold group_by_type. induction l as [|x l IH] using rev_ind.
  - split_and!; simpl; [constructor | by intros ? ? ?%elem_of_nil |
                        by intros ? ?%elem_of_nil].
  - rewrite foldl_app. simpl. by apply grouped_append.
Qed.

Lemma group_by_type_keys l T :
  T ∈ (group_by_type l).*1 ↔ ∃ e, e ∈ l ∧ etype e = T.
Proof.
  destruct (group_by_type_grouped l) as (_ & Hes & Hall). split.
  - intros ([T' es] & -> & Hin)%list_elem_of_fmap. simpl.
    destruct (Hes _ _ Hin) as [-> Hne].
    destruct (filter _ l) as [|e es'] eqn:Hf; [done |].
    assert (e ∈ filter (λ e, etype e = T') l) as [? ?]%list_elem_of_filter
      by (rewrite Hf; left).
    by exists e.
  - intros (e & He & <-). by apply Hall.
Qed.

(** *** The loop over the types *)

Lemma assign_types_runs self problem d st :
  (∀ T es, (T, es) ∈ d → es = filter (λ e, etype e = T) problem) →
  ∃ st',
    assign_types self d st = Some st'
    ∧ runs self problem d.*1 (all_reserved_ids st) (new_id_mapping st)
        (all_reserved_ids st') (new_id_mapping st').
Proof.
  revert st. induction d as [|[T es] d IH]; intros st Hd; cbn [assign_types].
  - exists st. split; [done | constructor].
  - destruct (assign_type_steps self T es st) as (st1 & -> & Hsteps).
    destruct (IH st1) as (st' & -> & Hruns).
    { intros T' es' Hin. apply Hd. by right. }
    exists st'. split; [done |].
    rewrite (Hd T es) in Hsteps by left.
    rewrite fmap_cons. by eapply runs_cons.
Qed.

Lemma generate_runs self elements analysis :
  let problem := problem_elements_of elements analysis in
  ∃ R' m,
    generate_new_ids_for_problem_elements self elements analysis = Some m
    ∧ runs self problem (group_by_type problem).*1
        (existing_unique_ids analysis) ∅ R' m.
Proof.
  intros problem. unfold generate_new_ids_for_problem_elements.
  destruct (decide (elements_needing_new_ids analysis = ∅)) as [Hnone | Hsome].
  - exists (existing_unique_ids analysis), ∅. split; [done |].
    assert (problem = []) as ->.
    { subst problem. unfold problem_elements_of. rewrite Hnone.
      apply filter_none. intros e _. apply not_elem_of_empty. }
    constructor.
  - fold problem.
    destruct (assign_types_runs self problem (group_by_type problem)
                (GenState (existing_unique_ids analysis) ∅))
      as (st' & -> & Hruns).
    { intros T es Hin. by apply (group_by_type_grouped problem). }
    by exists (all_reserved_ids st'), (new_id_mapping st').
Qed.

(** *** What a run keeps true *)

Lemma sound_assign (U R : gset pystr) (m : gmap guid_t pystr) (g : guid_t) (v : pystr) :
  v ∉ R → sound U R m → sound U ({[v]} ∪ R) (<[g:=v]> m).
Proof.
  intros Hv (HU & Hm & Hinj). split_and!.
  - set_solver.
  - intros g0 v0. destruct (decide (g = g0)) as [<- | Hg].
    + rewrite lookup_insert_eq. intros [= <-]. set_solver.
    + rewrite lookup_insert_ne by done. intros [? ?]%Hm. set_solver.
  - intros g1 g2 v0.
    destruct (decide (g = g1)) as [<- | Hg1], (decide (g = g2)) as [<- | Hg2];
      rewrite ?lookup_insert_eq, ?lookup_insert_ne by done; [done | | | apply Hinj].
    + intros [= <-] [? _]%Hm. done.
    + intros [? _]%Hm [= <-]. done.
Qed.

Lemma steps_sound U (prefix : pystr) c R m es R' m' :
  steps prefix c R m es R' m' → sound U R m → sound U R' m'.
Proof.
  induction 1 as [|c R m e es C R' m' _ Hfree _ _ IH]; [done |].
  intros Hs. by apply IH, sound_assign.
Qed.

Lemma steps_lookup (prefix : pystr) c R m es R' m' g v :
  steps prefix c R m es R' m' → m' !! g = Some v →
  m !! g = Some v
  ∨ ∃ e C, e ∈ es ∧ guid e = g ∧ c ≤ C ∧ v = format_id prefix C.
Proof.
  induction 1 as [|c R m e es C R' m' Hle _ _ _ IH]; [by left |].
  intros [Hl | (e' & C' & He' & Hg & HC & Hv)]%IH.
  - destruct (decide (guid e = g)) as [Hg | Hg].
    + rewrite <- Hg, lookup_insert_eq in Hl. injection Hl as <-.
      right. exists e, C. split_and!; [left | done..].
    + rewrite lookup_insert_ne in Hl by done. by left.
  - right. exists e', C'. split_and!; [by right | done | lia | done].
Qed.

Lemma steps_keeps (prefix : pystr) c R m es R' m' g :
  steps prefix c R m es R' m' → is_Some (m !! g) → is_Some (m' !! g).
Proof.
  induction 1 as [|c R m e es C R' m' _ _ _ _ IH]; [done |].
  intros Hg. apply IH, lookup_insert_is_Some'. by right.
Qed.

Lemma steps_assigns (prefix : pystr) c R m es R' m' e :
  steps prefix c R m es R' m' → e ∈ es → is_Some (m' !! guid e).
Proof.
  induction 1 as [|c R m e0 es C R' m' _ _ _ Hrest IH]; [by intros ?%elem_of_nil |].
  intros [-> | He]%elem_of_cons; [| by apply IH].
  apply (steps_keeps _ _ _ _ _ _ _ _ Hrest). by rewrite lookup_insert_eq.
Qed.

Lemma runs_sound U self problem Ts R m R' m' :
  runs self problem Ts R m R' m' → sound U R m → sound U R' m'.
Proof.
  induction 1 as [|T Ts R m R1 m1 R' m' Hsteps _ IH]; [done |].
  intros Hs. by apply IH, (steps_sound _ _ _ _ _ _ _ _ Hsteps).
Qed.

Lemma runs_lookup self problem Ts R m R' m' g v :
  runs self problem Ts R m R' m' → m' !! g = Some v →
  m !! g = Some v
  ∨ ∃ e C, e ∈ problem ∧ guid e = g ∧ 1 ≤ C
           ∧ v = format_id (prefix_for self (etype e)) C.
Proof.
  induction 1 as [|T Ts R m R1 m1 R' m' Hsteps _ IH]; [by left |].
  intros [Hl | ?]%IH; [| by right].
  destruct (steps_lookup _ _ _ _ _ _ _ _ _ Hsteps Hl)
    as [? | (e & C & [HT He]%list_elem_of_filter & Hg & HC & Hv)]; [by left |].
  right. exists e, C. by rewrite HT.
Qed.

Lemma runs_keeps self problem Ts R m R' m' g :
  runs self problem Ts R m R' m' → is_Some (m !! g) → is_Some (m' !! g).
Proof.
  induction 1 as [|T Ts R m R1 m1 R' m' Hsteps _ IH]; [done |].
  intros Hg. by apply IH, (steps_keeps _ _ _ _ _ _ _ _ Hsteps).
Qed.

Lemma runs_assigns self problem Ts R m R' m' e :
  runs self problem Ts R m R' m' → e ∈ problem → etype e ∈ Ts →
  is_Some (m' !! guid e).
Proof.
  induction 1 as [|T Ts R m R1 m1 R' m' Hsteps Hruns IH];
    [by intros _ ?%elem_of_nil |].
  intros He HT. destruct (decide (etype e = T)) as [HeT | HeT].
  - apply (runs_keeps _ _ _ _ _ _ _ _ Hruns), (steps_assigns _ _ _ _ _ _ _ _ Hsteps).
    by apply list_elem_of_filter.
  - apply IH; [done |]. apply elem_of_cons in HT as [? | ?]; done.
Qed.

(** *** The method as a whole *)

Lemma generate_spec self elements analysis :
  ∃ R' m,
    generate_new_ids_for_problem_elements self elements analysis = Some m
    ∧ sound (existing_unique_ids analysis) R' m
    ∧ (∀ g, is_Some (m !! g)
            ↔ g ∈ guid <$> elements ∧ g ∈ elements_needing_new_ids analysis)
    ∧ (∀ g v, m !! g = Some v →
         ∃ e C, e ∈ elements ∧ guid e = g ∧ 1 ≤ C
                ∧ v = format_id (prefix_for self (etype e)) C).
Proof.
  destruct (generate_runs self elements analysis) as (R' & m & Hgen & Hruns).
  exists R', m. split_and!; [done | | |].
  - apply (runs_sound _ _ _ _ _ _ _ _ Hruns). split_and!; [done | |];
      intros *; by rewrite lookup_empty.
  - intros g. split.
    + intros [v Hv].
      destruct (runs_lookup _ _ _ _ _ _ _ _ _ Hruns Hv)
        as [? | (e & C & [Hneedy He]%list_elem_of_filter & <- & _)];
        [by rewrite lookup_empty in * |].
      split; [by apply list_elem_of_fmap_2 | done].
    + intros [(e & -> & He)%list_elem_of_fmap Hneedy].
      apply (runs_assigns _ _ _ _ _ _ _ _ Hruns).
      * by apply list_elem_of_filter.
      * apply group_by_type_keys. exists e. split; [| done].
        by apply list_elem_of_filter.
  - intros g v Hv.
    destruct (runs_lookup _ _ _ _ _ _ _ _ _ Hruns Hv)
      as [? | (e & C & [_ He]%list_elem_of_filter & ? & ? & ?)];
      [by rewrite lookup_empty in * | by exists e, C].
Qed.

End GenerateFacts.

(** ** Facts about the identifiers the host ends up with *)

Module FinalFacts.

Import PyStrFacts AnalysisFacts GenerateFacts.

Lemma uint_codes_no_space u : Forall (λ c, is_space c = false) (uint_codes u).
Proof. induction u; by constructor. Qed.

Lemma format_03d_last counter :
  ∃ z, last (format_03d counter) = Some z ∧ is_space z = false.
Proof.
  destruct (last (format_03d counter)) as [z|] eqn:Hl.
  - exists z. split; [done |]. apply last_Some in Hl as [l Hl].
    assert (Forall (λ c, is_space c = false) (format_03d counter)) as Hall
      by apply uint_codes_no_space.
    rewrite Hl in Hall. apply Forall_app in Hall as [_ Hz].
    by apply (Forall_singleton (λ c, is_space c = false)) in Hz.
  - apply last_None in Hl. pose proof (format_03d_length counter) as Hlen.
    rewrite Hl in Hlen. simpl in Hlen. lia.
Qed.

(** A generated identifier has no whitespace to trim. *)
Lemma format_id_strip prefix counter :
  (∀ c, head prefix = Some c → is_space c = false) →
  strip (format_id prefix counter) = format_id prefix counter.
Proof.
  intros Hp. destruct (format_03d_last counter) as (z & Hz & Hsz).
  apply (strip_fixed _ (default 45 (head prefix)) z); [| | | done].
  - unfold format_id. rewrite head_app. by destruct (head prefix).
  - destruct (head prefix) as [c|] eqn:Hc; [by apply Hp | done].
  - unfold format_id. by rewrite !last_app, Hz.
Qed.

Lemma prefix_for_clean self T c :
  clean_prefixes self → head (prefix_for self T) = Some c → is_space c = false.
Proof.
  intros Hclean. unfold prefix_for.
  destruct (element_prefixes self !! T) as [p|] eqn:Hp; simpl.
  - by apply (Hclean T).
  - by intros [= <-].
Qed.

Lemma init_clean : clean_prefixes init.
Proof.
  intros T p c HT Hc.
  assert (forallb (λ p, match head p with
                        | Some c => negb (is_space c)
                        | None => true
                        end)
            (map_to_list (element_prefixes init)).*2 = true) as Hall
    by (vm_compute; reflexivity).
  rewrite forallb_forall in Hall. specialize (Hall p). rewrite Hc in Hall.
  apply negb_true_iff, Hall. apply (proj1 (list_elem_of_In _ _)).
  apply (list_elem_of_fmap_2' snd _ (T, p)); [| done].
  by apply elem_of_map_to_list.
Qed.

(** The dictionary read from the host has an entry for every listed
    element, and for no other. *)
Lemma existing_ids_of_Some (snapshot : list (elem_data * pystr)) g :
  is_Some (existing_ids_of snapshot !! g) ↔ g ∈ guid <$> snapshot.*1.
Proof.
  unfold existing_ids_of. induction snapshot as [|[e x] l IH] using rev_ind.
  - simpl. rewrite lookup_empty. split; [by intros [? ?] | by intros ?%elem_of_nil].
  - rewrite foldl_app, !fmap_app. simpl.
    rewrite lookup_insert_is_Some', IH, elem_of_app, list_elem_of_singleton.
    naive_solver.
Qed.

Lemma snapshot_covers (snapshot : list (elem_data * pystr)) :
  covers snapshot.*1 (existing_ids_of snapshot).
Proof. intros g. apply existing_ids_of_Some. Qed.

Section final.
Variables (self : SmartUniqueIDAssigner) (elements : list elem_data).
Variables (existing_ids : gmap guid_t pystr) (a : analysis_t).
Variable m : gmap guid_t pystr.
Hypothesis Ha : analyze_existing_ids existing_ids = Some a.
Hypothesis Hm : generate_new_ids_for_problem_elements self elements a = Some m.

Lemma unique_iff s : s ∈ existing_unique_ids a ↔ ∃ g, sole existing_ids g s.
Proof.
  destruct (analysis_spec existing_ids) as (a' & Ha' & Hu & _).
  rewrite Ha in Ha'. injection Ha' as <-. apply Hu.
Qed.

Lemma needing_iff g :
  g ∈ elements_needing_new_ids a
  ↔ absent existing_ids g ∨ ∃ s, shared existing_ids g s.
Proof.
  destruct (analysis_spec existing_ids) as (a' & Ha' & _ & _ & Hn).
  rewrite Ha in Ha'. injection Ha' as <-. apply Hn.
Qed.

Lemma mapping_spec :
  (∀ g v, m !! g = Some v → v ∉ existing_unique_ids a)
  ∧ (∀ g1 g2 v, m !! g1 = Some v → m !! g2 = Some v → g1 = g2)
  ∧ (∀ g, is_Some (m !! g)
          ↔ g ∈ guid <$> elements ∧ g ∈ elements_needing_new_ids a)
  ∧ (∀ g v, m !! g = Some v →
       ∃ e C, e ∈ elements ∧ guid e = g ∧ 1 ≤ C
              ∧ v = format_id (prefix_for self (etype e)) C).
Proof.
  destruct (generate_spec self elements a)
    as (R' & m' & Hm' & (_ & Hv & Hinj) & Hdom & Hform).
  rewrite Hm in Hm'. injection Hm' as <-.
  split_and!; [| done..]. intros g v Hg. by apply (Hv g v).
Qed.

(** An element the mapping leaves out, although it is listed, is the only
    holder of its identifier. *)
Lemma kept_is_sole g x :
  g ∈ guid <$> elements → m !! g = None → existing_ids !! g = Some x →
  sole existing_ids g (strip x).
Proof.
  intros Hg Hnone Hx. destruct mapping_spec as (_ & _ & Hdom & _).
  assert (g ∉ elements_needing_new_ids a) as Hkeep.
  { intros Hn. destruct (proj2 (Hdom g) (conj Hg Hn)). congruence. }
  rewrite needing_iff in Hkeep.
  assert (strip x ≠ []) as Hne.
  { intros Hs. apply Hkeep. left. by exists x. }
  assert (holds existing_ids g (strip x)) as Hh by (by exists x).
  split; [done |]. intros g' Hg'.
  destruct (decide (g' = g)) as [| Hne']; [done |].
  exfalso. apply Hkeep. right. exists (strip x). split; [done |]. by exists g'.
Qed.

Lemma assigned_not_stored g1 g2 v :
  clean_prefixes self → g2 ∈ guid <$> elements →
  m !! g1 = Some v → m !! g2 = None → existing_ids !! g2 ≠ Some v.
Proof.
  intros Hclean Hg2 Hv Hnone Hx.
  destruct mapping_spec as (Hfresh & _ & _ & Hform).
  destruct (Hform _ _ Hv) as (e & C & _ & _ & _ & Hfmt).
  apply (Hfresh _ _ Hv), unique_iff. exists g2.
  replace v with (strip v); [by apply kept_is_sole |].
  rewrite Hfmt. apply format_id_strip. intros c. by apply prefix_for_clean.
Qed.

(** No two elements end up with the same stored identifier. *)
Lemma final_id_inj g1 g2 v :
  clean_prefixes self → covers elements existing_ids →
  final_id existing_ids m g1 = Some v → final_id existing_ids m g2 = Some v →
  g1 = g2.
Proof.
  intros Hclean Hcov. unfold final_id.
  destruct mapping_spec as (_ & Hinj & _ & _).
  destruct (m !! g1) as [v1|] eqn:H1, (m !! g2) as [v2|] eqn:H2.
  - intros [= ->] [= ->]. by apply (Hinj g1 g2 v).
  - intros [= ->] Hx. exfalso.
    by apply (assigned_not_stored g1 g2 v); [| apply Hcov | ..].
  - intros Hx [= ->]. exfalso.
    by apply (assigned_not_stored g2 g1 v); [| apply Hcov | ..].
  - intros Hx1 Hx2.
    destruct (kept_is_sole g1 v) as [_ Hsole]; [by apply Hcov | done..|].
    symmetry. apply Hsole.
    by destruct (kept_is_sole g2 v) as [? _]; [by apply Hcov | done..|].
Qed.

End final.

End FinalFacts.

(** ** Facts about the export table *)

Module ExtractorFacts.

Import Extractor.

Lemma str_ltb_irrefl s : str_ltb s s = false.
Proof.
  induction s as [|a s IH]; simpl; [done |].
  by rewrite N.ltb_irrefl, N.eqb_refl, IH.
Qed.

Lemma str_ltb_tricho s t : str_ltb s t = true ∨ s = t ∨ str_ltb t s = true.
Proof.
  revert t. induction s as [|a s IH]; intros [|b t]; simpl; auto.
  destruct (N.lt_trichotomy a b) as [Hab | [-> | Hba]].
  - left. apply N.ltb_lt in Hab. by rewrite Hab.
  - rewrite N.ltb_irrefl, N.eqb_refl. simpl.
    destruct (IH t) as [? | [-> | ?]]; auto.
  - right. right. apply N.ltb_lt in Hba. by rewrite Hba.
Qed.

Lemma str_ltb_trans s t u :
  str_ltb s t = true → str_ltb t u = true → str_ltb s u = true.
Proof.
  revert t u. induction s as [|a s IH]; intros [|b t] [|c u]; simpl; try done.
  rewrite !orb_true_iff, !andb_true_iff, !N.ltb_lt, !N.eqb_eq.
  intros [Hab | [-> Hst]] [Hbc | [-> Htu]]; [left; lia | by left | by left |].
  right. split; [done |]. by apply (IH t).
Qed.

Lemma str_ltb_asym s t : str_ltb s t = true → str_ltb t s = false.
Proof.
  intros Hst. destruct (str_ltb t s) eqn:Hts; [| done].
  by rewrite <- (str_ltb_irrefl s), (str_ltb_trans s t s).
Qed.

Lemma str_le_alt s t : str_le s t ↔ str_ltb s t = true ∨ s = t.
Proof.
  unfold str_le. split.
  - intros Hts. destruct (str_ltb_tricho s t) as [? | [? | ?]]; auto. congruence.
  - intros [Hst | ->]; [by apply str_ltb_asym | apply str_ltb_irrefl].
Qed.

#[local] Instance str_le_trans : Transitive str_le.
Proof.
  intros s t u. rewrite !str_le_alt.
  intros [Hst | ->] [Htu | ->]; auto. left. by apply (str_ltb_trans s t u).
Qed.

#[local] Instance str_le_total : Total str_le.
Proof.
  intros s t. rewrite !str_le_alt.
  destruct (str_ltb_tricho s t) as [? | [? | ?]]; auto.
Qed.

#[local] Instance str_le_antisym : AntiSymm eq str_le.
Proof.
  intros s t [Hst | ->]%str_le_alt Hts; [| done].
  unfold str_le in Hts. congruence.
Qed.

Lemma sorted_spec l :
  sorted l ≡ₚ l ∧ StronglySorted str_le (sorted l)
  ∧ ∀ l', l' ≡ₚ l → StronglySorted str_le l' → l' = sorted l.
Proof.
  unfold sorted. split_and!.
  - apply merge_sort_Permutation.
  - apply (StronglySorted_merge_sort _).
  - intros l' Hperm Hsorted. apply (StronglySorted_unique str_le); [done | |].
    + apply (StronglySorted_merge_sort _).
    + by rewrite merge_sort_Permutation.
Qed.

Lemma add_keys_elem (d : gmap guid_t (gmap pystr pystr)) (acc : gset pystr) col :
  col ∈ add_keys d acc
  ↔ col ∈ acc ∨ ∃ g data, d !! g = Some data ∧ is_Some (data !! col).
Proof.
  unfold add_keys.
  apply (map_fold_weak_ind (λ r m,
           col ∈ r ↔ col ∈ acc ∨ ∃ g data, m !! g = Some data ∧ is_Some (data !! col))).
  - split; [by left |]. intros [? | (g & data & ?%lookup_empty_Some & _)]; done.
  - intros g data m r Hg IH. rewrite elem_of_union, elem_of_dom, IH. split.
    + intros [[? | (g' & data' & Hl & Hc)] | Hc]; [by left | |].
      * right. exists g', data'. split; [| done].
        rewrite lookup_insert_ne; [done | congruence].
      * right. exists g, data. by rewrite lookup_insert_eq.
    + intros [? | (g' & data' & Hl & Hc)]; [by left; left |].
      destruct (decide (g = g')) as [<- | Hne].
      * rewrite lookup_insert_eq in Hl. injection Hl as <-. by right.
      * rewrite lookup_insert_ne in Hl by done. left. right. eauto.
Qed.

Lemma all_columns_elem properties_data classifications_data col :
  col ∈ all_columns_of properties_data classifications_data
  ↔ col ∈ fixed_columns
    ∨ ∃ g data, (properties_data !! g = Some data
                 ∨ classifications_data !! g = Some data)
                ∧ is_Some (data !! col).
Proof.
  unfold all_columns_of. rewrite !add_keys_elem, elem_of_list_to_set.
  naive_solver.
Qed.

Lemma forallb_elem_of {A} (f : A → bool) (l : list A) :
  forallb f l = true ↔ ∀ x, x ∈ l → f x = true.
Proof.
  induction l as [|a l IH]; simpl.
  - split; [by intros _ x ?%elem_of_nil | done].
  - rewrite andb_true_iff, IH. split.
    + intros [Ha Hl] x [-> | ?]%elem_of_cons; auto.
    + intros Hall. split; [apply Hall; left | intros x Hx; apply Hall; by right].
Qed.

(** The update of the stored dictionary does not change what a later row
    of the same GUID shows. *)
Lemma row_data_after_update (C P : gmap guid_t (gmap pystr pystr))
    (g g' : guid_t) :
  row_data_of C
    match P !! g with
    | Some _ => <[g := row_data_of C P g]> P
    | None => P
    end g'
  = row_data_of C P g'.
Proof.
  unfold row_data_of. destruct (P !! g) as [d|] eqn:Hd; [| done].
  destruct (decide (g = g')) as [<- | Hne].
  - rewrite lookup_insert_eq, Hd. simpl.
    by rewrite (assoc_L (∪)), (idemp_L (∪)).
  - by rewrite lookup_insert_ne.
Qed.

Lemma write_rows_cons (cols : list pystr) (C : gmap guid_t (gmap pystr pystr))
    (e : elem_data) (l : list elem_data) (P : gmap guid_t (gmap pystr pystr))
    (written : list (list pystr)) :
  write_rows cols C (e :: l) P written
  = if forallb encodable (complete_row_of cols (row_data_of C P (guid e)))
    then write_rows cols C l
           match P !! guid e with
           | Some _ => <[guid e := row_data_of C P (guid e)]> P
           | None => P
           end
           (written ++ [complete_row_of cols (row_data_of C P (guid e))])
    else (false, written).
Proof. done. Qed.

(** The loop writes the rows of the elements in order, each from the data
    as they were before the loop, up to the first row the file refuses. *)
Lemma write_rows_spec (cols : list pystr) (C : gmap guid_t (gmap pystr pystr))
    (elements : list elem_data) (P : gmap guid_t (gmap pystr pystr))
    (written : list (list pystr)) :
  ∃ n : nat,
    (write_rows cols C elements P written).2
    = written
      ++ take n ((λ e, complete_row_of cols (row_data_of C P (guid e)))
                 <$> elements)
    ∧ (n ≤ length elements)%nat
    ∧ (∀ i e, (i < n)%nat → elements !! i = Some e →
         forallb encodable (complete_row_of cols (row_data_of C P (guid e)))
         = true)
    ∧ if (write_rows cols C elements P written).1
      then n = length elements
      else ∃ e, elements !! n = Some e
                ∧ forallb encodable
                    (complete_row_of cols (row_data_of C P (guid e))) = false.
Proof.
  revert P written. induction elements as [|e l IH]; intros P written.
  - exists 0%nat. simpl. rewrite app_nil_r. split_and!; [done | done | | done].
    intros i e Hi. lia.
  - rewrite write_rows_cons.
    destruct (forallb encodable (complete_row_of cols (row_data_of C P (guid e))))
      eqn:Hrow.
    + destruct (IH match P !! guid e with
                   | Some _ => <[guid e := row_data_of C P (guid e)]> P
                   | None => P
                   end
                  (written ++ [complete_row_of cols (row_data_of C P (guid e))]))
        as (n & Hw & Hn & Hall & Hend).
      exists (S n). rewrite Hw. cbn [fmap list_fmap take length].
      split_and!.
      * rewrite <- app_assoc. cbn [app]. do 3 f_equal.
        apply list_fmap_ext. intros i e' _. by rewrite row_data_after_update.
      * lia.
      * intros [|i] e' Hi He'; [by injection He' as <- |].
        rewrite <- (row_data_after_update C P (guid e)).
        apply (Hall i); [lia | done].
      * destruct (write_rows _ _ _ _ _).1; [by rewrite Hend |].
        destruct Hend as (e' & He' & Hrefused). exists e'. split; [done |].
        by rewrite <- (row_data_after_update C P (guid e)).
    + exists 0%nat. cbn [take snd fst]. rewrite app_nil_r.
      split_and!; [done | simpl; lia | intros i e' Hi; lia |].
      by exists e.
Qed.

(** Cells and columns taken from dictionaries the file accepts are
    accepted. *)
Lemma row_encodable (cols : list pystr) (C P : gmap guid_t (gmap pystr pystr))
    (g : guid_t) :
  writable P → writable C →
  forallb encodable (complete_row_of cols (row_data_of C P g)) = true.
Proof.
  intros HP HC. apply forallb_elem_of. intros cell.
  unfold complete_row_of. intros (col & -> & _)%list_elem_of_fmap.
  destruct (row_data_of C P g !! col) as [v|] eqn:Hv; [| done]. simpl.
  unfold row_data_of in Hv. apply lookup_union_Some_raw in Hv as [Hv | [_ Hv]].
  - revert Hv. destruct (C !! g) as [data|] eqn:Hd; simpl; intros Hv;
      [| by rewrite lookup_empty in Hv].
    by destruct (HC g data Hd col v Hv).
  - revert Hv. destruct (P !! g) as [data|] eqn:Hd; simpl; intros Hv;
      [| by rewrite lookup_empty in Hv].
    by destruct (HP g data Hd col v Hv).
Qed.

Lemma columns_encodable (P C : gmap guid_t (gmap pystr pystr)) :
  writable P → writable C →
  forallb encodable (sorted_columns_of (all_columns_of P C)) = true.
Proof.
  intros HP HC. apply forallb_elem_of. intros col.
  unfold sorted_columns_of. intros [Hfixed | Hcol]%elem_of_app.
  - unfold fixed_columns in Hfixed.
    apply elem_of_cons in Hfixed as [-> | Hfixed]; [done |].
    by apply list_elem_of_singleton in Hfixed as ->.
  - destruct (sorted_spec (filter (λ col, col ∉ fixed_columns)
                             (elements (all_columns_of P C)))) as (Hperm & _).
    rewrite Hperm in Hcol.
    apply list_elem_of_filter in Hcol as [Hnot Hcol].
    apply elem_of_elements, all_columns_elem in Hcol
      as [? | (g & data & [Hd | Hd] & [v Hv])]; [done | |].
    + by destruct (HP g data Hd col v Hv).
    + by destruct (HC g data Hd col v Hv).
Qed.

(** Without elements nothing is written. *)
Lemma export_without_elements (properties_data classifications_data
    : gmap guid_t (gmap pystr pystr)) :
  extract_to_csv [] properties_data classifications_data = None.
Proof. done. Qed.

End ExtractorFacts.

(** ** Facts about a run that meets no reserved identifier *)

Module FreshFacts.

Import PyStrFacts GenerateFacts.

Lemma filter_all {A} (P : A → Prop) `{∀ x, Decision (P x)} (l : list A) :
  (∀ x, x ∈ l → P x) → filter P l = l.
Proof.
  induction l as [|a l IH]; intros Hl; [done |].
  rewrite filter_cons_True by (apply Hl; left).
  f_equal. apply IH. intros x Hx. apply Hl. by right.
Qed.

Lemma steps_fresh (prefix : pystr) c R m es R' m' :
  steps prefix c R m es R' m' →
  (∀ k, c ≤ k → format_id prefix k ∉ R) →
  NoDup (guid <$> es) →
  ∀ i e, es !! i = Some e →
         m' !! guid e = Some (format_id prefix (c + N.of_nat i)).
Proof.
  induction 1 as [|c R m e es C R' m' Hle Hfree Hbelow Hrest IH];
    intros Hnone Hnd i e0 Hi; [by rewrite lookup_nil in Hi |].
  assert (C = c) as ->.
  { destruct (decide (C = c)) as [| Hne]; [done |]. exfalso.
    apply (Hnone c); [lia |]. apply Hbelow. lia. }
  rewrite fmap_cons in Hnd. apply NoDup_cons in Hnd as [Hhead Hnd].
  destruct i as [|i]; simpl in Hi.
  - injection Hi as <-. rewrite N.add_0_r.
    destruct (steps_keeps _ _ _ _ _ _ _ (guid e) Hrest) as [v Hv];
      [by rewrite lookup_insert_eq |].
    destruct (steps_lookup _ _ _ _ _ _ _ _ _ Hrest Hv)
      as [Hl | (e' & C' & He' & Hg & _)].
    + rewrite lookup_insert_eq in Hl. congruence.
    + exfalso. apply Hhead. rewrite <- Hg. by apply list_elem_of_fmap_2.
  - rewrite IH with (i := i) (e := e0); [f_equal; f_equal; lia | | done..].
    intros k Hk [->%elem_of_singleton%format_id_inj | Hin]%elem_of_union; [lia |].
    apply (Hnone k); [lia | done].
Qed.

(** Elements of one type that all need an identifier, in a project where no
    identifier of that type's form is kept, are numbered in input order. *)
Lemma single_type_run self (elements : list elem_data) a T :
  (∀ e, e ∈ elements → etype e = T ∧ guid e ∈ elements_needing_new_ids a) →
  NoDup (guid <$> elements) →
  (∀ k, format_id (prefix_for self T) k ∉ existing_unique_ids a) →
  ∃ m,
    generate_new_ids_for_problem_elements self elements a = Some m
    ∧ ∀ i e, elements !! i = Some e →
             m !! guid e = Some (format_id (prefix_for self T) (N.of_nat i + 1)).
Proof.
  intros Hall Hnd Hfree.
  destruct (generate_runs self elements a) as (R' & m & Hm & Hruns).
  exists m. split; [done |]. simpl in Hruns.
  assert (problem_elements_of elements a = elements) as Hp.
  { apply filter_all. intros e He. by apply Hall. }
  rewrite Hp in Hruns.
  pose proof (group_by_type_grouped elements) as (HndT & _ & _).
  pose proof (group_by_type_keys elements) as Hkeys.
  intros i e Hi.
  assert (e ∈ elements) as He by (by apply list_elem_of_lookup_2 in Hi).
  destruct ((group_by_type elements).*1) as [|T1 [|T2 Ts]] eqn:HTs.
  - exfalso. apply (not_elem_of_nil (etype e)), Hkeys. by exists e.
  - assert (T1 = T) as ->.
    { destruct (proj1 (Hkeys T1)) as (e1 & He1 & <-); [left |]. by apply Hall. }
    inversion Hruns as [|? ? ? ? R1 m1 ? ? Hsteps Hrest]; subst.
    inversion Hrest; subst.
    rewrite (filter_all (λ e, etype e = T)) in Hsteps
      by (intros x Hx; by apply Hall).
    rewrite (steps_fresh _ _ _ _ _ _ _ Hsteps) with (i := i) (e := e);
      [f_equal; f_equal; lia | | done..].
    intros k _. apply Hfree.
  - exfalso. apply NoDup_cons in HndT as [Hne _]. apply Hne.
    destruct (proj1 (Hkeys T1)) as (e1 & He1 & <-); [left |].
    destruct (proj1 (Hkeys T2)) as (e2 & He2 & <-); [right; left |].
    rewrite (proj1 (Hall e1 He1)), (proj1 (Hall e2 He2)). left.
Qed.

(** The mapping depends on [self] through the prefixes only. *)
Lemma generate_ext self1 self2 elements a :
  element_prefixes self1 = element_prefixes self2 →
  generate_new_ids_for_problem_elements self1 elements a
  = generate_new_ids_for_problem_elements self2 elements a.
Proof.
  intros Heq. unfold generate_new_ids_for_problem_elements.
  case_decide; [done |]. f_equal.
  generalize (GenState (existing_unique_ids a) ∅).
  induction (group_by_type (problem_elements_of elements a)) as [|[T es] d IH];
    intros st; cbn [assign_types]; [done |].
  unfold assign_type, prefix_for. rewrite Heq.
  destruct (next_free _ _ _ _); [| done].
  destruct (snd <$> assign_elements _ _ _ _); [apply IH | done].
Qed.

End FreshFacts.

(** ** Facts about the order of the walks of the analysis *)

Module WalkFacts.

Import AnalysisFacts.

Lemma foldl_reverse {A B} (f : B → A → B) (b : B) (l : list A) :
  foldl f b (reverse l) = foldr (λ x acc, f acc x) b l.
Proof.
  induction l as [|x l IH]; [done |].
  rewrite reverse_cons, foldl_app. simpl. by rewrite IH.
Qed.

(** A walk of a dictionary meets every key once. *)
Lemma walk_items {V} (m : gmap pystr V) (items : list (pystr * V)) :
  items ≡ₚ map_to_list m → NoDup items.*1 ∧ list_to_map items = m.
Proof.
  intros Hperm.
  assert (NoDup items.*1) as Hnd.
  { rewrite Hperm. apply NoDup_fst_map_to_list. }
  split; [done |].
  rewrite (list_to_map_proper items (map_to_list m) Hnd Hperm).
  apply list_to_map_to_list.
Qed.

(** The first loop along any walk: it never raises, it builds what
    [counted] says, and it files an element without identifier once. *)
Lemma count_walk_counted (items : list (guid_t * pystr)) :
  NoDup items.*1 →
  ∃ c e, count_walk items = Some (c, e)
         ∧ counted (c, e) (list_to_map items) ∧ NoDup e.
Proof.
  unfold count_walk.
  induction items as [|[i x] items IH] using rev_ind; intros Hnd.
  - exists ∅, []. split_and!; [done | apply counted_empty | constructor].
  - rewrite fmap_app in Hnd. apply NoDup_app in Hnd as (Hnd & Hdis & _).
    destruct (IH Hnd) as (c & e & Hw & Hcounted & Hnde).
    assert (i ∉ items.*1) as Hi.
    { intros Hin. apply (Hdis i Hin). left. }
    assert ((list_to_map items : gmap guid_t pystr) !! i = None) as Hnone
      by (by apply not_elem_of_list_to_map_1).
    rewrite foldl_app, Hw. cbn [foldl mbind option_bind fst snd].
    destruct (counted_step _ i x c e Hnone Hcounted) as ([c' e'] & Hstep & Hc').
    exists c', e'. rewrite list_to_map_snoc by done.
    split_and!; [done | done |].
    rewrite count_id_eq in Hstep. injection Hstep as Hstep.
    destruct (is_absent x); injection Hstep as <- <-; [| done].
    apply NoDup_app. split_and!; [done | | apply NoDup_singleton].
    intros g Hg ->%list_elem_of_singleton.
    destruct Hcounted as (He & _). apply He in Hg as (y & Hy & _). simpl in Hy.
    congruence.
Qed.

(** The second loop along any walk. *)
Lemma split_walk_sorted_out (l : list (pystr * list guid_t)) :
  NoDup l.*1 →
  sorted_out (foldl (λ acc item, split_id item.1 item.2 acc) (∅, ∅) l)
    (list_to_map l).
Proof.
  induction l as [|[i x] l IH] using rev_ind; intros Hnd.
  - apply sorted_out_empty.
  - rewrite fmap_app in Hnd. apply NoDup_app in Hnd as (Hnd & Hdis & _).
    assert (i ∉ l.*1) as Hi.
    { intros Hin. apply (Hdis i Hin). left. }
    rewrite foldl_app, list_to_map_snoc by done. cbn [foldl fst snd].
    apply sorted_out_step; [by apply not_elem_of_list_to_map_1 | by apply IH].
Qed.

(** The analysis along any walk returns, and what it returns is fixed by
    the classes of the elements. *)
Lemma analyze_walk_classes (m : gmap guid_t pystr) (items : list (guid_t * pystr))
    (counts : gmap pystr (list guid_t) → list (pystr * list guid_t)) :
  items ≡ₚ map_to_list m → (∀ c, counts c ≡ₚ map_to_list c) →
  ∃ a e,
    analyze_walk items counts = Some a
    ∧ total_elements a = size m
    ∧ unique_ids a = size (existing_unique_ids a)
    ∧ duplicate_count a = size (duplicate_elements a)
    ∧ empty_ids a = length e ∧ NoDup e ∧ (∀ g, g ∈ e ↔ absent m g)
    ∧ (∀ s, s ∈ existing_unique_ids a ↔ ∃ g, sole m g s)
    ∧ (∀ g s, duplicate_elements a !! g = Some s ↔ shared m g s)
    ∧ (∀ g, g ∈ elements_needing_new_ids a ↔ absent m g ∨ ∃ s, shared m g s).
Proof.
  intros Hitems Hcounts. destruct (walk_items m items Hitems) as [Hnd Hm].
  destruct (count_walk_counted items Hnd) as (c & e & Hw & Hcounted & Hnde).
  rewrite Hm in Hcounted.
  destruct (walk_items c (counts c) (Hcounts c)) as [Hndc Hc].
  pose proof (split_walk_sorted_out (counts c) Hndc) as Hsorted.
  rewrite Hc in Hsorted.
  unfold analyze_walk. rewrite Hw.
  destruct (foldl _ _ (counts c)) as [d u].
  destruct (classes_of_counted m c e d u Hcounted Hsorted) as (Hu & Hd & Hn).
  eexists _, e. split; [done |]. cbn.
  split_and!; [| done | done | done | done | | done | done | done].
  - by rewrite Hitems, length_map_to_list.
  - by destruct Hcounted as (He & _).
Qed.

(** Two walks of the same dictionary give the same analysis. *)
Lemma analyze_walk_unique (m : gmap guid_t pystr)
    (items1 items2 : list (guid_t * pystr))
    (counts1 counts2 : gmap pystr (list guid_t) → list (pystr * list guid_t)) :
  items1 ≡ₚ map_to_list m → items2 ≡ₚ map_to_list m →
  (∀ c, counts1 c ≡ₚ map_to_list c) → (∀ c, counts2 c ≡ₚ map_to_list c) →
  ∃ a, analyze_walk items1 counts1 = Some a ∧ analyze_walk items2 counts2 = Some a.
Proof.
  intros H1 H2 Hc1 Hc2.
  destruct (analyze_walk_classes m items1 counts1 H1 Hc1)
    as (a1 & e1 & Ha1 & Ht1 & Hus1 & Hds1 & He1 & Hnd1 & Hin1 & Hu1 & Hd1 & Hn1).
  destruct (analyze_walk_classes m items2 counts2 H2 Hc2)
    as (a2 & e2 & Ha2 & Ht2 & Hus2 & Hds2 & He2 & Hnd2 & Hin2 & Hu2 & Hd2 & Hn2).
  exists a1. split; [done |]. rewrite Ha2. f_equal.
  assert (existing_unique_ids a2 = existing_unique_ids a1) as Hu.
  { apply set_eq. intros s. by rewrite Hu1, Hu2. }
  assert (duplicate_elements a2 = duplicate_elements a1) as Hd.
  { apply map_eq. intros g. apply option_eq. intros s. by rewrite Hd1, Hd2. }
  assert (elements_needing_new_ids a2 = elements_needing_new_ids a1) as Hn.
  { apply set_eq. intros g. by rewrite Hn1, Hn2. }
  assert (length e2 = length e1) as He.
  { apply Permutation_length, NoDup_Permutation; [done.. |].
    intros g. by rewrite Hin1, Hin2. }
  destruct a1, a2. simpl in *. subst. congruence.
Qed.

(** [analyze_existing_ids] is the analysis along one of the walks. *)
Lemma analyze_as_walk (m : gmap guid_t pystr) :
  analyze_existing_ids m
  = analyze_walk (reverse (map_to_list m)) (λ c, reverse (map_to_list c)).
Proof.
  unfold analyze_existing_ids, analyze_walk, count_ids, count_walk.
  rewrite map_fold_foldr, foldl_reverse.
  rewrite (foldr_ext _ (λ x acc, acc ≫= count_id x.1 x.2) _ (Some (∅, []))
             (map_to_list m) (map_to_list m)) by (by intros [g x] acc || done).
  destruct (foldr _ _ (map_to_list m)) as [[c e]|]; [| done].
  rewrite map_fold_foldr, foldl_reverse.
  rewrite (foldr_ext _ (λ x acc, split_id x.1 x.2 acc) _ (∅, ∅)
             (map_to_list c) (map_to_list c)) by (by intros [g x] acc || done).
  by rewrite length_reverse, length_map_to_list.
Qed.

End WalkFacts.

(** ** The properties of the specification *)

Import PyStrFacts AnalysisFacts GenerateFacts FinalFacts ExtractorFacts FreshFacts
  WalkFacts.

(** Computed membership in a finite set. *)
Ltac by_computing :=
  first
    [ vm_compute; reflexivity
    | apply (bool_decide_eq_true_1 _); vm_compute; reflexivity
    | apply (bool_decide_eq_false_1 _); vm_compute; reflexivity ].

(** C1.  Whatever the elements and their existing identifiers are, the
    generation returns a mapping, and the identifiers that are final after
    it, the kept unique ones together with the newly assigned ones, contain
    no duplicate: no assigned value is a kept one, and no value is assigned
    twice.  The run is a sequence of [steps], each of which assigns a value
    that is not in the reserved set at that moment ([steps_cons]).  When the
    prefixes are clean and every element with an identifier is listed, no
    two elements end up with the same stored identifier either. *)
Theorem final_identifiers_distinct (self : SmartUniqueIDAssigner)
    (elements : list elem_data) (existing_ids : gmap guid_t pystr) :
  ∃ a m R',
    analyze_existing_ids existing_ids = Some a
    ∧ generate_new_ids_for_problem_elements self elements a = Some m
    ∧ runs self (problem_elements_of elements a)
        (group_by_type (problem_elements_of elements a)).*1
        (existing_unique_ids a) ∅ R' m
    ∧ NoDup (base.elements (existing_unique_ids a) ++ (map_to_list m).*2)
    ∧ (∀ g v, m !! g = Some v → v ∉ existing_unique_ids a)
    ∧ (∀ g1 g2 v, m !! g1 = Some v → m !! g2 = Some v → g1 = g2)
    ∧ (clean_prefixes self → covers elements existing_ids →
       ∀ g1 g2 v,
         final_id existing_ids m g1 = Some v →
         final_id existing_ids m g2 = Some v → g1 = g2).
Proof.
  destruct (analysis_spec existing_ids) as (a & Ha & _).
  destruct (generate_runs self elements a) as (R' & m & Hm & Hruns).
  destruct (mapping_spec self elements a m Hm) as (Hfresh & Hinj & _).
  exists a, m, R'. split_and!; [done.. | | done | done |].
  - apply NoDup_app. split_and!.
    + apply NoDup_elements.
    + intros v Hv%elem_of_elements ([g v'] & -> & Hg%elem_of_map_to_list)%list_elem_of_fmap.
      by apply (Hfresh g v').
    + apply NoDup_fmap_2_strong; [| apply NoDup_map_to_list].
      intros [g1 v1] [g2 v2] H1%elem_of_map_to_list H2%elem_of_map_to_list.
      simpl. intros <-. f_equal. by apply (Hinj g1 g2 v1).
  - intros Hclean Hcov g1 g2 v.
    by apply (final_id_inj self elements existing_ids a m Ha Hm).
Qed.

(** C1 on the four elements of the example, where the hypotheses of the
    last part hold. *)
Lemma final_identifiers_distinct_witness :
  clean_prefixes init ∧ covers snapshot.*1 (existing_ids_of snapshot)
  ∧ ∃ a m,
      analyze_existing_ids (existing_ids_of snapshot) = Some a
      ∧ generate_new_ids_for_problem_elements init snapshot.*1 a = Some m
      ∧ NoDup (base.elements (existing_unique_ids a) ++ (map_to_list m).*2)
      ∧ ∀ g1 g2 v,
          final_id (existing_ids_of snapshot) m g1 = Some v →
          final_id (existing_ids_of snapshot) m g2 = Some v → g1 = g2.
Proof.
  pose proof (snapshot_covers snapshot) as Hcov.
  split_and!; [apply init_clean | assumption |].
  destruct (final_identifiers_distinct init snapshot.*1 (existing_ids_of snapshot))
    as (a & m & R' & Ha & Hm & _ & Hnd & _ & _ & Hfinal).
  exists a, m. split_and!; [assumption.. |].
  apply Hfinal; [apply init_clean | assumption].
Defined.


(** C3.  On the four elements of the example, [E3] is not in the mapping and
    [W-005] is the one kept identifier; [W-001] is held twice and therefore
    not reserved, so it goes to one of [E1] and [E2] (to [E1], the first in
    input order) and [W-002] to the other; [E4] gets [B-001]. *)
Theorem example_walls_and_beam :
  ∃ a m,
    analyze_existing_ids (existing_ids_of snapshot) = Some a
    ∧ reconcile init snapshot = Some m
    ∧ existing_unique_ids a = {[ str "W-005" ]}
    ∧ m = {[ guid E1 := str "W-001"; guid E2 := str "W-002";
             guid E4 := str "B-001" ]}
    ∧ m !! guid E3 = None
    ∧ (str "W-001" ∉ existing_unique_ids a)
    ∧ ((m !! guid E1 = Some (str "W-001") ∧ m !! guid E2 = Some (str "W-002"))
       ∨ (m !! guid E1 = Some (str "W-002") ∧ m !! guid E2 = Some (str "W-001")))
    ∧ m !! guid E4 = Some (str "B-001").
Proof.
  destruct (analysis_spec (existing_ids_of snapshot)) as (a & Ha & _).
  assert (existing_unique_ids <$> analyze_existing_ids (existing_ids_of snapshot)
          = Some {[ str "W-005" ]}) as Hu by (vm_compute; reflexivity).
  rewrite Ha in Hu. injection Hu as Hu.
  exists a, {[ guid E1 := str "W-001"; guid E2 := str "W-002";
               guid E4 := str "B-001" ]}.
  rewrite Hu.
  split_and!; [done | by_computing | done | done | by_computing | by_computing
               | | by_computing].
  left. split; by_computing.
Qed.

(** C4.  The classification returns.  An identifier is trimmed of the
    whitespace around it, and one that is empty once trimmed is absent.
    Grouped by trimmed identifier, an identifier with exactly one holder is
    unique, an identifier with two or more holders is a duplicate for each
    of its holders, and the elements that need a new identifier are the
    holders of duplicates together with the elements without identifier. *)
Theorem classification_correct (existing_ids : gmap guid_t pystr) :
  ∃ a,
    analyze_existing_ids existing_ids = Some a
    ∧ (∀ element_id, ∃ l r,
         element_id = l ++ strip element_id ++ r
         ∧ Forall (λ c, is_space c = true) l
         ∧ Forall (λ c, is_space c = true) r
         ∧ (∀ c, head (strip element_id) = Some c → is_space c = false)
         ∧ (∀ c, last (strip element_id) = Some c → is_space c = false))
    ∧ (∀ element_id, is_absent element_id = true ↔ strip element_id = [])
    ∧ (∀ s, s ∈ existing_unique_ids a ↔ ∃ g, sole existing_ids g s)
    ∧ (∀ g s, duplicate_elements a !! g = Some s ↔ shared existing_ids g s)
    ∧ (∀ g, g ∈ elements_needing_new_ids a
            ↔ absent existing_ids g ∨ ∃ s, shared existing_ids g s).
Proof.
  destruct (analysis_spec existing_ids) as (a & Ha & Hu & Hd & Hn).
  exists a. split_and!; [done | | apply is_absent_true | done..].
  intros element_id.
  destruct (lstrip_split element_id) as (l & Hl & Hsl).
  destruct (rstrip_split (lstrip element_id)) as (r & Hr & Hsr).
  exists l, r. split_and!; [| done | done | |].
  - unfold strip. by rewrite <- Hr.
  - intros c Hc%rstrip_head_inv. by apply (lstrip_head element_id).
  - intros c. apply rstrip_last.
Qed.

(** C5.  An element that is the only holder of its trimmed identifier is
    not in the mapping the generation returns: its identifier is reserved
    and stays as the host stores it. *)
Theorem unique_identifier_untouched (self : SmartUniqueIDAssigner)
    (elements : list elem_data) (existing_ids : gmap guid_t pystr)
    (g : guid_t) (s : pystr) :
  sole existing_ids g s →
  ∃ a m,
    analyze_existing_ids existing_ids = Some a
    ∧ generate_new_ids_for_problem_elements self elements a = Some m
    ∧ m !! g = None
    ∧ s ∈ existing_unique_ids a
    ∧ final_id existing_ids m g = existing_ids !! g.
Proof.
  intros Hsole.
  destruct (analysis_spec existing_ids) as (a & Ha & Hu & _ & Hn).
  destruct (generate_runs self elements a) as (R' & m & Hm & _).
  destruct (mapping_spec self elements a m Hm) as (_ & _ & Hdom & _).
  assert (m !! g = None) as Hnone.
  { destruct (m !! g) as [v|] eqn:Hv; [| done]. exfalso.
    assert (is_Some (m !! g)) as [_ Hneedy]%Hdom by (by rewrite Hv).
    destruct Hsole as [(x & Hx & Hne & Hs) Honly].
    apply Hn in Hneedy as [(y & Hy & Hempty) | (s' & Hh & g' & Hg' & Hh')].
    - congruence.
    - assert (s' = s) as -> by (apply (holds_fun existing_ids g); [done |];
                                by exists x).
      by apply Hg', Honly. }
  exists a, m. split_and!; [done.. | | ].
  - apply Hu. by exists g.
  - unfold final_id. by rewrite Hnone.
Qed.

(** C5 on [E3] of the example, the only holder of [W-005]. *)
Lemma unique_identifier_untouched_witness :
  sole (existing_ids_of snapshot) (guid E3) (str "W-005")
  ∧ ∃ a m,
      analyze_existing_ids (existing_ids_of snapshot) = Some a
      ∧ generate_new_ids_for_problem_elements init snapshot.*1 a = Some m
      ∧ m !! guid E3 = None.
Proof.
  assert (sole (existing_ids_of snapshot) (guid E3) (str "W-005")) as Hsole.
  { destruct (analysis_spec (existing_ids_of snapshot)) as (a & Ha & Hu & _).
    assert (existing_unique_ids <$> analyze_existing_ids (existing_ids_of snapshot)
            = Some {[ str "W-005" ]}) as Hc by (vm_compute; reflexivity).
    rewrite Ha in Hc. injection Hc as Hc.
    destruct (proj1 (Hu (str "W-005"))) as (g & Hh & Honly);
      [rewrite Hc; by apply elem_of_singleton |].
    assert (holds (existing_ids_of snapshot) (guid E3) (str "W-005")) as HE3.
    { exists (str "W-005"). split_and!; [by_computing | by vm_compute | by_computing]. }
    pose proof (Honly _ HE3) as Heq. subst g. by split. }
  split; [assumption |].
  destruct (unique_identifier_untouched init snapshot.*1 (existing_ids_of snapshot)
              (guid E3) (str "W-005") Hsole) as (a & m & Ha & Hm & Hnone & _).
  exists a, m. split_and!; assumption.
Defined.

(** C6.  A listed element that shares its identifier with another element,
    or has none, is in the mapping the generation returns, and its new
    identifier occurs nowhere else among the final identifiers: it is not a
    kept unique identifier, no other element is assigned it, and (with clean
    prefixes, all elements being listed) no other element ends up storing
    it. *)
Theorem needy_element_assigned (self : SmartUniqueIDAssigner)
    (elements : list elem_data) (existing_ids : gmap guid_t pystr) (g : guid_t) :
  g ∈ guid <$> elements →
  absent existing_ids g ∨ (∃ s, shared existing_ids g s) →
  ∃ a m v,
    analyze_existing_ids existing_ids = Some a
    ∧ generate_new_ids_for_problem_elements self elements a = Some m
    ∧ m !! g = Some v
    ∧ (v ∉ existing_unique_ids a)
    ∧ (∀ g', m !! g' = Some v → g' = g)
    ∧ (clean_prefixes self → covers elements existing_ids →
       ∀ g', final_id existing_ids m g' = Some v → g' = g).
Proof.
  intros Hg Hneedy.
  destruct (analysis_spec existing_ids) as (a & Ha & _ & _ & Hn).
  destruct (generate_runs self elements a) as (R' & m & Hm & _).
  destruct (mapping_spec self elements a m Hm) as (Hfresh & Hinj & Hdom & _).
  destruct (proj2 (Hdom g)) as [v Hv]; [split; [done | by apply Hn] |].
  exists a, m, v. split_and!; [done.. | by apply (Hfresh g) | |].
  - intros g' Hg'. by apply (Hinj g' g v).
  - intros Hclean Hcov g' Hg'.
    apply (final_id_inj self elements existing_ids a m Ha Hm g' g v);
      [done.. |]. unfold final_id. by rewrite Hv.
Qed.

(** C6 on [E2] of the example, which shares [W-001] with [E1], and on [E4],
    which has no identifier. *)
Lemma needy_element_assigned_witness :
  (guid E2 ∈ guid <$> snapshot.*1)
  ∧ shared (existing_ids_of snapshot) (guid E2) (str "W-001")
  ∧ absent (existing_ids_of snapshot) (guid E4)
  ∧ (∃ a m v,
       analyze_existing_ids (existing_ids_of snapshot) = Some a
       ∧ generate_new_ids_for_problem_elements init snapshot.*1 a = Some m
       ∧ m !! guid E2 = Some v
       ∧ (v ∉ existing_unique_ids a)
       ∧ ∀ g', m !! g' = Some v → g' = guid E2)
  ∧ (∃ a m v,
       analyze_existing_ids (existing_ids_of snapshot) = Some a
       ∧ generate_new_ids_for_problem_elements init snapshot.*1 a = Some m
       ∧ m !! guid E4 = Some v).
Proof.
  assert (guid E2 ∈ guid <$> snapshot.*1) as H2 by (by_computing).
  assert (guid E4 ∈ guid <$> snapshot.*1) as H4 by (by_computing).
  assert (shared (existing_ids_of snapshot) (guid E2) (str "W-001")) as Hshared.
  { split.
    - exists (str "W-001"). split_and!; [by_computing | by vm_compute | by_computing].
    - exists (guid E1). split; [by vm_compute |].
      exists (str "W-001"). split_and!; [by_computing | by vm_compute | by_computing]. }
  assert (absent (existing_ids_of snapshot) (guid E4)) as Habsent.
  { exists (str ""). split; by_computing. }
  split_and!; [assumption.. | |].
  - destruct (needy_element_assigned init snapshot.*1 (existing_ids_of snapshot)
                (guid E2) H2 (or_intror (ex_intro _ _ Hshared)))
      as (a & m & v & Ha & Hm & Hv & Hfresh & Hinj & _).
    exists a, m, v. split_and!; assumption.
  - destruct (needy_element_assigned init snapshot.*1 (existing_ids_of snapshot)
                (guid E4) H4 (or_introl Habsent))
      as (a & m & v & Ha & Hm & Hv & _).
    exists a, m, v. split_and!; assumption.
Defined.

(** C7.  The counter is written with at least three digits, zero-padded, and
    never cut: below 1000 the suffix has exactly three characters, from 1000
    on it is the full decimal numeral of four or more digits, it always
    reads back as the counter, and different counters give different
    identifiers.  In a run over elements of one type that meets no reserved
    identifier the elements are numbered 1, 2, ... in input order, so the
    thousandth gets the suffix [-1000]. *)
Theorem padding_never_truncates :
  (∀ counter, counter < 1000 → length (format_03d counter) = 3%nat)
  ∧ (∀ counter, 1000 ≤ counter →
       format_03d counter = uint_codes (N.to_uint counter)
       ∧ (4 ≤ length (format_03d counter))%nat)
  ∧ (∀ counter, parse_decimal (format_03d counter) = counter)
  ∧ (∀ prefix c c', format_id prefix c = format_id prefix c' → c = c')
  ∧ format_id (str "W") 7 = str "W-007"
  ∧ format_id (str "W") 999 = str "W-999"
  ∧ format_id (str "W") 1000 = str "W-1000"
  ∧ (∀ self (elements : list elem_data) a T,
       (∀ e, e ∈ elements → etype e = T ∧ guid e ∈ elements_needing_new_ids a) →
       NoDup (guid <$> elements) →
       (∀ k, format_id (prefix_for self T) k ∉ existing_unique_ids a) →
       ∃ m,
         generate_new_ids_for_problem_elements self elements a = Some m
         ∧ (∀ i e, elements !! i = Some e →
              m !! guid e
              = Some (format_id (prefix_for self T) (N.of_nat i + 1)))
         ∧ (∀ e, elements !! 999%nat = Some e →
              m !! guid e = Some (prefix_for self T ++ str "-1000"))).
Proof.
  split_and!.
  - intros counter Hc. rewrite format_03d_length.
    pose proof (nb_digits_small counter Hc). lia.
  - intros counter Hc. split; [by apply format_03d_large |].
    rewrite format_03d_length. pose proof (nb_digits_large counter Hc). lia.
  - apply parse_format_03d.
  - apply format_id_inj.
  - reflexivity.
  - reflexivity.
  - reflexivity.
  - intros self elements a T Hall Hnd Hfree.
    destruct (single_type_run self elements a T Hall Hnd Hfree) as (m & Hm & Hnum).
    exists m. split_and!; [done.. |]. intros e He.
    etrans; [apply (Hnum _ _ He) | reflexivity].
Qed.

(** C7 on two walls without identifier in an empty project. *)
Lemma padding_never_truncates_witness :
  ∃ a m,
    analyze_existing_ids (existing_ids_of blank_walls) = Some a
    ∧ generate_new_ids_for_problem_elements init blank_walls.*1 a = Some m
    ∧ m !! guid E1 = Some (str "W-001")
    ∧ m !! guid E2 = Some (str "W-002").
Proof.
  destruct (analysis_spec (existing_ids_of blank_walls)) as (a & Ha & _).
  assert (existing_unique_ids <$> analyze_existing_ids (existing_ids_of blank_walls)
          = Some ∅) as Hu by (vm_compute; reflexivity).
  assert (elements_needing_new_ids <$> analyze_existing_ids (existing_ids_of blank_walls)
          = Some {[ guid E1; guid E2 ]}) as Hn by (vm_compute; reflexivity).
  rewrite Ha in Hu, Hn. injection Hu as Hu. injection Hn as Hn.
  destruct padding_never_truncates as (_ & _ & _ & _ & _ & _ & _ & Hrun).
  destruct (Hrun init blank_walls.*1 a (str "Wall")) as (m & Hm & Hnum & _).
  - intros e He. rewrite Hn.
    apply elem_of_cons in He as [-> | He]; [split; by_computing |].
    apply elem_of_cons in He as [-> | He]; [split; by_computing |].
    destruct (not_elem_of_nil _ He).
  - by_computing.
  - intros k. rewrite Hu. apply not_elem_of_empty.
  - exists a, m. split_and!; [assumption.. | |].
    + apply (Hnum 0%nat E1 eq_refl).
    + apply (Hnum 1%nat E2 eq_refl).
Defined.

(** C8.  Two runs on the same snapshot, by assigners with the same prefix
    table, return the same mapping, in whatever order each run walks the
    dictionary of existing identifiers and the dictionary of the counts:
    both walks may be any arrangement of the entries.  The analysis is the
    same along every walk, it is the one [analyze_existing_ids] computes,
    and the mapping generated from it is the same for both assigners. *)
Theorem generation_deterministic (self1 self2 : SmartUniqueIDAssigner)
    (snapshot : list (elem_data * pystr))
    (items1 items2 : list (guid_t * pystr))
    (counts1 counts2 : gmap pystr (list guid_t) → list (pystr * list guid_t)) :
  element_prefixes self1 = element_prefixes self2 →
  items1 ≡ₚ map_to_list (existing_ids_of snapshot) →
  items2 ≡ₚ map_to_list (existing_ids_of snapshot) →
  (∀ c, counts1 c ≡ₚ map_to_list c) →
  (∀ c, counts2 c ≡ₚ map_to_list c) →
  ∃ a m,
    analyze_walk items1 counts1 = Some a
    ∧ analyze_walk items2 counts2 = Some a
    ∧ analyze_existing_ids (existing_ids_of snapshot) = Some a
    ∧ generate_new_ids_for_problem_elements self1 snapshot.*1 a = Some m
    ∧ generate_new_ids_for_problem_elements self2 snapshot.*1 a = Some m
    ∧ reconcile self1 snapshot = Some m
    ∧ reconcile self2 snapshot = Some m.
Proof.
  intros Heq H1 H2 Hc1 Hc2.
  destruct (analyze_walk_unique _ items1 items2 counts1 counts2 H1 H2 Hc1 Hc2)
    as (a & Ha1 & Ha2).
  assert (analyze_existing_ids (existing_ids_of snapshot) = Some a) as Ha.
  { rewrite analyze_as_walk.
    destruct (analyze_walk_unique (existing_ids_of snapshot) items1
                (reverse (map_to_list (existing_ids_of snapshot)))
                counts1 (λ c, reverse (map_to_list c)) H1
                (reverse_Permutation _) Hc1 (λ c, reverse_Permutation _))
      as (a' & Ha' & ->).
    congruence. }
  destruct (generate_runs self1 snapshot.*1 a) as (R' & m & Hm & _).
  assert (generate_new_ids_for_problem_elements self2 snapshot.*1 a = Some m)
    as Hm2 by (by rewrite <- (generate_ext self1 self2)).
  exists a, m. unfold reconcile. rewrite Ha. by split_and!.
Qed.

(** C8 on the example: one run walks both dictionaries forwards, the
    other backwards, and the assigners differ in the list of types they
    fetch. *)
Lemma generation_deterministic_witness :
  ∃ a m,
    analyze_walk (map_to_list (existing_ids_of Examples.snapshot)) map_to_list
    = Some a
    ∧ analyze_walk (reverse (map_to_list (existing_ids_of Examples.snapshot)))
        (λ c, reverse (map_to_list c)) = Some a
    ∧ reconcile init Examples.snapshot = Some m
    ∧ reconcile init_walls_only Examples.snapshot = Some m.
Proof.
  destruct (generation_deterministic init init_walls_only Examples.snapshot
              (map_to_list (existing_ids_of Examples.snapshot))
              (reverse (map_to_list (existing_ids_of Examples.snapshot)))
              map_to_list (λ c, reverse (map_to_list c))
              eq_refl (reflexivity _) (reverse_Permutation _)
              (λ c, reflexivity _) (λ c, reverse_Permutation _))
    as (a & m & Ha1 & Ha2 & _ & _ & _ & Hr1 & Hr2).
  exists a, m. split; [assumption |]. split; [assumption |].
  split; assumption.
Defined.






(** ** Facts about the counts of the analysis *)

Module CountFacts.

Import AnalysisFacts GenerateFacts FinalFacts.

Lemma filed_insert (c : gmap pystr (list guid_t)) i x :
  c !! i = None → filed (<[i:=x]> c) = (length x + filed c)%nat.
Proof.
  intros Hi. unfold filed.
  rewrite map_fold_insert_L; [done | intros; lia | done].
Qed.

Lemma filed_update (c : gmap pystr (list guid_t)) i old x :
  c !! i = Some old →
  (filed (<[i:=x]> c) + length old = length x + filed c)%nat.
Proof.
  intros Hi. rewrite <- (insert_delete_id c i old Hi) at 2.
  rewrite <- (insert_delete_eq c), !filed_insert by apply lookup_delete_eq. lia.
Qed.

(** The first loop files every element once. *)
Lemma count_ids_lengths (existing_ids : gmap guid_t pystr) :
  ∃ c e, count_ids existing_ids = Some (c, e)
         ∧ (length e + filed c = size existing_ids)%nat ∧ NoDup e.
Proof.
  induction existing_ids as [|i x m Hi Hfirst IH] using map_first_key_ind.
  - exists ∅, []. split_and!; [done | | constructor].
    unfold filed. by rewrite map_fold_empty, map_size_empty.
  - destruct IH as (c & e & Hce & Hlen & Hnd).
    destruct (counted_fold m) as (acc & Hacc & He & Hc & Hw).
    rewrite Hce in Hacc. injection Hacc as <-. simpl in He, Hc, Hw.
    unfold count_ids in *. rewrite map_fold_insert_first_key by done.
    rewrite Hce. cbn [mbind option_bind]. rewrite count_id_eq.
    rewrite map_size_insert_None by done.
    destruct (is_absent x) eqn:Hx.
    + exists c, (e ++ [i]). split_and!; [done | rewrite length_app; simpl; lia |].
      apply NoDup_app. split_and!; [done | | apply NoDup_singleton].
      intros g Hg ->%list_elem_of_singleton.
      apply He in Hg as (y & Hy & _). congruence.
    + eexists _, e. split_and!; [done | | done].
      destruct (c !! strip x) as [old|] eqn:Hold; simpl.
      * pose proof (filed_update c (strip x) old (old ++ [i]) Hold) as Hf.
        rewrite length_app in Hf. simpl in Hf. lia.
      * rewrite filed_insert by done. simpl. lia.
Qed.

Lemma assign_all_size (v : pystr) (gs : list guid_t) (d : gmap guid_t pystr) :
  NoDup gs → (∀ g, g ∈ gs → d !! g = None) →
  size (foldl (λ d g, <[g := v]> d) d gs) = (size d + length gs)%nat.
Proof.
  revert d. induction gs as [|g gs IH]; intros d Hnd Hd; simpl; [lia |].
  apply NoDup_cons in Hnd as [Hg Hnd]. rewrite IH; [| done |].
  - rewrite map_size_insert_None by (apply Hd; left). lia.
  - intros g' Hg'. rewrite lookup_insert_ne by (by intros ->).
    apply Hd. by right.
Qed.

(** The second loop puts every filed GUID either among the duplicates or,
    through its identifier, among the unique identifiers. *)
Lemma split_sizes (c : gmap pystr (list guid_t)) :
  apart c → (∀ s gs, c !! s = Some gs → NoDup gs ∧ gs ≠ []) →
  (size (map_fold split_id (∅, ∅) c).1 + size (map_fold split_id (∅, ∅) c).2
   = filed c)%nat.
Proof.
  induction c as [|i x c Hi Hfirst IH] using map_first_key_ind; intros Ha Hw.
  - unfold filed. by rewrite !map_fold_empty.
  - assert (apart c) as Ha' by (by apply (apart_insert c i x)).
    assert (∀ s gs, c !! s = Some gs → NoDup gs ∧ gs ≠ []) as Hw'.
    { intros s gs Hs. apply (Hw s). rewrite lookup_insert_ne; [done | congruence]. }
    specialize (IH Ha' Hw').
    destruct (sorted_out_fold c Ha') as [Hd Hu].
    rewrite map_fold_insert_first_key by done. rewrite filed_insert by done.
    destruct (map_fold split_id (∅, ∅) c) as [d u]. simpl in IH, Hd, Hu.
    destruct (Hw i x) as [Hnd Hne]; [by rewrite lookup_insert_eq |].
    unfold split_id. destruct (decide (1 < length x)%nat) as [Hlong | Hshort]; simpl.
    + rewrite assign_all_size; [lia | done |].
      intros g Hg. destruct (d !! g) as [s|] eqn:Hs; [| done]. exfalso.
      apply Hd in Hs as (gs & Hgs & _ & Hin).
      assert (i = s) as <-; [| congruence].
      apply (Ha i s x gs g); [by rewrite lookup_insert_eq | | done..].
      rewrite lookup_insert_ne; [done |]. intros <-. congruence.
    + assert (length x = 1%nat) as -> by (destruct x as [|? [|? ?]]; simpl in *; [done | lia | lia]).
      rewrite size_union, size_singleton; [lia |].
      apply disjoint_singleton_l. intros (gs & Hgs & _)%Hu. congruence.
Qed.

(** The counts of the analysis. *)
Lemma analysis_counts (existing_ids : gmap guid_t pystr) :
  ∃ a,
    analyze_existing_ids existing_ids = Some a
    ∧ total_elements a = size existing_ids
    ∧ (unique_ids a + empty_ids a + duplicate_count a = total_elements a)%nat
    ∧ size (elements_needing_new_ids a) = (empty_ids a + duplicate_count a)%nat
    ∧ unique_ids a = size (existing_unique_ids a)
    ∧ duplicate_count a = size (duplicate_elements a).
Proof.
  unfold analyze_existing_ids.
  destruct (count_ids_lengths existing_ids) as (c & e & Hce & Hlen & Hnd).
  destruct (counted_fold existing_ids) as (acc & Hacc & He & Hc & Hw).
  rewrite Hce in Hacc. injection Hacc as <-. simpl in He, Hc, Hw. rewrite Hce.
  assert (apart c) as Hapart.
  { intros s s' gs gs' g Hs Hs' Hg Hg'.
    apply (holds_fun existing_ids g); apply Hc; eauto. }
  pose proof (split_sizes c Hapart Hw) as Hsizes.
  destruct (sorted_out_fold c Hapart) as [Hd _].
  destruct (map_fold split_id (∅, ∅) c) as [d u]. simpl in Hsizes, Hd.
  eexists. split; [done |]. simpl. split_and!; [done | lia | | done | done].
  rewrite size_list_to_set.
  - by rewrite length_app, length_fmap, length_map_to_list.
  - apply NoDup_app. split_and!; [done | | apply NoDup_fst_map_to_list].
    intros g (y & Hy & Hempty)%He ([g' s] & -> & Hs%elem_of_map_to_list)%list_elem_of_fmap.
    apply Hd in Hs as (gs & Hgs & _ & Hin).
    assert (holds existing_ids g' s) as (x & Hx & Hne & _) by (apply Hc; eauto).
    simpl in Hy. congruence.
Qed.

(** With every element listed, the mapping has one entry for each element
    that needs an identifier. *)
Lemma mapping_dom (self : SmartUniqueIDAssigner) (elements : list elem_data)
    (existing_ids : gmap guid_t pystr) (a : analysis_t) (m : gmap guid_t pystr) :
  analyze_existing_ids existing_ids = Some a →
  generate_new_ids_for_problem_elements self elements a = Some m →
  covers elements existing_ids →
  dom m = elements_needing_new_ids a.
Proof.
  intros Ha Hm Hcov.
  destruct (mapping_spec self elements a m Hm) as (_ & _ & Hdom & _).
  apply set_eq. intros g. rewrite elem_of_dom, Hdom. split; [by intros [_ ?] |].
  intros Hn. split; [| done]. apply Hcov.
  apply (needing_iff existing_ids a Ha) in Hn
    as [(x & Hx & _) | (s & (x & Hx & _) & _)]; by rewrite Hx.
Qed.

End CountFacts.

(** ** Facts about a second run *)

Module SecondRunFacts.

Import PyStrFacts AnalysisFacts GenerateFacts FinalFacts.

Lemma format_id_not_empty (prefix : pystr) counter : format_id prefix counter ≠ [].
Proof. unfold format_id. by destruct prefix. Qed.

Section second.
Variables (self : SmartUniqueIDAssigner) (elements : list elem_data).
Variables (existing_ids : gmap guid_t pystr) (a : analysis_t).
Variable m : gmap guid_t pystr.
Hypothesis Ha : analyze_existing_ids existing_ids = Some a.
Hypothesis Hm : generate_new_ids_for_problem_elements self elements a = Some m.
Hypothesis Hclean : clean_prefixes self.
Hypothesis Hcov : covers elements existing_ids.

(** An assigned identifier is its own trimmed form, is not empty and is
    not reserved. *)
Lemma assigned_shape g v :
  m !! g = Some v → strip v = v ∧ v ≠ [] ∧ v ∉ existing_unique_ids a.
Proof.
  intros Hv.
  destruct (mapping_spec self elements a m Hm) as (Hfresh & _ & _ & Hform).
  destruct (Hform _ _ Hv) as (e & C & _ & _ & _ & ->).
  split_and!; [| apply format_id_not_empty | by apply (Hfresh g)].
  apply format_id_strip. intros c. by apply prefix_for_clean.
Qed.

(** A stored identifier that stays is the trimmed form of a reserved one. *)
Lemma kept_shape g x :
  m !! g = None → existing_ids !! g = Some x →
  sole existing_ids g (strip x) ∧ strip x ∈ existing_unique_ids a.
Proof.
  intros Hnone Hx.
  assert (sole existing_ids g (strip x)) as Hsole.
  { apply (kept_is_sole self elements existing_ids a m Ha Hm); [| done..].
    apply Hcov. by rewrite Hx. }
  split; [done |]. apply (unique_iff existing_ids a Ha). by exists g.
Qed.

Lemma final_not_empty g x :
  final_id existing_ids m g = Some x → strip x ≠ [].
Proof.
  unfold final_id. destruct (m !! g) as [v|] eqn:Hv.
  - intros [= <-]. destruct (assigned_shape g v Hv) as (-> & ? & _). done.
  - intros Hx. destruct (kept_shape g x Hv Hx) as [[(y & Hy & Hne & Hs) _] _].
    congruence.
Qed.

Lemma final_strip_inj g1 g2 x1 x2 :
  final_id existing_ids m g1 = Some x1 → final_id existing_ids m g2 = Some x2 →
  strip x1 = strip x2 → g1 = g2.
Proof.
  destruct (mapping_spec self elements a m Hm) as (_ & Hinj & _ & _).
  unfold final_id.
  destruct (m !! g1) as [v1|] eqn:H1, (m !! g2) as [v2|] eqn:H2.
  - intros [= <-] [= <-] Hs.
    destruct (assigned_shape g1 v1 H1) as (Hs1 & _), (assigned_shape g2 v2 H2) as (Hs2 & _).
    apply (Hinj g1 g2 v1); congruence.
  - intros [= <-] Hx Hs. exfalso.
    destruct (assigned_shape g1 v1 H1) as (Hs1 & _ & Hfresh).
    destruct (kept_shape g2 x2 H2 Hx) as [_ Hu]. apply Hfresh. congruence.
  - intros Hx [= <-] Hs. exfalso.
    destruct (assigned_shape g2 v2 H2) as (Hs2 & _ & Hfresh).
    destruct (kept_shape g1 x1 H1 Hx) as [_ Hu]. apply Hfresh. congruence.
  - intros Hx1 Hx2 Hs.
    destruct (kept_shape g1 x1 H1 Hx1) as [[_ Honly] _].
    destruct (kept_shape g2 x2 H2 Hx2) as [[Hh _] _].
    symmetry. apply Honly. by rewrite Hs.
Qed.

(** Once the mapping is written back, no element needs an identifier. *)
Lemma nothing_left a' :
  analyze_existing_ids (m ∪ existing_ids) = Some a' →
  elements_needing_new_ids a' = ∅.
Proof.
  intros Ha'. apply set_eq. intros g.
  rewrite (needing_iff (m ∪ existing_ids) a' Ha').
  assert (∀ g x, (m ∪ existing_ids) !! g = Some x
                 ↔ final_id existing_ids m g = Some x) as Hfinal.
  { intros g0 x. unfold final_id. rewrite lookup_union_Some_raw.
    destruct (m !! g0); naive_solver. }
  split; [| by intros ?%not_elem_of_empty].
  intros [(x & Hx%Hfinal & Hempty) | (s & (x & Hx%Hfinal & _ & Hs) & g' & Hne & (x' & Hx'%Hfinal & _ & Hs'))].
  - by destruct (final_not_empty g x Hx).
  - destruct Hne. apply (final_strip_inj g' g x' x); congruence.
Qed.

End second.

End SecondRunFacts.

Import SecondRunFacts.

(** ** Further properties of the code *)

Import CountFacts.

(** X1.  The numbers of the analysis add up: every element is counted once,
    as holder of a unique identifier, as element without identifier or as
    holder of a duplicate, and the elements that need a new identifier are
    the last two groups together.  The number of unique identifiers is the
    number of elements that keep theirs. *)
Theorem analysis_counts_add_up (existing_ids : gmap guid_t pystr) :
  ∃ a,
    analyze_existing_ids existing_ids = Some a
    ∧ total_elements a = size existing_ids
    ∧ (unique_ids a + empty_ids a + duplicate_count a = total_elements a)%nat
    ∧ size (elements_needing_new_ids a) = (empty_ids a + duplicate_count a)%nat
    ∧ unique_ids a = size (existing_unique_ids a)
    ∧ duplicate_count a = size (duplicate_elements a).
Proof. apply analysis_counts. Qed.

(** X2.  When every entry of the dictionary of existing identifiers
    belongs to a listed element, the mapping has exactly one entry for each
    element the analysis reports as needing an identifier, so the number the
    report gives as newly assigned is the number of empty plus duplicate
    identifiers, and together with the kept unique identifiers it accounts
    for every entry of the dictionary. *)
Theorem mapping_size_matches_analysis (self : SmartUniqueIDAssigner)
    (elements : list elem_data) (existing_ids : gmap guid_t pystr) :
  covers elements existing_ids →
  ∃ a m,
    analyze_existing_ids existing_ids = Some a
    ∧ generate_new_ids_for_problem_elements self elements a = Some m
    ∧ dom m = elements_needing_new_ids a
    ∧ size m = (empty_ids a + duplicate_count a)%nat
    ∧ (size m + unique_ids a = size existing_ids)%nat.
Proof.
  intros Hcov.
  destruct (analysis_counts existing_ids) as (a & Ha & Htotal & Hsum & Hneedy & _).
  destruct (generate_runs self elements a) as (R' & m & Hm & _).
  pose proof (mapping_dom self elements existing_ids a m Ha Hm Hcov) as Hdom.
  exists a, m. split_and!; [done.. | |].
  - by rewrite <- size_dom, Hdom.
  - rewrite <- size_dom, Hdom, Hneedy. lia.
Qed.

(** X2 on the four elements of the example: three entries, one kept. *)
Lemma mapping_size_matches_analysis_witness :
  covers snapshot.*1 (existing_ids_of snapshot)
  ∧ ∃ a m,
      analyze_existing_ids (existing_ids_of snapshot) = Some a
      ∧ generate_new_ids_for_problem_elements init snapshot.*1 a = Some m
      ∧ size m = (empty_ids a + duplicate_count a)%nat
      ∧ (size m + unique_ids a = size (existing_ids_of snapshot))%nat.
Proof.
  pose proof (snapshot_covers snapshot) as Hcov.
  split; [assumption |].
  destruct (mapping_size_matches_analysis init snapshot.*1
              (existing_ids_of snapshot) Hcov)
    as (a & m & Ha & Hm & _ & Hsize & Hsum).
  exists a, m. split_and!; assumption.
Defined.

(** X3.  A second run changes nothing: with clean prefixes and every
    entry of the dictionary of existing identifiers belonging to a listed
    element, once the identifiers of the mapping are stored over the
    existing ones, the analysis of the new dictionary finds no element that
    needs an identifier, and the generation returns the empty mapping. *)
Theorem second_run_changes_nothing (self : SmartUniqueIDAssigner)
    (elements : list elem_data) (existing_ids : gmap guid_t pystr) :
  clean_prefixes self →
  covers elements existing_ids →
  ∃ a m a',
    analyze_existing_ids existing_ids = Some a
    ∧ generate_new_ids_for_problem_elements self elements a = Some m
    ∧ analyze_existing_ids (m ∪ existing_ids) = Some a'
    ∧ elements_needing_new_ids a' = ∅
    ∧ empty_ids a' = O ∧ duplicate_count a' = O
    ∧ unique_ids a' = size (m ∪ existing_ids)
    ∧ generate_new_ids_for_problem_elements self elements a' = Some ∅.
Proof.
  intros Hclean Hcov.
  destruct (analysis_spec existing_ids) as (a & Ha & _).
  destruct (generate_runs self elements a) as (R' & m & Hm & _).
  destruct (analysis_counts (m ∪ existing_ids))
    as (a' & Ha' & Htotal & Hsum & Hneedy & _).
  pose proof (nothing_left self elements existing_ids a m Ha Hm Hclean Hcov a' Ha')
    as Hnone.
  rewrite Hnone, size_empty in Hneedy.
  exists a, m, a'. split_and!; [done.. | lia | lia | lia |].
  unfold generate_new_ids_for_problem_elements. by rewrite decide_True.
Qed.

(** X3 on the four elements of the example. *)
Lemma second_run_changes_nothing_witness :
  clean_prefixes init ∧ covers snapshot.*1 (existing_ids_of snapshot)
  ∧ ∃ a m a',
      analyze_existing_ids (existing_ids_of snapshot) = Some a
      ∧ generate_new_ids_for_problem_elements init snapshot.*1 a = Some m
      ∧ analyze_existing_ids (m ∪ existing_ids_of snapshot) = Some a'
      ∧ generate_new_ids_for_problem_elements init snapshot.*1 a' = Some ∅.
Proof.
  pose proof (snapshot_covers snapshot) as Hcov.
  split_and!; [apply init_clean | assumption |].
  destruct (second_run_changes_nothing init snapshot.*1 (existing_ids_of snapshot)
              init_clean Hcov)
    as (a & m & a' & Ha & Hm & Ha' & _ & _ & _ & _ & Hgen).
  exists a, m, a'. split_and!; assumption.
Defined.

(** ** Facts about the order of the counters *)

Module OrderFacts.

Import PyStrFacts GenerateFacts.

Lemma steps_untouched (prefix : pystr) c R m es R' m' (g : guid_t) :
  steps prefix c R m es R' m' → g ∉ guid <$> es → m' !! g = m !! g.
Proof.
  induction 1 as [|c R m e es C R' m' _ _ _ _ IH]; [done |].
  rewrite fmap_cons, not_elem_of_cons. intros [Hg Hes].
  rewrite IH by done. by rewrite lookup_insert_ne.
Qed.

Lemma steps_split (prefix : pystr) c R m l1 l2 R' m' :
  steps prefix c R m (l1 ++ l2) R' m' →
  ∃ c1 R1 m1,
    c ≤ c1 ∧ steps prefix c R m l1 R1 m1 ∧ steps prefix c1 R1 m1 l2 R' m'.
Proof.
  revert c R m. induction l1 as [|e l1 IH]; intros c R m Hs; simpl in Hs.
  - exists c, R, m. split_and!; [lia | constructor | done].
  - inversion Hs as [|? ? ? ? ? C ? ? Hle Hfree Hbelow Hrest]; subst.
    destruct (IH _ _ _ Hrest) as (c1 & R1 & m1 & Hc1 & Hl1 & Hl2).
    exists c1, R1, m1. split_and!; [lia | | done].
    by apply (steps_cons _ _ _ _ _ _ C).
Qed.

(** The first element of a run keeps the identifier it is given, when its
    GUID does not come again. *)
Lemma steps_head (prefix : pystr) c R m e es R' m' :
  steps prefix c R m (e :: es) R' m' → guid e ∉ guid <$> es →
  ∃ C, c ≤ C ∧ m' !! guid e = Some (format_id prefix C)
       ∧ ∃ R1 m1, steps prefix (C + 1) R1 m1 es R' m'.
Proof.
  intros Hs Hg.
  inversion Hs as [|? ? ? ? ? C ? ? Hle Hfree Hbelow Hrest]; subst.
  exists C. split_and!; [done | | eauto].
  rewrite (steps_untouched _ _ _ _ _ _ _ _ Hrest Hg). apply lookup_insert_eq.
Qed.

(** In the run of one type, a later element gets a greater counter. *)
Lemma steps_increasing (prefix : pystr) c R m l1 e1 l2 e2 l3 R' m' :
  steps prefix c R m (l1 ++ e1 :: l2 ++ e2 :: l3) R' m' →
  NoDup (guid <$> (l1 ++ e1 :: l2 ++ e2 :: l3)) →
  ∃ C1 C2,
    c ≤ C1 ∧ C1 < C2
    ∧ m' !! guid e1 = Some (format_id prefix C1)
    ∧ m' !! guid e2 = Some (format_id prefix C2).
Proof.
  intros Hs Hnd.
  rewrite fmap_app, fmap_cons in Hnd.
  apply NoDup_app in Hnd as (_ & _ & Hnd). apply NoDup_cons in Hnd as [Hg1 Hnd].
  destruct (steps_split _ _ _ _ _ _ _ _ Hs) as (c1 & R1 & m1 & Hc1 & _ & Hs1).
  destruct (steps_head _ _ _ _ _ _ _ _ Hs1 Hg1) as (C1 & HC1 & Hv1 & R2 & m2 & Hs2).
  rewrite fmap_app, fmap_cons in Hnd.
  apply NoDup_app in Hnd as (_ & _ & Hnd). apply NoDup_cons in Hnd as [Hg2 _].
  destruct (steps_split _ _ _ _ _ _ _ _ Hs2) as (c2 & R3 & m3 & Hc2 & _ & Hs3).
  destruct (steps_head _ _ _ _ _ _ _ _ Hs3 Hg2) as (C2 & HC2 & Hv2 & _).
  exists C1, C2. split_and!; [lia | lia | done | done].
Qed.

Lemma runs_untouched self problem Ts R m R' m' (g : guid_t) :
  runs self problem Ts R m R' m' →
  (∀ e, e ∈ problem → guid e = g → etype e ∉ Ts) →
  m' !! g = m !! g.
Proof.
  induction 1 as [|T Ts R m R1 m1 R' m' Hsteps _ IH]; [done |].
  intros Hg. rewrite IH.
  - apply (steps_untouched _ _ _ _ _ _ _ _ Hsteps).
    intros (e & Heg & [HT He]%list_elem_of_filter)%list_elem_of_fmap.
    apply (Hg e He (eq_sym Heg)). rewrite HT. left.
  - intros e He Heg HT. apply (Hg e He Heg). by right.
Qed.

(** The run of the type [T] inside the runs of all types, and what the
    later runs leave of it. *)
Lemma runs_of_type self problem Ts R m R' m' T :
  runs self problem Ts R m R' m' → NoDup Ts → T ∈ Ts →
  ∃ R0 m0 R1 m1,
    steps (prefix_for self T) 1 R0 m0 (filter (λ e, etype e = T) problem) R1 m1
    ∧ ∀ g, (∀ e, e ∈ problem → guid e = g → etype e = T) → m' !! g = m1 !! g.
Proof.
  induction 1 as [|T0 Ts R m R1 m1 R' m' Hsteps Hruns IH]; [by intros _ ?%elem_of_nil |].
  intros [HT0 Hnd]%NoDup_cons [-> | HT]%elem_of_cons.
  - exists R, m, R1, m1. split; [done |]. intros g Hg.
    apply (runs_untouched _ _ _ _ _ _ _ _ Hruns).
    intros e He Heg Hin. apply HT0. by rewrite <- (Hg e He Heg).
  - by apply IH.
Qed.

Lemma lookup_split {A} (l : list A) i j x y :
  l !! i = Some x → l !! j = Some y → (i < j)%nat →
  ∃ l1 l2 l3, l = l1 ++ x :: l2 ++ y :: l3.
Proof.
  intros Hi Hj Hij.
  destruct (list_elem_of_split_length l i x Hi) as (l1 & r & -> & Hlen).
  rewrite lookup_app_r in Hj by lia.
  destruct (j - length l1)%nat as [|k] eqn:Hk; [lia |]. simpl in Hj.
  destruct (list_elem_of_split_length r k y Hj) as (l2 & l3 & -> & _).
  by exists l1, l2, l3.
Qed.

End OrderFacts.

Import OrderFacts.

(** X4.  When the listed elements have distinct GUIDs, identifiers follow
    the input order inside a type: of two listed elements of the same type
    that both need an identifier, the one that comes later in [elements]
    gets the greater counter. *)
Theorem later_element_greater_counter (self : SmartUniqueIDAssigner)
    (elements : list elem_data) (analysis : analysis_t)
    (i j : nat) (e1 e2 : elem_data) :
  NoDup (guid <$> elements) →
  elements !! i = Some e1 → elements !! j = Some e2 → (i < j)%nat →
  etype e1 = etype e2 →
  guid e1 ∈ elements_needing_new_ids analysis →
  guid e2 ∈ elements_needing_new_ids analysis →
  ∃ m C1 C2,
    generate_new_ids_for_problem_elements self elements analysis = Some m
    ∧ 1 ≤ C1 ∧ C1 < C2
    ∧ m !! guid e1 = Some (format_id (prefix_for self (etype e1)) C1)
    ∧ m !! guid e2 = Some (format_id (prefix_for self (etype e1)) C2).
Proof.
  intros Hnd Hi Hj Hij HT Hn1 Hn2.
  destruct (generate_runs self elements analysis) as (R' & m & Hm & Hruns).
  simpl in Hruns. set (problem := problem_elements_of elements analysis) in *.
  destruct (lookup_split elements i j e1 e2 Hi Hj Hij) as (l1 & l2 & l3 & Hl).
  assert (e1 ∈ problem) as He1.
  { apply list_elem_of_filter. split; [done |]. by apply list_elem_of_lookup_2 in Hi. }
  destruct (runs_of_type self problem _ _ _ _ _ (etype e1) Hruns)
    as (R0 & m0 & R1 & m1 & Hsteps & Hlater).
  { apply group_by_type_grouped. }
  { apply group_by_type_keys. by exists e1. }
  assert (∀ e, e ∈ elements → NoDup (guid <$> elements) →
               ∀ e', e' ∈ problem → guid e' = guid e → e' = e) as Hsame.
  { intros e He _ e' [_ He']%list_elem_of_filter Hg.
    apply list_elem_of_lookup in He as [k Hk], He' as [k' Hk'].
    assert (k' = k) as ->; [| congruence].
    apply (NoDup_lookup (guid <$> elements) k' k (guid e)); [done | |];
      rewrite list_lookup_fmap; [rewrite Hk' | rewrite Hk]; simpl; congruence. }
  assert (filter (λ e, etype e = etype e1) problem
          = filter (λ e, etype e = etype e1) (problem_elements_of l1 analysis)
            ++ e1 :: filter (λ e, etype e = etype e1) (problem_elements_of l2 analysis)
            ++ e2 :: filter (λ e, etype e = etype e1) (problem_elements_of l3 analysis))
    as Hsplit.
  { subst problem. unfold problem_elements_of. rewrite Hl.
    rewrite filter_app, filter_cons_True, filter_app, filter_cons_True by done.
    rewrite filter_app, filter_cons_True, filter_app, filter_cons_True by done.
    done. }
  rewrite Hsplit in Hsteps.
  destruct (steps_increasing _ _ _ _ _ _ _ _ _ _ _ Hsteps) as (C1 & C2 & HC1 & HC12 & Hv1 & Hv2).
  { rewrite <- Hsplit. apply (sublist_NoDup _ (guid <$> elements)); [done |].
    apply fmap_sublist. etrans; apply sublist_filter. }
  exists m, C1, C2. split_and!; [done.. | |].
  - rewrite Hlater; [done |]. intros e He Hg.
    rewrite (Hsame e1 ltac:(by apply list_elem_of_lookup_2 in Hi) Hnd e He Hg). done.
  - rewrite Hlater; [done |]. intros e He Hg.
    rewrite (Hsame e2 ltac:(by apply list_elem_of_lookup_2 in Hj) Hnd e He Hg). done.
Qed.

(** X4 on the two walls of the example that share [W-001]. *)
Lemma later_element_greater_counter_witness :
  ∃ a m C1 C2,
    analyze_existing_ids (existing_ids_of snapshot) = Some a
    ∧ generate_new_ids_for_problem_elements init snapshot.*1 a = Some m
    ∧ C1 < C2
    ∧ m !! guid E1 = Some (format_id (prefix_for init (etype E1)) C1)
    ∧ m !! guid E2 = Some (format_id (prefix_for init (etype E1)) C2).
Proof.
  destruct (analysis_spec (existing_ids_of snapshot)) as (a & Ha & _).
  assert (elements_needing_new_ids <$> analyze_existing_ids (existing_ids_of snapshot)
          = Some {[ guid E1; guid E2; guid E4 ]}) as Hn by (vm_compute; reflexivity).
  rewrite Ha in Hn. injection Hn as Hn.
  destruct (later_element_greater_counter init snapshot.*1 a 0 1 E1 E2)
    as (m & C1 & C2 & Hm & _ & Hlt & Hv1 & Hv2).
  - by_computing.
  - reflexivity.
  - reflexivity.
  - lia.
  - reflexivity.
  - rewrite Hn. by_computing.
  - rewrite Hn. by_computing.
  - exists a, m, C1, C2. split_and!; assumption.
Defined.

(** ** Facts about the elements and identifiers read from the host *)

Module FetchFacts.

Import AssignerHost AnalysisFacts GenerateFacts FinalFacts.

(** The elements fetched for a list of types, type after type. *)
Lemma fetch_snoc self0 types T G :
  get_all_elements_fast
    {| element_prefixes := self0; available_element_types := types ++ [T] |} G
  = get_all_elements_fast
      {| element_prefixes := self0; available_element_types := types |} G
    ++ match G T with
       | Some gs => (λ g, ElemData g T) <$> gs
       | None => []
       end.
Proof.
  unfold get_all_elements_fast. simpl. rewrite foldl_app. simpl.
  destruct (G T); [done | by rewrite app_nil_r].
Qed.

Lemma fetch_elem self0 types G e :
  e ∈ get_all_elements_fast
        {| element_prefixes := self0; available_element_types := types |} G
  ↔ etype e ∈ types ∧ ∃ gs, G (etype e) = Some gs ∧ guid e ∈ gs.
Proof.
  induction types as [|T types IH] using rev_ind.
  - unfold get_all_elements_fast. simpl. split; [by intros ?%elem_of_nil |].
    by intros [?%elem_of_nil _].
  - rewrite fetch_snoc, !elem_of_app, IH, list_elem_of_singleton. split.
    + intros [[? ?] | He]; [by split; [left |] |].
      destruct (G T) as [gs|] eqn:HG; [| by apply elem_of_nil in He].
      apply list_elem_of_fmap in He as (g & -> & Hg). simpl.
      split; [by right | by exists gs].
    + intros [[? | HT] (gs & HG & Hg)]; [left; split; [done | by exists gs] |].
      right. rewrite <- HT, HG. apply list_elem_of_fmap. exists (guid e).
      split; [by destruct e; simpl in *; subst | done].
Qed.

Lemma keys_known_type (d : list (pystr * list elem_data)) B T :
  (∀ e, e ∈ B → etype e = T) → T ∈ d.*1 →
  (foldl (λ d e, dict_append (etype e) e d) d B).*1 = d.*1.
Proof.
  revert d. induction B as [|e B IH]; intros d HB HT; [done |]. simpl.
  assert (etype e = T) as -> by (apply HB; left).
  rewrite IH.
  - rewrite dict_append_keys. by rewrite decide_True.
  - intros e' He'. apply HB. by right.
  - rewrite dict_append_keys. by rewrite decide_True.
Qed.

Lemma keys_new_type (d : list (pystr * list elem_data)) B T :
  (∀ e, e ∈ B → etype e = T) → T ∉ d.*1 →
  (foldl (λ d e, dict_append (etype e) e d) d B).*1
  = d.*1 ++ match B with [] => [] | _ => [T] end.
Proof.
  intros HB HT. destruct B as [|e B]; [by rewrite app_nil_r |]. simpl.
  assert (etype e = T) as -> by (apply HB; left).
  rewrite (keys_known_type _ B T).
  - rewrite dict_append_keys. by rewrite decide_False.
  - intros e' He'. apply HB. by right.
  - rewrite dict_append_keys, decide_False by done.
    apply elem_of_app. right. left.
Qed.

(** Whatever is filtered out of the fetched elements, its types come in
    the order of the list of types. *)
Lemma fetch_keys_sublist self0 types G (P : elem_data → Prop)
    `{∀ e, Decision (P e)} :
  NoDup types →
  (group_by_type
     (filter P (get_all_elements_fast
                  {| element_prefixes := self0;
                     available_element_types := types |} G))).*1
  `sublist_of` types.
Proof.
  induction types as [|T types IH] using rev_ind; intros Hnd.
  - done.
  - apply NoDup_app in Hnd as (Hnd & HT & _). specialize (IH Hnd).
    rewrite fetch_snoc, filter_app. unfold group_by_type in *.
    rewrite foldl_app. rewrite (keys_new_type _ _ T).
    + apply sublist_app; [done |].
      match goal with
      | |- match ?b with [] => [] | _ => _ end `sublist_of` _ => destruct b
      end; [apply sublist_nil_l | done].
    + intros e [_ He]%list_elem_of_filter.
      destruct (G T); [| by apply elem_of_nil in He].
      by apply list_elem_of_fmap in He as (g & -> & _).
    + intros Hin. apply (HT T); [| by apply list_elem_of_singleton].
      by apply (sublist_subseteq _ _ IH).
Qed.

(** The identifiers stored for the answers of the host: the elements
    paired with what was read, as far as the answers go. *)
Lemma store_ids_zip elements i all_id_values existing_ids :
  store_ids elements i all_id_values existing_ids
  = foldl (λ d '(e, element_id), <[guid e := element_id]> d) existing_ids
      (zip (drop i elements) (read_element_id <$> all_id_values)).
Proof.
  revert i existing_ids.
  induction all_id_values as [|w rest IH]; intros i d; simpl.
  - by rewrite zip_with_nil_r.
  - rewrite IH. destruct (elements !! i) as [e|] eqn:He.
    + by rewrite (drop_S _ _ _ He).
    + apply lookup_ge_None in He.
      by rewrite !drop_ge by lia.
Qed.

Lemma existing_ids_of_lookup (snapshot : list (elem_data * pystr)) e x :
  NoDup (guid <$> snapshot.*1) → (e, x) ∈ snapshot →
  existing_ids_of snapshot !! guid e = Some x.
Proof.
  unfold existing_ids_of.
  induction snapshot as [|[e' x'] l IH] using rev_ind; [by intros _ ?%elem_of_nil |].
  rewrite !fmap_app, foldl_app. simpl. intros Hnd [Hin | Heq]%elem_of_app.
  - apply NoDup_app in Hnd as (Hnd & Hdis & _).
    rewrite lookup_insert_ne; [by apply IH |].
    intros Hg. apply (Hdis (guid e)); [| rewrite <- Hg; left].
    apply list_elem_of_fmap. exists e. split; [done |].
    apply list_elem_of_fmap. by exists (e, x).
  - apply list_elem_of_singleton in Heq as [= -> ->]. apply lookup_insert_eq.
Qed.

Lemma read_failure_lookup elements g x :
  get_existing_ids_bulk elements None !! g = Some x →
  x = [] ∧ g ∈ guid <$> elements.
Proof.
  unfold get_existing_ids_bulk.
  induction elements as [|e l IH] using rev_ind; simpl; [by rewrite lookup_empty |].
  rewrite foldl_app, fmap_app, elem_of_app. simpl.
  destruct (decide (guid e = g)) as [<- | Hne].
  - rewrite lookup_insert_eq. intros [= <-]. split; [done |]. right. left.
  - rewrite lookup_insert_ne by done. intros [? ?]%IH. auto.
Qed.

Lemma read_failure_all elements e :
  e ∈ elements → get_existing_ids_bulk elements None !! guid e = Some [].
Proof.
  unfold get_existing_ids_bulk.
  induction elements as [|e' l IH] using rev_ind; [by intros ?%elem_of_nil |].
  rewrite foldl_app. simpl. intros He.
  destruct (decide (guid e' = guid e)) as [-> | Hne]; [apply lookup_insert_eq |].
  rewrite lookup_insert_ne by done. apply IH.
  apply elem_of_app in He as [? | ->%list_elem_of_singleton]; done.
Qed.

Lemma zip_fst_sublist {A B} (l : list A) (k : list B) :
  (zip l k).*1 `sublist_of` l.
Proof.
  revert k. induction l as [|x l IH]; intros [|y k]; simpl;
    [done | done | apply sublist_nil_l |].
  by apply sublist_skip.
Qed.

Lemma read_zip elements all_id_values :
  get_existing_ids_bulk elements (Some all_id_values)
  = existing_ids_of (zip elements (read_element_id <$> all_id_values)).
Proof.
  unfold get_existing_ids_bulk, existing_ids_of.
  by rewrite store_ids_zip, drop_0.
Qed.

(** What the dictionary holds for a listed element: what was read from the
    answer at its index, and nothing when the answers end before it. *)
Lemma read_lookup elements all_id_values i e :
  NoDup (guid <$> elements) → elements !! i = Some e →
  get_existing_ids_bulk elements (Some all_id_values) !! guid e
  = read_element_id <$> all_id_values !! i.
Proof.
  intros Hnd Hi. rewrite read_zip.
  set (reads := read_element_id <$> all_id_values).
  assert (NoDup (guid <$> (zip elements reads).*1)) as Hnd'.
  { apply (sublist_NoDup _ (guid <$> elements)); [done |].
    apply fmap_sublist, zip_fst_sublist. }
  destruct (all_id_values !! i) as [w|] eqn:Hw; simpl.
  - apply existing_ids_of_lookup; [done |].
    apply list_elem_of_lookup. exists i. apply lookup_zip_Some. split; [done |].
    subst reads. by rewrite list_lookup_fmap, Hw.
  - destruct (existing_ids_of (zip elements reads) !! guid e) as [x|] eqn:Hx; [| done].
    exfalso.
    assert (is_Some (existing_ids_of (zip elements reads) !! guid e)) as Hs
      by (by rewrite Hx).
    apply existing_ids_of_Some in Hs.
    apply list_elem_of_fmap in Hs as (e' & Hg & He').
    apply list_elem_of_fmap in He' as ([e'' x'] & -> & Hin). simpl in Hg.
    apply list_elem_of_lookup in Hin as [k Hk].
    apply lookup_zip_Some in Hk as [Hk Hr].
    assert (k = i) as ->.
    { apply (NoDup_lookup (guid <$> elements) k i (guid e)); [done | |];
        rewrite list_lookup_fmap; [rewrite Hk | rewrite Hi]; simpl; congruence. }
    subst reads. rewrite list_lookup_fmap, Hw in Hr. done.
Qed.

Lemma read_keys elements all_id_values g :
  is_Some (get_existing_ids_bulk elements (Some all_id_values) !! g) →
  g ∈ guid <$> elements.
Proof.
  rewrite read_zip. intros Hs%existing_ids_of_Some. revert Hs.
  apply sublist_subseteq, fmap_sublist, zip_fst_sublist.
Qed.

End FetchFacts.

Import AssignerHost FetchFacts.

(** X5.  The script fetches the elements type by type: an element is
    fetched exactly when its type is in the list of types and the host
    answered for that type with it, a type for which the host raises being
    skipped.  On the fetched elements the generation handles the types in
    the order of that list. *)
Theorem fetched_types_in_list_order (self : SmartUniqueIDAssigner)
    (GetElementsByType : pystr → option (list guid_t)) (analysis : analysis_t) :
  NoDup (available_element_types self) →
  ∃ Ts R' m,
    generate_new_ids_for_problem_elements self
      (get_all_elements_fast self GetElementsByType) analysis = Some m
    ∧ runs self
        (problem_elements_of (get_all_elements_fast self GetElementsByType) analysis)
        Ts (existing_unique_ids analysis) ∅ R' m
    ∧ Ts `sublist_of` available_element_types self
    ∧ (∀ e, e ∈ get_all_elements_fast self GetElementsByType
            ↔ etype e ∈ available_element_types self
              ∧ ∃ gs, GetElementsByType (etype e) = Some gs ∧ guid e ∈ gs).
Proof.
  intros Hnd.
  destruct (generate_runs self (get_all_elements_fast self GetElementsByType) analysis)
    as (R' & m & Hm & Hruns).
  eexists _, R', m. split_and!; [done | done | |].
  - destruct self as [prefixes types]. unfold problem_elements_of.
    by apply fetch_keys_sublist.
  - destruct self as [prefixes types]. apply fetch_elem.
Qed.

(** X5 with a host that has two walls and raises for every other type. *)
Lemma fetched_types_in_list_order_witness :
  NoDup (available_element_types init)
  ∧ ∃ Ts R' m,
      generate_new_ids_for_problem_elements init
        (get_all_elements_fast init
           (λ T, if decide (T = str "Wall") then Some [str "E1"; str "E2"] else None))
        {| total_elements := 2; unique_ids := 0; empty_ids := 2;
           duplicate_count := 0;
           elements_needing_new_ids := {[ str "E1"; str "E2" ]};
           existing_unique_ids := ∅; duplicate_elements := ∅ |} = Some m
      ∧ runs init
          (problem_elements_of
             (get_all_elements_fast init
                (λ T, if decide (T = str "Wall")
                      then Some [str "E1"; str "E2"] else None))
             {| total_elements := 2; unique_ids := 0; empty_ids := 2;
                duplicate_count := 0;
                elements_needing_new_ids := {[ str "E1"; str "E2" ]};
                existing_unique_ids := ∅; duplicate_elements := ∅ |})
          Ts ∅ ∅ R' m
      ∧ Ts `sublist_of` available_element_types init.
Proof.
  assert (NoDup (available_element_types init)) as Hnd by by_computing.
  split; [assumption |].
  destruct (fetched_types_in_list_order init
              (λ T, if decide (T = str "Wall") then Some [str "E1"; str "E2"] else None)
              {| total_elements := 2; unique_ids := 0; empty_ids := 2;
                 duplicate_count := 0;
                 elements_needing_new_ids := {[ str "E1"; str "E2" ]};
                 existing_unique_ids := ∅; duplicate_elements := ∅ |} Hnd)
    as (Ts & R' & m & Hm & Hruns & Hsub & _).
  exists Ts, R', m. split_and!; assumption.
Defined.

(** X6.  With distinct GUIDs the dictionary of existing identifiers gives
    back, for the element at an index, what was read from the answer of the
    host at that index, and nothing for an element the answers do not reach;
    answers beyond the last element are ignored, so the dictionary never has
    a key that is not the GUID of a listed element.  It is the dictionary of
    the elements paired with the identifiers read. *)
Theorem existing_ids_read_back (elements : list elem_data)
    (all_id_values : list (list (option pystr))) :
  NoDup (guid <$> elements) →
  (∀ i e, elements !! i = Some e →
     get_existing_ids_bulk elements (Some all_id_values) !! guid e
     = read_element_id <$> all_id_values !! i)
  ∧ (∀ g, is_Some (get_existing_ids_bulk elements (Some all_id_values) !! g) →
          g ∈ guid <$> elements)
  ∧ get_existing_ids_bulk elements (Some all_id_values)
    = existing_ids_of (zip elements (read_element_id <$> all_id_values)).
Proof.
  intros Hnd. split_and!.
  - intros i e. by apply read_lookup.
  - apply read_keys.
  - apply read_zip.
Qed.

(** X6 on two walls and three answers, the second without value. *)
Lemma existing_ids_read_back_witness :
  NoDup (guid <$> [E1; E2])
  ∧ get_existing_ids_bulk [E1; E2]
      (Some [[Some (str "W-001")]; [None]; [Some (str "W-009")]]) !! guid E1
    = Some (str "W-001")
  ∧ get_existing_ids_bulk [E1; E2]
      (Some [[Some (str "W-001")]; [None]; [Some (str "W-009")]]) !! guid E2
    = Some (str "").
Proof.
  assert (NoDup (guid <$> [E1; E2])) as Hnd by by_computing.
  split; [assumption |].
  destruct (existing_ids_read_back [E1; E2]
              [[Some (str "W-001")]; [None]; [Some (str "W-009")]] Hnd)
    as (Hread & _ & _).
  split.
  - exact (Hread 0%nat E1 eq_refl).
  - exact (Hread 1%nat E2 eq_refl).
Defined.

(** X7.  When the bulk read of the identifiers raises, the script goes on
    with an empty identifier for every element: no identifier is kept, and
    the generation assigns a new identifier to every listed element,
    whatever the host stores for it. *)
Theorem read_failure_renumbers_everything (self : SmartUniqueIDAssigner)
    (elements : list elem_data) :
  ∃ a m,
    analyze_existing_ids (get_existing_ids_bulk elements None) = Some a
    ∧ generate_new_ids_for_problem_elements self elements a = Some m
    ∧ existing_unique_ids a = ∅
    ∧ unique_ids a = O
    ∧ ∀ e, e ∈ elements → is_Some (m !! guid e).
Proof.
  destruct (analysis_counts (get_existing_ids_bulk elements None))
    as (a & Ha & _ & _ & _ & Hunique & _).
  destruct (generate_runs self elements a) as (R' & m & Hm & _).
  destruct (mapping_spec self elements a m Hm) as (_ & _ & Hdom & _).
  assert (existing_unique_ids a = ∅) as Hnone.
  { apply set_eq. intros s. split; [| by intros ?%not_elem_of_empty].
    intros (g & (x & Hx & Hne & _) & _)%(unique_iff _ a Ha).
    apply read_failure_lookup in Hx as [-> _]. done. }
  exists a, m. split_and!; [done.. | by rewrite Hunique, Hnone, size_empty |].
  intros e He. apply Hdom. split; [by apply list_elem_of_fmap_2 |].
  apply (needing_iff _ a Ha). left. exists []. split; [| done].
  by apply read_failure_all.
Qed.

(** X8.  An element the answers of the host do not reach has no entry in
    the dictionary of existing identifiers, and the generation never gives
    it a new identifier. *)
Theorem unanswered_element_untouched (self : SmartUniqueIDAssigner)
    (elements : list elem_data) (all_id_values : list (list (option pystr)))
    (i : nat) (e : elem_data) :
  NoDup (guid <$> elements) →
  elements !! i = Some e →
  (length all_id_values ≤ i)%nat →
  ∃ a m,
    analyze_existing_ids (get_existing_ids_bulk elements (Some all_id_values))
    = Some a
    ∧ generate_new_ids_for_problem_elements self elements a = Some m
    ∧ get_existing_ids_bulk elements (Some all_id_values) !! guid e = None
    ∧ m !! guid e = None.
Proof.
  intros Hnd Hi Hlen.
  set (existing_ids := get_existing_ids_bulk elements (Some all_id_values)).
  destruct (analysis_spec existing_ids) as (a & Ha & _).
  destruct (generate_runs self elements a) as (R' & m & Hm & _).
  destruct (mapping_spec self elements a m Hm) as (_ & _ & Hdom & _).
  assert (existing_ids !! guid e = None) as Hnone.
  { subst existing_ids. rewrite (read_lookup _ _ i e Hnd Hi).
    by rewrite (proj2 (lookup_ge_None _ _) Hlen). }
  exists a, m. split_and!; [done.. |].
  destruct (m !! guid e) as [v|] eqn:Hv; [| done]. exfalso.
  assert (is_Some (m !! guid e)) as [_ Hn]%Hdom by (by rewrite Hv).
  apply (needing_iff existing_ids a Ha) in Hn
    as [(x & Hx & _) | (s & (x & Hx & _) & _)]; congruence.
Qed.

(** X8 on two walls of which the host answers for the first only. *)
Lemma unanswered_element_untouched_witness :
  NoDup (guid <$> [E1; E2])
  ∧ ∃ a m,
      analyze_existing_ids (get_existing_ids_bulk [E1; E2] (Some [[None]])) = Some a
      ∧ generate_new_ids_for_problem_elements init [E1; E2] a = Some m
      ∧ m !! guid E2 = None.
Proof.
  assert (NoDup (guid <$> [E1; E2])) as Hnd by by_computing.
  split; [assumption |].
  destruct (unanswered_element_untouched init [E1; E2] [[None]] 1 E2 Hnd eq_refl)
    as (a & m & Ha & Hm & _ & Hnone); [simpl; lia |].
  exists a, m. split_and!; assumption.
Defined.

(** ** Facts about the write-back and the report *)

Module WriteBackFacts.

Import AssignerHost GenerateFacts FinalFacts.

#[local] Instance set_outcome_eq_dec : EqDecision set_outcome.
Proof. solve_decision. Defined.

Section write_back.
Variable lower : pystr → pystr.
Variable SetPropertyValuesOfElements : guid_t → pystr → set_outcome.





End write_back.

Lemma count_of_incr (k : pystr) (d : gmap pystr nat) (T : pystr) :
  count_of (incr k d) T
  = if decide (k = T) then S (count_of d T) else count_of d T.
Proof.
  unfold count_of, incr. destruct (decide (k = T)) as [-> | Hk].
  - by rewrite lookup_insert_eq.
  - by rewrite lookup_insert_ne.
Qed.

(** The three counters of the report after the loop over [elements]. *)
Lemma count_by_type_spec (elements : list elem_data)
    (new_id_mapping : gmap guid_t pystr) (T : pystr) :
  count_of (count_by_type elements new_id_mapping).1.1 T
  = length (filter (λ e, etype e = T) elements)
  ∧ count_of (count_by_type elements new_id_mapping).1.2 T
    = length (filter (λ e, etype e = T ∧ new_id_mapping !! guid e = None) elements)
  ∧ count_of (count_by_type elements new_id_mapping).2 T
    = length (filter (λ e, etype e = T ∧ is_Some (new_id_mapping !! guid e)) elements).
Proof.
  unfold count_by_type.
  induction elements as [|e l IH] using rev_ind; [done |].
  rewrite foldl_snoc, !filter_app, !length_app.
  destruct (foldl (count_element new_id_mapping) (∅, ∅, ∅) l) as [[total kept] new].
  cbn [fst snd] in IH. destruct IH as (Htotal & Hkept & Hnew).
  unfold count_element.
  destruct (new_id_mapping !! guid e) as [v|] eqn:Hv; cbn [fst snd];
    rewrite !count_of_incr, ?Htotal, ?Hkept, ?Hnew;
    destruct (decide (etype e = T)) as [HT | HT].
  - rewrite (filter_cons_True (λ e, etype e = T)) by done.
    rewrite (filter_cons_False (λ e, etype e = T ∧ new_id_mapping !! guid e = None))
      by (rewrite Hv; naive_solver).
    rewrite (filter_cons_True (λ e, etype e = T ∧ is_Some (new_id_mapping !! guid e)))
      by (rewrite Hv; naive_solver).
    rewrite !filter_nil. simpl. lia.
  - rewrite !filter_cons_False by naive_solver. rewrite !filter_nil. simpl. lia.
  - rewrite (filter_cons_True (λ e, etype e = T)) by done.
    rewrite (filter_cons_True (λ e, etype e = T ∧ new_id_mapping !! guid e = None))
      by (rewrite Hv; naive_solver).
    rewrite (filter_cons_False (λ e, etype e = T ∧ is_Some (new_id_mapping !! guid e)))
      by (rewrite Hv; intros [_ [? ?]]; done).
    rewrite !filter_nil. simpl. lia.
  - rewrite !filter_cons_False by naive_solver. rewrite !filter_nil. simpl. lia.
Qed.

Lemma filter_ext_in {A} (P Q : A → Prop) `{∀ x, Decision (P x)}
    `{∀ x, Decision (Q x)} (l : list A) :
  (∀ x, x ∈ l → P x ↔ Q x) → filter P l = filter Q l.
Proof.
  induction l as [|a l IH]; intros Hl; [done |].
  rewrite !filter_cons, IH by (intros x Hx; apply Hl; by right).
  destruct (decide (P a)) as [HP | HP], (decide (Q a)) as [HQ | HQ]; try done;
    exfalso; [apply HQ | apply HP]; by apply (Hl a); [left |].
Qed.

Lemma filter_split_length {A} (P Q : A → Prop) `{∀ x, Decision (P x)}
    `{∀ x, Decision (Q x)} (l : list A) :
  (length (filter (λ x, P x ∧ ¬ Q x) l) + length (filter (λ x, P x ∧ Q x) l)
   = length (filter P l))%nat.
Proof.
  induction l as [|a l IH]; [done |]. rewrite !filter_cons.
  destruct (decide (P a)) as [HP | HP], (decide (Q a)) as [HQ | HQ];
    repeat case_decide; simpl; try lia; naive_solver.
Qed.

End WriteBackFacts.

Import WriteBackFacts.


(** X10.  The breakdown of the report adds up for every type: kept plus
    newly assigned is the number of elements of the type, and the number of
    newly assigned is the number of elements of the type that needed an
    identifier. *)
Theorem report_breakdown_adds_up (self : SmartUniqueIDAssigner)
    (elements : list elem_data) (analysis : analysis_t) (T : pystr) :
  ∃ m,
    generate_new_ids_for_problem_elements self elements analysis = Some m
    ∧ (count_of (count_by_type elements m).1.2 T
       + count_of (count_by_type elements m).2 T
       = count_of (count_by_type elements m).1.1 T)%nat
    ∧ count_of (count_by_type elements m).1.1 T
      = length (filter (λ e, etype e = T) elements)
    ∧ count_of (count_by_type elements m).2 T
      = length (filter (λ e, etype e = T)
                  (problem_elements_of elements analysis)).
Proof.
  destruct (generate_runs self elements analysis) as (R' & m & Hm & _).
  destruct (mapping_spec self elements analysis m Hm) as (_ & _ & Hdom & _).
  destruct (count_by_type_spec elements m T) as (Htotal & Hkept & Hnew).
  exists m. split_and!; [done | | done |].
  - rewrite Htotal, Hkept, Hnew.
    rewrite <- (filter_split_length (λ e, etype e = T)
                  (λ e, is_Some (m !! guid e)) elements).
    f_equal. f_equal. apply list_filter_iff. intros e.
    rewrite eq_None_not_Some. done.
  - rewrite Hnew. unfold problem_elements_of. rewrite list_filter_filter.
    f_equal. apply filter_ext_in. intros e He. rewrite Hdom.
    split; [naive_solver |]. intros [? ?]. split_and!; [done | | done].
    by apply list_elem_of_fmap_2.
Qed.

(** ** Facts about the dictionaries read for the export *)

Module StoreFacts.

(** A dictionary filled entry after entry from a list of elements paired
    with what is stored for them. *)
Section store.
Context {V : Type}.
Implicit Types (l : list (elem_data * V)) (d : gmap guid_t V).

Lemma store_lookup_inv l d g v :
  foldl (λ d p, <[guid p.1 := p.2]> d) d l !! g = Some v →
  d !! g = Some v ∨ ∃ e, (e, v) ∈ l ∧ guid e = g.
Proof.
  revert d. induction l as [|[e x] l IH]; intros d; simpl; [by left |].
  intros [Hd | (e' & Hin & Hg)]%IH.
  - destruct (decide (guid e = g)) as [<- | Hne].
    + rewrite lookup_insert_eq in Hd. injection Hd as ->.
      right. exists e. split; [left | done].
    + rewrite lookup_insert_ne in Hd by done. by left.
  - right. exists e'. split; [by right | done].
Qed.

Lemma store_other l d g :
  g ∉ guid <$> l.*1 → foldl (λ d p, <[guid p.1 := p.2]> d) d l !! g = d !! g.
Proof.
  revert d. induction l as [|[e x] l IH]; intros d; simpl; [done |].
  intros [Hne Hg]%not_elem_of_cons. rewrite IH by done.
  by rewrite lookup_insert_ne.
Qed.

Lemma store_is_Some l d g :
  is_Some (foldl (λ d p, <[guid p.1 := p.2]> d) d l !! g)
  ↔ is_Some (d !! g) ∨ g ∈ guid <$> l.*1.
Proof.
  revert d. induction l as [|[e x] l IH]; intros d; simpl.
  - split; [by left |]. by intros [? | ?%elem_of_nil].
  - rewrite IH, lookup_insert_is_Some', elem_of_cons. naive_solver.
Qed.

Lemma store_lookup l d e v :
  NoDup (guid <$> l.*1) → (e, v) ∈ l →
  foldl (λ d p, <[guid p.1 := p.2]> d) d l !! guid e = Some v.
Proof.
  revert d. induction l as [|[e' x] l IH]; intros d; simpl;
    [by intros _ ?%elem_of_nil |].
  intros [Hnot Hnd]%NoDup_cons [[= -> ->] | Hin]%elem_of_cons.
  - rewrite store_other by done. apply lookup_insert_eq.
  - by apply IH.
Qed.

End store.

(** The elements a list of answers reaches. *)
Lemma zip_with_fst {A B C} (f : A → B → C) (l : list A) (k : list B) :
  (zip_with (λ x y, (x, f x y)) l k).*1 = take (length k) l.
Proof.
  revert k. induction l as [|x l IH]; intros [|y k]; simpl; try done.
  by rewrite IH.
Qed.

Lemma guid_not_reached (elements : list elem_data) n i e :
  NoDup (guid <$> elements) → elements !! i = Some e → (n ≤ i)%nat →
  guid e ∉ guid <$> take n elements.
Proof.
  intros Hnd Hi Hn (e' & Hg & (k & Hk & Hlt)%elem_of_take)%list_elem_of_fmap.
  assert (k = i); [| lia].
  apply (NoDup_lookup (guid <$> elements) k i (guid e)); [done | |];
    rewrite list_lookup_fmap; [rewrite Hk | rewrite Hi]; simpl; congruence.
Qed.

Lemma same_guid_same_element (elements : list elem_data) e e' :
  NoDup (guid <$> elements) → e ∈ elements → e' ∈ elements →
  guid e = guid e' → e = e'.
Proof.
  intros Hnd [i Hi]%list_elem_of_lookup [k Hk]%list_elem_of_lookup Hg.
  assert (i = k) as ->; [| congruence].
  apply (NoDup_lookup (guid <$> elements) i k (guid e)); [done | |];
    rewrite list_lookup_fmap; [rewrite Hi | rewrite Hk]; simpl; congruence.
Qed.

End StoreFacts.

(** ** Facts about the properties read for the export *)

Module PropertiesFacts.

Import ExtractorHost StoreFacts.

Lemma fetch_concat (G : pystr → option (list guid_t)) (types : list pystr)
    (acc : list elem_data) :
  foldl (λ all_elements elem_type,
           match G elem_type with
           | Some elements =>
               all_elements ++ ((λ g, ElemData g elem_type) <$> elements)
           | None => all_elements
           end) acc types
  = acc ++ concat ((λ T, (λ g, ElemData g T) <$> default [] (G T)) <$> types).
Proof.
  revert acc. induction types as [|T types IH]; intros acc; simpl.
  - by rewrite app_nil_r.
  - rewrite IH. destruct (G T); simpl; [by rewrite app_assoc | done].
Qed.

(** A name keeps what it had when every property of that name in the
    walked range is one whose value cannot be read. *)
Lemma store_properties_skipped (details : list (option pystr)) (j : nat)
    (vals : list value_item) (data : gmap pystr pystr) (k : pystr) :
  (∀ i, (j ≤ i < j + length vals)%nat → details !! i = Some (Some k) →
        vals !! (i - j)%nat = Some ErrorItem) →
  store_properties details j vals data !! k = data !! k.
Proof.
  revert j data. induction vals as [|pv vals IH]; intros j data Hno; [done |].
  cbn [store_properties]. rewrite IH.
  - destruct (details !! j) as [[name|]|] eqn:Hj; [| done..].
    destruct (stored_text pv) as [text|] eqn:Hpv; [| done].
    destruct (decide (name = k)) as [-> | Hne]; [| by rewrite lookup_insert_ne].
    specialize (Hno j). rewrite Nat.sub_diag in Hno. simpl in Hno.
    assert (Some pv = Some ErrorItem) as [= ->] by (apply Hno; [lia | done]).
    done.
  - intros i Hi Hd. specialize (Hno i). simpl in Hno.
    replace (i - j)%nat with (S (i - S j)) in Hno by lia.
    apply Hno; [lia | done].
Qed.

(** A name no property of the walked range has keeps what it had. *)
Lemma store_properties_other (details : list (option pystr)) (j : nat)
    (vals : list value_item) (data : gmap pystr pystr) (k : pystr) :
  (∀ i, (j ≤ i < j + length vals)%nat → details !! i ≠ Some (Some k)) →
  store_properties details j vals data !! k = data !! k.
Proof.
  intros Hno. apply store_properties_skipped. intros i Hi Hd.
  by destruct (Hno i Hi).
Qed.

(** The last property of a name whose value can be read decides what is
    stored under it. *)
Lemma store_properties_last (details : list (option pystr)) (j : nat)
    (vals : list value_item) (data : gmap pystr pystr) (k : pystr) (i : nat)
    (item : value_item) (text : pystr) :
  (j ≤ i)%nat → details !! i = Some (Some k) →
  vals !! (i - j)%nat = Some item → stored_text item = Some text →
  (∀ i', (i < i' < j + length vals)%nat → details !! i' = Some (Some k) →
         vals !! (i' - j)%nat = Some ErrorItem) →
  store_properties details j vals data !! k = Some text.
Proof.
  revert j data.
  induction vals as [|pv vals IH]; intros j data Hji Hi Hpv Htext Hno; [done |].
  cbn [store_properties]. destruct (decide (i = j)) as [-> | Hne].
  - rewrite Nat.sub_diag in Hpv. injection Hpv as ->.
    rewrite store_properties_skipped.
    + rewrite Hi, Htext. apply lookup_insert_eq.
    + intros i' Hi' Hd. specialize (Hno i'). simpl in Hno.
      replace (i' - j)%nat with (S (i' - S j)) in Hno by lia.
      apply Hno; [lia | done].
  - apply IH; [lia | done | | done |].
    + replace (i - j)%nat with (S (i - S j)) in Hpv by lia. done.
    + intros i' Hi' Hd. specialize (Hno i'). simpl in Hno.
      replace (i' - j)%nat with (S (i' - S j)) in Hno by lia.
      apply Hno; [lia | done].
Qed.

Lemma store_properties_keeps (details : list (option pystr)) (j : nat)
    (vals : list value_item) (data : gmap pystr pystr) (k : pystr) :
  is_Some (data !! k) → is_Some (store_properties details j vals data !! k).
Proof.
  revert j data. induction vals as [|pv vals IH]; intros j data Hk; [done |].
  cbn [store_properties]. apply IH.
  destruct (details !! j) as [[name|]|]; [| done..].
  destruct (stored_text pv); [| done].
  apply lookup_insert_is_Some'. by right.
Qed.

Lemma store_properties_keys (details : list (option pystr)) (j : nat)
    (vals : list value_item) (data : gmap pystr pystr) (k : pystr) :
  is_Some (store_properties details j vals data !! k) →
  is_Some (data !! k) ∨ Some k ∈ details.
Proof.
  revert j data. induction vals as [|pv vals IH]; intros j data; [by left |].
  cbn [store_properties]. intros [Hk | ?]%IH; [| by right].
  destruct (details !! j) as [[name|]|] eqn:Hj; [| by left..].
  destruct (stored_text pv); [| by left].
  apply lookup_insert_is_Some' in Hk as [-> | ?]; [| by left].
  right. by apply list_elem_of_lookup_2 in Hj.
Qed.

Lemma store_elements_zip elements details i answers results :
  store_elements elements details i answers results
  = foldl (λ d p, <[guid p.1 := p.2]> d) results
      (zip_with (λ e vals,
                   (e, store_properties details 0 vals
                         (basic_data (etype e) (guid e))))
         (drop i elements) answers).
Proof.
  revert i results. induction answers as [|w rest IH]; intros i d; simpl.
  - by rewrite zip_with_nil_r.
  - rewrite IH. destruct (elements !! i) as [e|] eqn:He.
    + by rewrite (drop_S _ _ _ He).
    + apply lookup_ge_None in He. by rewrite !drop_ge by lia.
Qed.

Lemma basic_only_fold (elements : list elem_data) (d : gmap guid_t (gmap pystr pystr)) :
  foldl (λ results elem_data,
           <[guid elem_data := basic_data (etype elem_data) (guid elem_data)]>
             results) d elements
  = foldl (λ d p, <[guid p.1 := p.2]> d) d
      ((λ e, (e, basic_data (etype e) (guid e))) <$> elements).
Proof. by rewrite foldl_fmap. Qed.

(** What [get_all_properties_bulk] stores is the dictionary of a listed
    element with that GUID, filled from one of the answers or left as it
    started. *)
Lemma properties_lookup_inv elements details answer g data :
  get_all_properties_bulk elements (Some details) answer !! g = Some data →
  ∃ e vals, e ∈ elements ∧ guid e = g
    ∧ data = store_properties details 0 vals (basic_data (etype e) g).
Proof.
  unfold get_all_properties_bulk. destruct answer as [answers|].
  - rewrite store_elements_zip, drop_0.
    intros [He | (e & Hin & Hg)]%store_lookup_inv; [by rewrite lookup_empty in He |].
    apply elem_of_lookup_zip_with in Hin as (i & e' & vals & [= <- ->] & Hi & _).
    exists e, vals. subst g. split_and!; [| done..].
    by apply list_elem_of_lookup_2 in Hi.
  - rewrite basic_only_fold.
    intros [He | (e & Hin & Hg)]%store_lookup_inv; [by rewrite lookup_empty in He |].
    apply list_elem_of_fmap in Hin as (e' & [= <- ->] & Hin).
    exists e, []. subst g. by split_and!.
Qed.

(** With distinct GUIDs, what is stored for the element at an index. *)
Lemma properties_lookup elements details answers i e :
  NoDup (guid <$> elements) → elements !! i = Some e →
  get_all_properties_bulk elements (Some details) (Some answers) !! guid e
  = (λ vals, store_properties details 0 vals (basic_data (etype e) (guid e)))
    <$> answers !! i.
Proof.
  intros Hnd Hi. unfold get_all_properties_bulk.
  rewrite store_elements_zip, drop_0.
  destruct (answers !! i) as [vals|] eqn:Hv; simpl.
  - apply (store_lookup _ _ e).
    + rewrite zip_with_fst. apply (sublist_NoDup _ (guid <$> elements)); [done |].
      apply fmap_sublist, sublist_take.
    + apply elem_of_lookup_zip_with. by exists i, e, vals.
  - rewrite store_other; [apply lookup_empty |].
    rewrite zip_with_fst. apply (guid_not_reached _ _ i); [done..|].
    by apply lookup_ge_None.
Qed.

(** Every element the answers reach, or every element when the bulk read
    raises, has a dictionary. *)
Lemma properties_is_Some elements details answer e :
  e ∈ elements →
  match answer with
  | Some answers => (length elements ≤ length answers)%nat
  | None => True
  end →
  is_Some (get_all_properties_bulk elements (Some details) answer !! guid e).
Proof.
  intros He Hlen. unfold get_all_properties_bulk. destruct answer as [answers|].
  - rewrite store_elements_zip, drop_0. apply store_is_Some. right.
    rewrite zip_with_fst, take_ge by done. by apply list_elem_of_fmap_2.
  - rewrite basic_only_fold. apply store_is_Some. right.
    rewrite <- !list_fmap_compose. apply list_elem_of_fmap. by exists e.
Qed.

End PropertiesFacts.

(** ** Facts about the classifications read for the export *)

Module ClassificationFacts.

Import Extractor ExtractorHost StoreFacts.

Lemma clean_system_name_chars (name : pystr) (c : N) :
  c ∈ clean_system_name name → c ≠ 32 ∧ c ≠ 45 ∧ c ≠ 46.
Proof.
  unfold clean_system_name, replace_char. rewrite <- !list_fmap_compose.
  intros (x & -> & _)%list_elem_of_fmap. simpl.
  repeat case_decide; lia.
Qed.

Lemma classification_key_not_fixed (name : pystr) :
  str "Classification_" ++ name ∉ fixed_columns.
Proof.
  unfold fixed_columns. rewrite !elem_of_cons, elem_of_nil.
  intros [H | [H | []]]; apply (f_equal head) in H; vm_compute in H; discriminate.
Qed.

Lemma add_classifications_keys (names : gmap pystr pystr)
    (w : list (option (pystr * option pystr))) (data : gmap pystr pystr)
    (col : pystr) :
  is_Some (foldl (add_classification names) data w !! col) →
  is_Some (data !! col)
  ∨ ∃ name, col = str "Classification_" ++ clean_system_name name.
Proof.
  revert data. induction w as [|c w IH]; intros data; simpl; [by left |].
  intros [Hc | ?]%IH; [| by right].
  destruct c as [[system_guid item]|]; [| by left].
  cbn [add_classification] in Hc.
  apply lookup_insert_is_Some' in Hc as [<- | ?]; [right; eauto | by left].
Qed.

Lemma store_classifications_Some (elements : list elem_data)
    (names : gmap pystr pystr) (i : nat)
    (answers : list (list (option (pystr * option pystr))))
    (c : gmap guid_t (gmap pystr pystr)) :
  (i + length answers ≤ length elements)%nat →
  store_classifications elements names i answers c
  = Some (foldl (λ d p, <[guid p.1 := p.2]> d) c
            (zip_with (λ e w, (e, foldl (add_classification names) ∅ w))
               (drop i elements) answers)).
Proof.
  revert i c. induction answers as [|w rest IH]; intros i c Hlen; simpl.
  - by rewrite zip_with_nil_r.
  - simpl in Hlen. destruct (elements !! i) as [e|] eqn:He.
    + rewrite IH by lia. by rewrite (drop_S _ _ _ He).
    + apply lookup_ge_None in He. lia.
Qed.

Lemma store_classifications_None (elements : list elem_data)
    (names : gmap pystr pystr) (i : nat)
    (answers : list (list (option (pystr * option pystr))))
    (c : gmap guid_t (gmap pystr pystr)) :
  (i ≤ length elements < i + length answers)%nat →
  store_classifications elements names i answers c = None.
Proof.
  revert i c. induction answers as [|w rest IH]; intros i c Hlen; simpl in *;
    [lia |].
  destruct (elements !! i) as [e|] eqn:He; [| done].
  apply lookup_lt_Some in He. apply IH. lia.
Qed.

Lemma no_classifications_fold (elements : list elem_data) :
  no_classifications elements
  = foldl (λ d p, <[guid p.1 := p.2]> d) ∅ ((λ e, (e, ∅)) <$> elements).
Proof. unfold no_classifications. by rewrite foldl_fmap. Qed.

Lemma no_classifications_inv elements g data :
  no_classifications elements !! g = Some data →
  data = ∅ ∧ g ∈ guid <$> elements.
Proof.
  rewrite no_classifications_fold.
  intros [He | (e & Hin & Hg)]%store_lookup_inv; [by rewrite lookup_empty in He |].
  apply list_elem_of_fmap in Hin as (e' & [= <- ->] & Hin).
  split; [done |]. subst g. by apply list_elem_of_fmap_2.
Qed.

Lemma no_classifications_all elements e :
  e ∈ elements → no_classifications elements !! guid e = Some ∅.
Proof.
  intros He.
  assert (is_Some (no_classifications elements !! guid e)) as [data Hd].
  { rewrite no_classifications_fold. apply store_is_Some. right.
    rewrite <- !list_fmap_compose. apply list_elem_of_fmap. by exists e. }
  by destruct (no_classifications_inv _ _ _ Hd) as [-> _].
Qed.

(** Whatever the host answers, a dictionary of classifications belongs to a
    listed element and has only keys made from the name of a system. *)
Lemma classifications_lookup_inv elements systems answer g data :
  get_classifications_fast elements systems answer !! g = Some data →
  g ∈ guid <$> elements
  ∧ ∀ col, is_Some (data !! col) →
      ∃ name, col = str "Classification_" ++ clean_system_name name.
Proof.
  assert (no_classifications elements !! g = Some data →
          g ∈ guid <$> elements
          ∧ ∀ col, is_Some (data !! col) →
              ∃ name, col = str "Classification_" ++ clean_system_name name)
    as Hno.
  { intros [-> ?]%no_classifications_inv. split; [done |].
    intros col [v Hv]. by rewrite lookup_empty in Hv. }
  unfold get_classifications_fast.
  destruct systems as [[|s l]|]; [by rewrite lookup_empty | | done].
  destruct answer as [answers|]; [| done].
  destruct (decide (length answers ≤ length elements)%nat) as [Hle | Hgt].
  - rewrite store_classifications_Some by (simpl; lia). simpl. rewrite drop_0.
    intros [He | (e & Hin & Hg)]%store_lookup_inv; [by rewrite lookup_empty in He |].
    apply elem_of_lookup_zip_with in Hin as (i & e' & w & [= <- ->] & Hi & _).
    split; [subst g; by apply list_elem_of_fmap_2, (list_elem_of_lookup_2 _ i) |].
    intros col [Hc | ?]%add_classifications_keys; [| done].
    destruct Hc as [v Hv]. by rewrite lookup_empty in Hv.
  - rewrite store_classifications_None by (simpl; lia). done.
Qed.

Lemma classifications_lookup elements s l answers i e :
  NoDup (guid <$> elements) → (length answers ≤ length elements)%nat →
  elements !! i = Some e →
  get_classifications_fast elements (Some (s :: l)) (Some answers) !! guid e
  = foldl (add_classification (system_names_of (s :: l))) ∅ <$> answers !! i.
Proof.
  intros Hnd Hle Hi. unfold get_classifications_fast.
  rewrite store_classifications_Some by (simpl; lia). simpl. rewrite drop_0.
  destruct (answers !! i) as [w|] eqn:Hw; simpl.
  - apply (store_lookup _ _ e).
    + rewrite zip_with_fst. apply (sublist_NoDup _ (guid <$> elements)); [done |].
      apply fmap_sublist, sublist_take.
    + apply elem_of_lookup_zip_with. by exists i, e, w.
  - rewrite store_other; [apply lookup_empty |].
    rewrite zip_with_fst. apply (guid_not_reached _ _ i); [done..|].
    by apply lookup_ge_None.
Qed.

End ClassificationFacts.

(** ** Facts about the export as a whole *)

Module ExportFacts.

Import Extractor ExtractorHost ExtractorFacts StoreFacts PropertiesFacts
  ClassificationFacts.

(** What the method has written when it has written a header: the
    header, and the rows of the first elements, each from the merged
    dictionary of its element. *)
Lemma extract_written (elements : list elem_data)
    (P C : gmap guid_t (gmap pystr pystr)) (t : table) :
  extract_to_csv elements P C = Some (Complete t)
  ∨ extract_to_csv elements P C = Some (RowRefused t) →
  header t = sorted_columns_of (all_columns_of P C)
  ∧ ∃ n : nat,
      rows t
      = take n ((λ e, complete_row_of (header t) (row_data_of C P (guid e)))
                <$> elements)
      ∧ (extract_to_csv elements P C = Some (Complete t) → n = length elements).
Proof.
  unfold extract_to_csv.
  destruct elements as [|e0 elements0] eqn:He; [by intros [? | ?] |].
  rewrite <- He.
  destruct (forallb encodable _); [| by intros [? | ?]].
  destruct (write_rows_spec (sorted_columns_of (all_columns_of P C)) C elements
              P []) as (n & Hrows & _ & _ & Hend).
  destruct (write_rows _ _ _ _ _) as [[] written]; cbn [fst snd] in Hrows, Hend;
    intros [[= <-] | [= <-]]; cbn [header rows];
    (split; [done |]); exists n; by rewrite Hrows.
Qed.

(** With data the file accepts, every row is written. *)
Lemma extract_complete (elements : list elem_data)
    (P C : gmap guid_t (gmap pystr pystr)) :
  elements ≠ [] → writable P → writable C →
  extract_to_csv elements P C
  = Some (Complete
            {| header := sorted_columns_of (all_columns_of P C);
               rows := (λ e, complete_row_of
                               (sorted_columns_of (all_columns_of P C))
                               (row_data_of C P (guid e))) <$> elements |}).
Proof.
  intros Hne HP HC. unfold extract_to_csv.
  destruct elements as [|e0 elements0] eqn:He; [done |]. rewrite <- He.
  rewrite (columns_encodable _ _ HP HC).
  destruct (write_rows_spec (sorted_columns_of (all_columns_of P C)) C elements
              P []) as (n & Hrows & _ & _ & Hend).
  destruct (write_rows _ _ _ _ _) as [all_written written].
  cbn [fst snd] in Hrows, Hend.
  assert (all_written = true ∧ n = length elements) as [-> ->].
  { destruct all_written; [done |]. destruct Hend as (e & _ & Hrow).
    by rewrite row_encodable in Hrow. }
  rewrite app_nil_l, take_ge in Hrows by (by rewrite length_fmap).
  by rewrite Hrows.
Qed.

(** The cell of a row under a column. *)
Lemma cell_lookup (cols : list pystr) (C P : gmap guid_t (gmap pystr pystr))
    (g : guid_t) (j : nat) (col : pystr) :
  cols !! j = Some col →
  complete_row_of cols (row_data_of C P g) !! j
  = Some match default ∅ (C !! g) !! col with
         | Some item_name => item_name
         | None => default [] (default ∅ (P !! g) !! col)
         end.
Proof.
  intros Hj. unfold complete_row_of, row_data_of.
  rewrite list_lookup_fmap, Hj. simpl. f_equal. rewrite lookup_union.
  by destruct (default ∅ (C !! g) !! col), (default ∅ (P !! g) !! col).
Qed.

Lemma written_row (elements : list elem_data)
    (P C : gmap guid_t (gmap pystr pystr)) (t : table) (i : nat)
    (row : list pystr) :
  extract_to_csv elements P C = Some (Complete t)
  ∨ extract_to_csv elements P C = Some (RowRefused t) →
  rows t !! i = Some row →
  ∃ e, elements !! i = Some e
       ∧ row = complete_row_of (header t) (row_data_of C P (guid e)).
Proof.
  intros [_ (n & Hrows & _)]%extract_written. rewrite Hrows.
  intros [Hrow _]%lookup_take_Some.
  apply list_lookup_fmap_Some in Hrow as (e & He & ->). by exists e.
Qed.

Lemma header_fixed (P C : gmap guid_t (gmap pystr pystr)) :
  sorted_columns_of (all_columns_of P C) !! 0%nat = Some (str "Element_GUID")
  ∧ sorted_columns_of (all_columns_of P C) !! 1%nat = Some (str "Element_Type").
Proof. done. Qed.

(** No classification is stored under one of the two fixed columns. *)
Lemma classification_no_fixed elements systems answer (g : guid_t) (col : pystr) :
  col ∈ fixed_columns →
  default ∅ (get_classifications_fast elements systems answer !! g) !! col = None.
Proof.
  intros Hcol.
  destruct (get_classifications_fast elements systems answer !! g)
    as [data|] eqn:Hd; simpl; [| apply lookup_empty].
  destruct (data !! col) as [v|] eqn:Hv; [| done]. exfalso.
  destruct (classifications_lookup_inv _ _ _ _ _ Hd) as [_ Hkeys].
  assert (is_Some (data !! col)) as Hs by (by rewrite Hv).
  destruct (Hkeys col Hs) as [name ->].
  by apply (classification_key_not_fixed (clean_system_name name)).
Qed.

Lemma basic_data_lookup (T : pystr) (g : guid_t) :
  basic_data T g !! str "Element_GUID" = Some g
  ∧ basic_data T g !! str "Element_Type" = Some T.
Proof.
  unfold basic_data. split; [apply lookup_insert_eq |].
  rewrite lookup_insert_ne; [apply lookup_singleton_eq |].
  intros H. apply (f_equal (λ s, s !! 8%nat)) in H. vm_compute in H. discriminate.
Qed.

Lemma basic_data_keys (T : pystr) (g : guid_t) (k : pystr) :
  is_Some (basic_data T g !! k) ↔ k ∈ fixed_columns.
Proof.
  unfold basic_data, fixed_columns.
  rewrite lookup_insert_is_Some', !elem_of_cons, elem_of_nil.
  rewrite <- (elem_of_dom {[str "Element_Type" := T]}), dom_singleton_L,
    elem_of_singleton.
  naive_solver.
Qed.

End ExportFacts.

Import ExtractorHost StoreFacts PropertiesFacts ClassificationFacts ExportFacts.

(** X11.  With distinct GUIDs, the dictionary of an element the answers
    reach holds, under the name of a property, the text of the last item of
    that name whose value can be read: its value as a string, or
    [<Undefined>] when it has none.  Items whose value cannot be read are
    skipped, so a name all of whose items are such keeps what the basic data
    have under it, which is nothing unless the name is [Element_GUID] or
    [Element_Type]. *)
Theorem last_readable_property_of_a_name_wins (elements : list elem_data)
    (details : list (option pystr)) (answers : list (list value_item))
    (n : nat) (e : elem_data) (vals : list value_item) :
  NoDup (guid <$> elements) →
  elements !! n = Some e → answers !! n = Some vals →
  ∃ data,
    get_all_properties_bulk elements (Some details) (Some answers) !! guid e
    = Some data
    ∧ (∀ k i item text,
         details !! i = Some (Some k) → vals !! i = Some item →
         stored_text item = Some text →
         (∀ i', (i < i' < length vals)%nat → details !! i' = Some (Some k) →
                vals !! i' = Some ErrorItem) →
         data !! k = Some text)
    ∧ (∀ k,
         (∀ i, (i < length vals)%nat → details !! i = Some (Some k) →
               vals !! i = Some ErrorItem) →
         data !! k = basic_data (etype e) (guid e) !! k).
Proof.
  intros Hnd He Hvals.
  rewrite (properties_lookup elements details answers n e Hnd He), Hvals.
  eexists. split; [done |]. split.
  - intros k i item text Hk Hitem Htext Hlast.
    apply (store_properties_last _ 0%nat _ _ _ i item); [lia | done | | done |].
    + by rewrite Nat.sub_0_r.
    + intros i' Hi' Hd. rewrite Nat.sub_0_r. apply Hlast; [lia | done].
  - intros k Hall. apply store_properties_skipped.
    intros i Hi Hd. rewrite Nat.sub_0_r. apply Hall; [lia | done].
Qed.

(** X11 on a wall with two properties called [Area], the second of which
    cannot be read, and a property [Fire] that cannot be read either. *)
Lemma last_readable_property_of_a_name_wins_witness :
  ∃ data,
    get_all_properties_bulk [E1]
      (Some [Some (str "Area"); None; Some (str "Area"); Some (str "Fire")])
      (Some [[Value (str "12.5"); Value (str "x"); ErrorItem; ErrorItem]])
      !! guid E1
    = Some data
    ∧ data !! str "Area" = Some (str "12.5")
    ∧ data !! str "Fire" = None.
Proof.
  assert (NoDup (guid <$> [E1])) as Hnd by by_computing.
  destruct (last_readable_property_of_a_name_wins [E1]
              [Some (str "Area"); None; Some (str "Area"); Some (str "Fire")]
              [[Value (str "12.5"); Value (str "x"); ErrorItem; ErrorItem]]
              0%nat E1 [Value (str "12.5"); Value (str "x"); ErrorItem; ErrorItem]
              Hnd eq_refl eq_refl)
    as (data & Hdata & Hlast & Hskip).
  exists data. split; [assumption |]. split.
  - apply (Hlast (str "Area") 0%nat (Value (str "12.5")) (str "12.5"));
      [reflexivity.. |].
    intros [|[|[|[|i']]]] Hi' Hd; simpl in Hi'; try lia;
      [discriminate Hd | reflexivity | discriminate Hd].
  - etrans; [apply (Hskip (str "Fire")) | vm_compute; reflexivity].
    intros [|[|[|[|i]]]] Hi Hd; simpl in Hi; try lia;
      [discriminate Hd | discriminate Hd | discriminate Hd | reflexivity].
Defined.

(** X12.  Every dictionary of properties belongs to a listed element and
    has the two keys [Element_GUID] and [Element_Type]; its other keys are
    names of properties of the project; and unless a property is itself
    called [Element_GUID], the value under that key is the GUID the
    dictionary is stored under. *)
Theorem properties_dictionary_shape (elements : list elem_data)
    (details : list (option pystr))
    (answer : option (list (list value_item)))
    (g : guid_t) (data : gmap pystr pystr) :
  get_all_properties_bulk elements (Some details) answer !! g = Some data →
  g ∈ guid <$> elements
  ∧ is_Some (data !! str "Element_GUID")
  ∧ is_Some (data !! str "Element_Type")
  ∧ (∀ k, is_Some (data !! k) → k ∈ Extractor.fixed_columns ∨ Some k ∈ details)
  ∧ (Some (str "Element_GUID") ∉ details → data !! str "Element_GUID" = Some g).
Proof.
  intros (e & vals & He & Hg & ->)%properties_lookup_inv.
  destruct (basic_data_lookup (etype e) g) as [HG HT].
  split_and!.
  - subst g. by apply list_elem_of_fmap_2.
  - apply store_properties_keeps. by rewrite HG.
  - apply store_properties_keeps. by rewrite HT.
  - intros k [Hk | ?]%store_properties_keys; [| by right].
    left. by apply basic_data_keys in Hk.
  - intros Hno. rewrite store_properties_other; [done |].
    intros i _ Hi. apply Hno. by apply list_elem_of_lookup_2 in Hi.
Qed.

(** X12 on a wall with one property. *)
Lemma properties_dictionary_shape_witness :
  get_all_properties_bulk [E1] (Some [Some (str "Layer")])
    (Some [[Value (str "Shell")]]) !! str "E1"
  = Some (<[str "Layer" := str "Shell"]> (basic_data (str "Wall") (str "E1")))
  ∧ str "E1" ∈ guid <$> [E1].
Proof.
  assert (get_all_properties_bulk [E1] (Some [Some (str "Layer")])
            (Some [[Value (str "Shell")]]) !! str "E1"
          = Some (<[str "Layer" := str "Shell"]>
                    (basic_data (str "Wall") (str "E1")))) as Hd
    by (vm_compute; reflexivity).
  split; [exact Hd |].
  exact (proj1 (properties_dictionary_shape _ _ _ _ _ Hd)).
Defined.

(** X13.  With distinct GUIDs the dictionary stored for the element at an
    index is made from the answer of the host at that index, and an element
    the answers do not reach has no dictionary at all; when the bulk read
    raises, every element has the two basic entries and nothing else. *)
Theorem properties_read_back (elements : list elem_data)
    (details : list (option pystr)) (answers : list (list value_item)) :
  NoDup (guid <$> elements) →
  (∀ i e, elements !! i = Some e →
     get_all_properties_bulk elements (Some details) (Some answers) !! guid e
     = (λ vals, store_properties details 0 vals
                  (basic_data (etype e) (guid e))) <$> answers !! i)
  ∧ (∀ i e, elements !! i = Some e → (length answers ≤ i)%nat →
       get_all_properties_bulk elements (Some details) (Some answers) !! guid e
       = None)
  ∧ (∀ e, e ∈ elements →
       get_all_properties_bulk elements (Some details) None !! guid e
       = Some (basic_data (etype e) (guid e))).
Proof.
  intros Hnd. split_and!.
  - intros i e Hi. by apply properties_lookup.
  - intros i e Hi Hlen. rewrite (properties_lookup _ _ _ i) by done.
    by rewrite (proj2 (lookup_ge_None _ _) Hlen).
  - intros e He. unfold get_all_properties_bulk. rewrite basic_only_fold.
    apply (store_lookup _ _ e).
    + rewrite <- !list_fmap_compose. exact Hnd.
    + apply list_elem_of_fmap. by exists e.
Qed.

(** X13 on two walls and an answer for the first only. *)
Lemma properties_read_back_witness :
  NoDup (guid <$> [E1; E2])
  ∧ get_all_properties_bulk [E1; E2] (Some [Some (str "Layer")])
      (Some [[Value (str "Shell")]]) !! guid E2 = None.
Proof.
  assert (NoDup (guid <$> [E1; E2])) as Hnd by by_computing.
  split; [assumption |].
  destruct (properties_read_back [E1; E2] [Some (str "Layer")]
              [[Value (str "Shell")]] Hnd) as (_ & Hnone & _).
  apply (Hnone 1%nat E2); [reflexivity | simpl; lia].
Defined.

(** X14.  Whatever the host answers, a dictionary of classifications
    belongs to a listed element, and each of its keys is [Classification_]
    followed by a name without space, hyphen or full stop; so no
    classification is ever stored under [Element_GUID] or [Element_Type]. *)
Theorem classification_columns_are_named (elements : list elem_data)
    (systems : option (list (pystr * pystr)))
    (answer : option (list (list (option (pystr * option pystr)))))
    (g : guid_t) (data : gmap pystr pystr) :
  get_classifications_fast elements systems answer !! g = Some data →
  g ∈ guid <$> elements
  ∧ ∀ col, is_Some (data !! col) →
      (col ∉ Extractor.fixed_columns)
      ∧ ∃ name, col = str "Classification_" ++ name
                ∧ ∀ c, c ∈ name → c ≠ 32 ∧ c ≠ 45 ∧ c ≠ 46.
Proof.
  intros [Hg Hkeys]%classifications_lookup_inv. split; [done |].
  intros col [name ->]%Hkeys. split.
  - apply classification_key_not_fixed.
  - exists (clean_system_name name). split; [done |].
    apply clean_system_name_chars.
Qed.

(** X14 on a wall classified in a system whose name has a space and a full
    stop. *)
Lemma classification_columns_are_named_witness :
  get_classifications_fast [E1] (Some [(str "S1", str "ARCHICAD v 2.0")])
    (Some [[Some (str "S1", Some (str "Wall"))]]) !! str "E1"
  = Some {[ str "Classification_ARCHICAD_v_2_0" := str "Wall" ]}
  ∧ str "Classification_ARCHICAD_v_2_0" ∉ Extractor.fixed_columns.
Proof.
  assert (get_classifications_fast [E1] (Some [(str "S1", str "ARCHICAD v 2.0")])
            (Some [[Some (str "S1", Some (str "Wall"))]]) !! str "E1"
          = Some {[ str "Classification_ARCHICAD_v_2_0" := str "Wall" ]}) as Hd
    by (vm_compute; reflexivity).
  split; [exact Hd |].
  destruct (classification_columns_are_named _ _ _ _ _ Hd) as [_ Hkeys].
  apply (Hkeys (str "Classification_ARCHICAD_v_2_0")).
  exists (str "Wall"). apply lookup_singleton_eq.
Defined.

(** X15.  When the host answers with more classification entries than
    there are elements, the subscript [elements[i]] raises and the handler
    wipes what was read: every element is left with an empty dictionary. *)
Theorem surplus_answer_drops_classifications (elements : list elem_data)
    (s : pystr * pystr) (l : list (pystr * pystr))
    (answers : list (list (option (pystr * option pystr)))) :
  (length elements < length answers)%nat →
  get_classifications_fast elements (Some (s :: l)) (Some answers)
  = no_classifications elements
  ∧ ∀ e, e ∈ elements →
      get_classifications_fast elements (Some (s :: l)) (Some answers) !! guid e
      = Some ∅.
Proof.
  intros Hlen.
  assert (get_classifications_fast elements (Some (s :: l)) (Some answers)
          = no_classifications elements) as ->.
  { unfold get_classifications_fast.
    by rewrite store_classifications_None by (simpl; lia). }
  split; [done |]. apply no_classifications_all.
Qed.

(** X15 on one wall and two answers. *)
Lemma surplus_answer_drops_classifications_witness :
  (length [E1] < length [[Some (str "S1", Some (str "Wall"))]; []])%nat
  ∧ get_classifications_fast [E1] (Some [(str "S1", str "ARCHICAD")])
      (Some [[Some (str "S1", Some (str "Wall"))]; []]) !! guid E1
    = Some ∅.
Proof.
  assert (length [E1] < length [[Some (str "S1", Some (str "Wall"))]; []])%nat
    as Hlen by (simpl; lia).
  split; [assumption |].
  destruct (surplus_answer_drops_classifications [E1]
              (str "S1", str "ARCHICAD") []
              [[Some (str "S1", Some (str "Wall"))]; []] Hlen) as [_ Hall].
  apply Hall. left.
Defined.

(** X16.  With distinct GUIDs and no more answers than elements, the
    classifications stored for the element at an index are made from the
    answer at that index, and an element the answers do not reach has no
    dictionary. *)
Theorem classifications_read_back (elements : list elem_data)
    (s : pystr * pystr) (l : list (pystr * pystr))
    (answers : list (list (option (pystr * option pystr))))
    (i : nat) (e : elem_data) :
  NoDup (guid <$> elements) →
  (length answers ≤ length elements)%nat →
  elements !! i = Some e →
  get_classifications_fast elements (Some (s :: l)) (Some answers) !! guid e
  = foldl (add_classification (system_names_of (s :: l))) ∅ <$> answers !! i.
Proof. apply classifications_lookup. Qed.

(** X16 on two walls and one answer whose system is not known. *)
Lemma classifications_read_back_witness :
  get_classifications_fast [E1; E2] (Some [(str "S1", str "ARCHICAD")])
    (Some [[Some (str "S9", None)]]) !! guid E1
  = Some {[ str "Classification_Unknown_System" := str "" ]}.
Proof.
  rewrite (classifications_read_back [E1; E2] (str "S1", str "ARCHICAD") []
             [[Some (str "S9", None)]] 0%nat E1).
  - vm_compute. reflexivity.
  - by_computing.
  - simpl. lia.
  - reflexivity.
Defined.

(** X17.  Every row the export has written, whether it wrote them all or
    stopped at a row the file refused, is the row of the element at the same
    place in the list, and its cell under a column is the classification of
    the element of that name when it has one, otherwise its property of that
    name, otherwise the empty string; this also holds for an element whose
    GUID was written before, although writing a row changes the stored
    dictionary of properties.  When the export completes there are as many
    rows as elements. *)
Theorem row_cells_from_data (elements : list elem_data)
    (properties_data classifications_data : gmap guid_t (gmap pystr pystr))
    (t : Extractor.table) :
  Extractor.extract_to_csv elements properties_data classifications_data
  = Some (Extractor.Complete t)
  ∨ Extractor.extract_to_csv elements properties_data classifications_data
    = Some (Extractor.RowRefused t) →
  (∀ i row, Extractor.rows t !! i = Some row →
     ∃ e, elements !! i = Some e
          ∧ ∀ j col, Extractor.header t !! j = Some col →
              row !! j
              = Some match default ∅ (classifications_data !! guid e) !! col with
                     | Some item_name => item_name
                     | None =>
                         default [] (default ∅ (properties_data !! guid e) !! col)
                     end)
  ∧ (Extractor.extract_to_csv elements properties_data classifications_data
     = Some (Extractor.Complete t) →
     length (Extractor.rows t) = length elements).
Proof.
  intros Hend. split.
  - intros i row Hrow.
    destruct (written_row _ _ _ _ _ _ Hend Hrow) as (e & He & ->).
    exists e. split; [done |]. intros j col Hj. by apply cell_lookup.
  - intros Hcomplete.
    destruct (extract_written _ _ _ _ Hend) as [_ (n & Hrows & Hn)].
    rewrite Hrows, (Hn Hcomplete), take_ge by (by rewrite length_fmap).
    by rewrite length_fmap.
Qed.

(** X17 on a wall written twice, with a beam in between. *)
Lemma row_cells_from_data_witness :
  ∃ t row,
    Extractor.extract_to_csv [E1; E4; E1] properties_data classifications_data
    = Some (Extractor.Complete t)
    ∧ Extractor.rows t !! 2%nat = Some row
    ∧ row !! 3%nat = Some (str "Wall")
    ∧ row !! 5%nat = Some (str "").
Proof.
  assert (∃ t row,
            Extractor.extract_to_csv [E1; E4; E1] properties_data
              classifications_data = Some (Extractor.Complete t)
            ∧ Extractor.rows t !! 2%nat = Some row
            ∧ Extractor.header t
              = [str "Element_GUID"; str "Element_Type"; str "Area";
                 str "Classification_ARCHICAD"; str "Layer"; str "Length"])
    as (t & row & Ht & Hrow & Hc)
    by (vm_compute; do 2 eexists; split_and!; reflexivity).
  destruct (row_cells_from_data [E1; E4; E1] properties_data classifications_data
              t (or_introl Ht)) as [Hcells _].
  destruct (Hcells 2%nat row Hrow) as (e & He & Hcell).
  injection He as <-.
  exists t, row. split; [assumption |]. split; [assumption |]. split.
  - etrans; [apply (Hcell 3%nat (str "Classification_ARCHICAD")) |];
      [rewrite Hc; reflexivity | vm_compute; reflexivity].
  - etrans; [apply (Hcell 5%nat (str "Length")) |];
      [rewrite Hc; reflexivity | vm_compute; reflexivity].
Defined.

(** X18.  When the discovery of the properties raises, the host lists at
    least one element and the file accepts the strings of the
    classifications, the export writes its whole table, one row for every
    element, with the cells of [Element_GUID] and [Element_Type] empty in
    every row. *)
Theorem discovery_failure_blanks_fixed_cells
    (GetElementsByType : pystr → option (list guid_t))
    (GetPropertyValuesOfElements : option (list (list value_item)))
    (GetAllClassificationSystems : option (list (pystr * pystr)))
    (GetClassificationsOfElements
       : option (list (list (option (pystr * option pystr))))) :
  get_all_elements_fast GetElementsByType ≠ [] →
  Extractor.writable
    (get_classifications_fast (get_all_elements_fast GetElementsByType)
       GetAllClassificationSystems GetClassificationsOfElements) →
  ∃ t,
    export GetElementsByType None GetPropertyValuesOfElements
      GetAllClassificationSystems GetClassificationsOfElements
    = Some (Extractor.Complete t)
    ∧ length (Extractor.rows t) = length (get_all_elements_fast GetElementsByType)
    ∧ ∀ row, row ∈ Extractor.rows t →
        row !! 0%nat = Some [] ∧ row !! 1%nat = Some [].
Proof.
  intros Hne HC. unfold export. cbn [get_all_properties_bulk].
  rewrite (extract_complete _ ∅ _ Hne (map_Forall_empty _) HC).
  eexists. split; [done |]. cbn [Extractor.rows Extractor.header].
  split; [by rewrite length_fmap |].
  intros row (e & -> & _)%list_elem_of_fmap.
  destruct (header_fixed ∅
              (get_classifications_fast (get_all_elements_fast GetElementsByType)
                 GetAllClassificationSystems GetClassificationsOfElements))
    as [HG HT].
  rewrite (cell_lookup _ _ _ _ _ _ HG), (cell_lookup _ _ _ _ _ _ HT).
  rewrite (classification_no_fixed _ _ _ _ (str "Element_GUID")) by left.
  rewrite (classification_no_fixed _ _ _ _ (str "Element_Type"))
    by (right; left).
  by rewrite !lookup_empty.
Qed.

(** X18 with a host that has one wall. *)
Lemma discovery_failure_blanks_fixed_cells_witness :
  ∃ t,
    export (λ T, if decide (T = str "Wall") then Some [str "E1"] else None)
      None (Some [[Value (str "Shell")]])
      (Some [(str "S1", str "ARCHICAD")])
      (Some [[Some (str "S1", Some (str "Wall"))]])
    = Some (Extractor.Complete t)
    ∧ length (Extractor.rows t) = 1%nat
    ∧ ∀ row, row ∈ Extractor.rows t →
        row !! 0%nat = Some [] ∧ row !! 1%nat = Some [].
Proof.
  destruct (discovery_failure_blanks_fixed_cells
              (λ T, if decide (T = str "Wall") then Some [str "E1"] else None)
              (Some [[Value (str "Shell")]])
              (Some [(str "S1", str "ARCHICAD")])
              (Some [[Some (str "S1", Some (str "Wall"))]]))
    as (t & Ht & Hlen & Hblank).
  - vm_compute. discriminate.
  - by_computing.
  - exists t. split; [assumption |]. split; [exact Hlen | assumption].
Defined.

(** X19.  When the properties were discovered, the bulk read raised or
    answered for every element, and no property is called [Element_GUID],
    the first cell of every row the export has written is the GUID of the
    element at the same place in the list; with distinct GUIDs and no
    property called [Element_Type], the second cell is its type. *)
Theorem fixed_cells_show_guid_and_type
    (GetElementsByType : pystr → option (list guid_t))
    (details : list (option pystr))
    (GetPropertyValuesOfElements : option (list (list value_item)))
    (GetAllClassificationSystems : option (list (pystr * pystr)))
    (GetClassificationsOfElements
       : option (list (list (option (pystr * option pystr)))))
    (t : Extractor.table) :
  export GetElementsByType (Some details) GetPropertyValuesOfElements
    GetAllClassificationSystems GetClassificationsOfElements
  = Some (Extractor.Complete t)
  ∨ export GetElementsByType (Some details) GetPropertyValuesOfElements
      GetAllClassificationSystems GetClassificationsOfElements
    = Some (Extractor.RowRefused t) →
  match GetPropertyValuesOfElements with
  | Some answers =>
      (length (get_all_elements_fast GetElementsByType) ≤ length answers)%nat
  | None => True
  end →
  Some (str "Element_GUID") ∉ details →
  ∀ i row, Extractor.rows t !! i = Some row →
    ∃ e,
      get_all_elements_fast GetElementsByType !! i = Some e
      ∧ row !! 0%nat = Some (guid e)
      ∧ (NoDup (guid <$> get_all_elements_fast GetElementsByType) →
         Some (str "Element_Type") ∉ details →
         row !! 1%nat = Some (etype e)).
Proof.
  unfold export. set (elements := get_all_elements_fast GetElementsByType).
  intros Hend Hlen HnoG i row Hrow.
  destruct (extract_written _ _ _ _ Hend) as [Hh _].
  destruct (written_row _ _ _ _ _ _ Hend Hrow) as (e & Hi & ->).
  exists e. split; [done |].
  assert (e ∈ elements) as He by (by apply list_elem_of_lookup_2 in Hi).
  destruct (properties_is_Some elements details GetPropertyValuesOfElements e
              He Hlen) as [data Hd].
  destruct (properties_lookup_inv _ _ _ _ _ Hd) as (e' & vals & He' & Hg & ->).
  destruct (basic_data_lookup (etype e') (guid e)) as [HG HT].
  rewrite Hh.
  destruct (header_fixed
              (get_all_properties_bulk elements (Some details)
                 GetPropertyValuesOfElements)
              (get_classifications_fast elements GetAllClassificationSystems
                 GetClassificationsOfElements)) as [H0 H1].
  rewrite (cell_lookup _ _ _ _ _ _ H0), (cell_lookup _ _ _ _ _ _ H1).
  rewrite (classification_no_fixed _ _ _ _ (str "Element_GUID")) by left.
  rewrite (classification_no_fixed _ _ _ _ (str "Element_Type"))
    by (right; left).
  rewrite Hd. cbn [default from_option id]. split.
  - rewrite store_properties_other, HG; [done |].
    intros k _ Hk. apply HnoG. by apply list_elem_of_lookup_2 in Hk.
  - intros Hnd HnoT. rewrite store_properties_other, HT.
    + simpl. do 2 f_equal. by apply (same_guid_same_element elements).
    + intros k _ Hk. apply HnoT. by apply list_elem_of_lookup_2 in Hk.
Qed.

(** X19 with a host that has two walls and answers for both. *)
Lemma fixed_cells_show_guid_and_type_witness :
  ∃ t row,
    export (λ T, if decide (T = str "Wall") then Some [str "E1"; str "E2"] else None)
      (Some [Some (str "Layer")]) (Some [[Value (str "Shell")]; [ErrorItem]])
      (Some [(str "S1", str "ARCHICAD")])
      (Some [[Some (str "S1", Some (str "Wall"))]])
    = Some (Extractor.Complete t)
    ∧ Extractor.rows t !! 1%nat = Some row
    ∧ row !! 0%nat = Some (str "E2").
Proof.
  assert (∃ t row,
            export
              (λ T, if decide (T = str "Wall") then Some [str "E1"; str "E2"]
                    else None)
              (Some [Some (str "Layer")])
              (Some [[Value (str "Shell")]; [ErrorItem]])
              (Some [(str "S1", str "ARCHICAD")])
              (Some [[Some (str "S1", Some (str "Wall"))]])
            = Some (Extractor.Complete t)
            ∧ Extractor.rows t !! 1%nat = Some row) as (t & row & Ht & Hrow)
    by (vm_compute; do 2 eexists; split; reflexivity).
  assert (length (get_all_elements_fast
                    (λ T, if decide (T = str "Wall")
                          then Some [str "E1"; str "E2"] else None))
          ≤ length [[Value (str "Shell")]; [ErrorItem]])%nat as Hlen
    by (vm_compute; lia).
  assert (Some (str "Element_GUID") ∉ [Some (str "Layer")]) as HnoG
    by by_computing.
  destruct (fixed_cells_show_guid_and_type _ _ _ _ _ t (or_introl Ht) Hlen HnoG
              1%nat row Hrow)
    as (e & He & Hcell & _).
  injection He as <-.
  exists t, row. split; [assumption |]. split; assumption.
Defined.

(** X20.  The export writes no table exactly when no type of its list
    yields an element: for every type the host raises or answers with no
    element. *)
Theorem export_writes_nothing_iff_no_elements
    (GetElementsByType : pystr → option (list guid_t))
    (GetDetailsOfProperties : option (list (option pystr)))
    (GetPropertyValuesOfElements : option (list (list value_item)))
    (GetAllClassificationSystems : option (list (pystr * pystr)))
    (GetClassificationsOfElements
       : option (list (list (option (pystr * option pystr))))) :
  export GetElementsByType GetDetailsOfProperties GetPropertyValuesOfElements
    GetAllClassificationSystems GetClassificationsOfElements = None
  ↔ ∀ T, T ∈ element_types →
      GetElementsByType T = None ∨ GetElementsByType T = Some [].
Proof.
  assert (get_all_elements_fast GetElementsByType = []
          ↔ ∀ T, T ∈ element_types →
              GetElementsByType T = None ∨ GetElementsByType T = Some []) as <-.
  { unfold get_all_elements_fast.
    rewrite fetch_concat, app_nil_l, concat_nil_Forall, Forall_fmap, Forall_forall.
    split; intros Hall T HT; specialize (Hall T HT); simpl in *.
    - destruct (GetElementsByType T) as [[|g gs]|]; [by right | done | by left].
    - by destruct Hall as [-> | ->]. }
  unfold export, Extractor.extract_to_csv.
  destruct (get_all_elements_fast GetElementsByType) as [|e0 l]; [done |].
  destruct (forallb Extractor.encodable _); [| done].
  by destruct (Extractor.write_rows _ _ _ _ _) as [[] written].
Qed.

(** ** Facts about the mapping as a list of items *)

Module ItemsFacts.

Import AssignerHost.

Lemma dict_set_to_map (k : guid_t) (v : pystr) (d : list (guid_t * pystr)) :
  (list_to_map (dict_set k v d) : gmap guid_t pystr) = <[k:=v]> (list_to_map d).
Proof.
  induction d as [|[k' v'] d IH]; [done |]. cbn [dict_set].
  destruct (decide (k = k')) as [-> | Hne]; cbn [list_to_map foldr uncurry fst snd].
  - by rewrite insert_insert_eq.
  - rewrite IH. by apply insert_insert_ne.
Qed.

Lemma dict_set_keys (k : guid_t) (v : pystr) (d : list (guid_t * pystr)) :
  (dict_set k v d).*1 = if decide (k ∈ d.*1) then d.*1 else d.*1 ++ [k].
Proof.
  induction d as [|[k' v'] d IH]; [done |]. cbn [dict_set].
  destruct (decide (k = k')) as [-> | Hne].
  - by rewrite decide_True by left.
  - cbn [fmap list_fmap fst]. rewrite IH.
    destruct (decide (k ∈ d.*1)) as [Hin | Hnotin].
    + by rewrite decide_True by (by right).
    + rewrite decide_False; [done |]. by intros [? | ?]%elem_of_cons.
Qed.

Lemma dict_set_NoDup (k : guid_t) (v : pystr) (d : list (guid_t * pystr)) :
  NoDup d.*1 → NoDup (dict_set k v d).*1.
Proof.
  intros Hnd. rewrite dict_set_keys. case_decide as Hk; [done |].
  apply NoDup_app. split_and!; [done | | apply NoDup_singleton].
  by intros x Hx ->%list_elem_of_singleton.
Qed.

(** The loops on the list of items go the way of the loops on the
    mapping. *)
Lemma assign_elements_items_spec (prefix : pystr) (es : list elem_data) (c : N)
    (R : gset pystr) (d : list (guid_t * pystr)) :
  assign_elements prefix es c (GenState R (list_to_map d))
  = (λ r, (r.1.1, GenState r.1.2 (list_to_map r.2)))
    <$> assign_elements_items prefix es c R d.
Proof.
  revert c R d. induction es as [|e es IH]; intros c R d; [done |].
  cbn [assign_elements assign_elements_items all_reserved_ids new_id_mapping].
  destruct (next_free _ _ _ _) as [c'|]; [| done].
  by rewrite <- dict_set_to_map, IH.
Qed.

Lemma assign_elements_items_NoDup (prefix : pystr) (es : list elem_data) (c : N)
    (R : gset pystr) (d : list (guid_t * pystr)) r :
  assign_elements_items prefix es c R d = Some r → NoDup d.*1 → NoDup r.2.*1.
Proof.
  revert c R d. induction es as [|e es IH]; intros c R d.
  - by intros [= <-].
  - cbn [assign_elements_items]. destruct (next_free _ _ _ _) as [c'|]; [| done].
    intros Hr Hnd. apply (IH _ _ _ Hr). by apply dict_set_NoDup.
Qed.

Lemma assign_types_items_spec (self : SmartUniqueIDAssigner)
    (by_type : list (pystr * list elem_data)) (R : gset pystr)
    (d : list (guid_t * pystr)) :
  assign_types self by_type (GenState R (list_to_map d))
  = (λ r, GenState r.1 (list_to_map r.2)) <$> assign_types_items self by_type R d.
Proof.
  revert R d. induction by_type as [|[T es] by_type IH]; intros R d; [done |].
  cbn [assign_types assign_types_items]. unfold assign_type, assign_type_items.
  cbn [all_reserved_ids].
  destruct (next_free _ _ _ _) as [c|]; [| done].
  rewrite assign_elements_items_spec.
  destruct (assign_elements_items _ _ _ _ _) as [[[c' R'] d']|]; [| done].
  cbn. apply IH.
Qed.

Lemma assign_types_items_NoDup (self : SmartUniqueIDAssigner)
    (by_type : list (pystr * list elem_data)) (R : gset pystr)
    (d : list (guid_t * pystr)) r :
  assign_types_items self by_type R d = Some r → NoDup d.*1 → NoDup r.2.*1.
Proof.
  revert R d. induction by_type as [|[T es] by_type IH]; intros R d.
  - by intros [= <-].
  - cbn [assign_types_items]. unfold assign_type_items.
    destruct (next_free _ _ _ _) as [c|]; [| done].
    destruct (assign_elements_items _ _ _ _ _) as [[[c' R'] d']|] eqn:He; [| done].
    cbn. intros Hr Hnd. apply (IH _ _ Hr).
    apply (assign_elements_items_NoDup _ _ _ _ _ _ He Hnd).
Qed.

(** The list of items is the mapping, each key once. *)
Lemma items_refine (self : SmartUniqueIDAssigner) (elements : list elem_data)
    (a : analysis_t) :
  generate_new_ids_for_problem_elements self elements a
  = list_to_map <$> new_id_mapping_items self elements a.
Proof.
  unfold generate_new_ids_for_problem_elements, new_id_mapping_items.
  case_decide; [done |].
  rewrite (assign_types_items_spec self _ (existing_unique_ids a) []).
  by destruct (assign_types_items _ _ _ _) as [[R d]|].
Qed.

Lemma items_NoDup (self : SmartUniqueIDAssigner) (elements : list elem_data)
    (a : analysis_t) (d : list (guid_t * pystr)) :
  new_id_mapping_items self elements a = Some d → NoDup d.*1.
Proof.
  unfold new_id_mapping_items. case_decide; [intros [= <-]; constructor |].
  destruct (assign_types_items _ _ _ _) as [r|] eqn:Hr; [| done].
  intros [= <-]. apply (assign_types_items_NoDup _ _ _ _ _ Hr). constructor.
Qed.

Lemma items_nil_iff (d : list (guid_t * pystr)) :
  d = [] ↔ (list_to_map d : gmap guid_t pystr) = ∅.
Proof.
  split; [by intros -> |]. destruct d as [|[k v] d]; [done |].
  cbn [list_to_map foldr uncurry fst snd]. intros Hd.
  by destruct (insert_non_empty (list_to_map d : gmap guid_t pystr) k v).
Qed.

End ItemsFacts.

(** ** Facts about a whole run of the assigner *)

Module RunFacts.

Import AnalysisFacts GenerateFacts FinalFacts ItemsFacts.

Lemma fetch_nil_iff (self : SmartUniqueIDAssigner)
    (G : pystr → option (list guid_t)) :
  AssignerHost.get_all_elements_fast self G = []
  ↔ ∀ T, T ∈ available_element_types self → G T = None ∨ G T = Some [].
Proof.
  destruct self as [prefixes types]. simpl. split.
  - intros Hnil T HT. destruct (G T) as [[|g gs]|] eqn:HG; [by right | | by left].
    exfalso. apply (not_elem_of_nil (ElemData g T)). rewrite <- Hnil.
    apply fetch_elem. simpl. split; [done |]. exists (g :: gs).
    split; [done | left].
  - intros Hall.
    destruct (AssignerHost.get_all_elements_fast _ G) as [|e l] eqn:He; [done |].
    exfalso.
    assert (e ∈ AssignerHost.get_all_elements_fast
                  {| element_prefixes := prefixes;
                     available_element_types := types |} G) as Hin
      by (rewrite He; left).
    apply fetch_elem in Hin as (HT & gs & HG & Hg).
    destruct (Hall _ HT) as [Hn | Hn]; rewrite Hn in HG; [done |].
    injection HG as <-. by apply not_elem_of_nil in Hg.
Qed.

(** The steps of a run, with the analysis and the mapping they go
    through: neither step 3 nor step 4 raises. *)
Lemma run_cases (self : SmartUniqueIDAssigner) (lower : pystr → pystr)
    (G : pystr → option (list guid_t)) (Br : option unit)
    (P : list elem_data → option (list (list (option pystr))))
    (Bw : option unit) (S : guid_t → pystr → set_outcome) :
  ∃ a d,
    analyze_existing_ids
      (get_existing_ids_bulk (AssignerHost.get_all_elements_fast self G)
         match Br with
         | Some _ => P (AssignerHost.get_all_elements_fast self G)
         | None => None
         end) = Some a
    ∧ new_id_mapping_items self (AssignerHost.get_all_elements_fast self G) a
      = Some d
    ∧ generate_new_ids_for_problem_elements self
        (AssignerHost.get_all_elements_fast self G) a = Some (list_to_map d)
    ∧ NoDup d.*1
    ∧ assign_unique_ids_to_all_elements self lower G Br P Bw S
      = match AssignerHost.get_all_elements_fast self G with
        | [] => NoElementsFound
        | _ =>
            match d with
            | [] => AlreadyUnique
            | _ => Assigned a d (assign_ids_super_fast lower Bw S d)
            end
        end.
Proof.
  destruct (analysis_spec
              (get_existing_ids_bulk (AssignerHost.get_all_elements_fast self G)
                 match Br with
                 | Some _ => P (AssignerHost.get_all_elements_fast self G)
                 | None => None
                 end)) as (a & Ha & _).
  destruct (generate_runs self (AssignerHost.get_all_elements_fast self G) a)
    as (R' & m & Hm & _).
  pose proof Hm as Hd. rewrite items_refine in Hd.
  destruct (new_id_mapping_items self (AssignerHost.get_all_elements_fast self G) a)
    as [d|] eqn:Hitems; [| done].
  injection Hd as <-.
  exists a, d. split_and!; [done | done | done | by apply (items_NoDup _ _ _ _ Hitems) |].
  unfold assign_unique_ids_to_all_elements.
  remember (AssignerHost.get_all_elements_fast self G) as elements eqn:He.
  destruct elements as [|e0 l]; [done |].
  cbv beta iota zeta. rewrite Ha, Hitems. by destruct d.
Qed.

(** The mapping is empty exactly when no listed element needs an
    identifier. *)
Lemma mapping_empty_iff (self : SmartUniqueIDAssigner) (elements : list elem_data)
    (existing_ids : gmap guid_t pystr) (a : analysis_t) (m : gmap guid_t pystr) :
  analyze_existing_ids existing_ids = Some a →
  generate_new_ids_for_problem_elements self elements a = Some m →
  m = ∅
  ↔ ∀ e, e ∈ elements →
      ¬ absent existing_ids (guid e) ∧ ¬ ∃ s, shared existing_ids (guid e) s.
Proof.
  intros Ha Hm.
  destruct (mapping_spec self elements a m Hm) as (_ & _ & Hdom & _).
  rewrite map_empty. split.
  - intros Hnone e He.
    assert (guid e ∉ elements_needing_new_ids a) as Hno.
    { intros Hn. destruct (proj2 (Hdom (guid e))) as [v Hv];
        [by split; [apply list_elem_of_fmap_2 |] |].
      by rewrite Hnone in Hv. }
    rewrite (needing_iff existing_ids a Ha) in Hno. tauto.
  - intros Hall g. destruct (m !! g) as [v|] eqn:Hv; [| done]. exfalso.
    destruct (proj1 (Hdom g)) as [(e & -> & He)%list_elem_of_fmap Hn];
      [by rewrite Hv |].
    rewrite (needing_iff existing_ids a Ha) in Hn.
    destruct (Hall e He). tauto.
Qed.

Lemma assign_each_ext (S S' : guid_t → pystr → set_outcome) (lower : pystr → pystr)
    (items : list (guid_t * pystr)) (r : assignment_results) :
  (∀ g v, (g, v) ∈ items → S' g v = S g v) →
  assign_each lower S' items r = assign_each lower S items r.
Proof.
  revert r. induction items as [|[g v] items IH]; intros r Hsame; [done |].
  cbn [assign_each]. rewrite (Hsame g v) by left.
  destruct (S g v); try done; apply IH; intros g' v' Hin; apply Hsame; by right.
Qed.

End RunFacts.

Import ItemsFacts RunFacts.

(** X21.  A run of the assigner never ends in the handler because of the
    analysis or the generation.  It ends without elements exactly when no
    type of the list yields one; it ends without writing exactly when there
    are elements and none of them has an absent or shared identifier among
    the identifiers read, which cannot be when the property id of step 2
    raises; and otherwise it writes back, in the order of its items, the
    mapping generated from the analysis of the identifiers read, each key
    once.  With the report written, the method returns [False] only without
    elements, or when no write succeeded and no identifier was unique. *)
Theorem run_outcome_classified (self : SmartUniqueIDAssigner)
    (lower : pystr → pystr)
    (GetElementsByType : pystr → option (list guid_t))
    (GetBuiltInPropertyId_read : option unit)
    (GetPropertyValuesOfElements
       : list elem_data → option (list (list (option pystr))))
    (GetBuiltInPropertyId_write : option unit)
    (SetPropertyValuesOfElements : guid_t → pystr → set_outcome) :
  let elements := AssignerHost.get_all_elements_fast self GetElementsByType in
  let existing_ids :=
    get_existing_ids_bulk elements
      match GetBuiltInPropertyId_read with
      | Some _ => GetPropertyValuesOfElements elements
      | None => None
      end in
  let run :=
    assign_unique_ids_to_all_elements self lower GetElementsByType
      GetBuiltInPropertyId_read GetPropertyValuesOfElements
      GetBuiltInPropertyId_write SetPropertyValuesOfElements in
  run ≠ Crashed
  ∧ (run = NoElementsFound
     ↔ ∀ T, T ∈ available_element_types self →
         GetElementsByType T = None ∨ GetElementsByType T = Some [])
  ∧ (run = AlreadyUnique
     ↔ elements ≠ []
       ∧ ∀ e, e ∈ elements →
           ¬ absent existing_ids (guid e)
           ∧ ¬ ∃ s, shared existing_ids (guid e) s)
  ∧ (GetBuiltInPropertyId_read = None → run ≠ AlreadyUnique)
  ∧ (∀ a d r, run = Assigned a d r →
       analyze_existing_ids existing_ids = Some a
       ∧ new_id_mapping_items self elements a = Some d
       ∧ generate_new_ids_for_problem_elements self elements a
         = Some (list_to_map d)
       ∧ NoDup d.*1
       ∧ d ≠ []
       ∧ r = assign_ids_super_fast lower GetBuiltInPropertyId_write
               SetPropertyValuesOfElements d)
  ∧ (returned true run = false
     ↔ run = NoElementsFound
       ∨ ∃ a d r, run = Assigned a d r
                  ∧ success_count r = 0%nat ∧ unique_ids a = 0%nat).
Proof.
  cbv zeta.
  destruct (run_cases self lower GetElementsByType GetBuiltInPropertyId_read
              GetPropertyValuesOfElements GetBuiltInPropertyId_write
              SetPropertyValuesOfElements)
    as (a & d & Ha & Hd & Hm & Hnd & ->).
  pose proof (fetch_nil_iff self GetElementsByType) as Hnil.
  pose proof (mapping_empty_iff self _ _ a _ Ha Hm) as Hempty.
  rewrite <- items_nil_iff in Hempty.
  assert (GetBuiltInPropertyId_read = None →
          AssignerHost.get_all_elements_fast self GetElementsByType ≠ [] →
          d ≠ []) as Hread.
  { intros -> Hne ->. pose proof (proj1 Hempty eq_refl) as Hall.
    revert Hall Hne.
    destruct (AssignerHost.get_all_elements_fast self GetElementsByType)
      as [|e0 l]; intros Hall Hne; [done |].
    destruct (Hall e0) as [Habs _]; [left |]. apply Habs.
    exists []. split; [| done]. apply read_failure_all. left. }
  destruct (AssignerHost.get_all_elements_fast self GetElementsByType) as [|e0 l].
  - split_and!; [done | by rewrite <- Hnil | | done | done |].
    + split; [done | by intros [? _]].
    + split; [by left | done].
  - assert (e0 :: l = [] ↔ False) as Hne by done.
    rewrite Hne in Hnil. destruct d as [|kv d].
    + split_and!; [done | by rewrite <- Hnil | | | done |].
      * split; [| done]. intros _. split; [done |]. by apply Hempty.
      * intros Hr. by destruct (Hread Hr).
      * split; [done |]. intros [? | (? & ? & ? & ? & _)]; done.
    + split_and!; [done | by rewrite <- Hnil | | done | |].
      * split; [done |]. intros [_ Hall]. by apply Hempty in Hall.
      * by intros a' d' r' [= <- <- <-].
      * cbn [returned andb]. rewrite orb_false_iff, !bool_decide_eq_false.
        split.
        -- intros [? ?]. right. eexists _, _, _. split; [done |]. lia.
        -- intros [? | (a' & d' & r' & [= <- <- <-] & ? & ?)]; [done | lia].
Qed.

(** X22.  A run calls the host only for elements the analysis reports as
    needing an identifier: it ends in the same way, with the same counters
    and failures, whatever the host would answer to an assignment on any
    other element. *)
Theorem run_writes_only_needy_elements (self : SmartUniqueIDAssigner)
    (lower : pystr → pystr)
    (GetElementsByType : pystr → option (list guid_t))
    (GetBuiltInPropertyId_read : option unit)
    (GetPropertyValuesOfElements
       : list elem_data → option (list (list (option pystr))))
    (GetBuiltInPropertyId_write : option unit)
    (SetPropertyValuesOfElements SetPropertyValuesOfElements'
       : guid_t → pystr → set_outcome)
    (a : analysis_t) (d : list (guid_t * pystr)) (r : assignment_results) :
  assign_unique_ids_to_all_elements self lower GetElementsByType
    GetBuiltInPropertyId_read GetPropertyValuesOfElements
    GetBuiltInPropertyId_write SetPropertyValuesOfElements = Assigned a d r →
  (∀ g v, g ∈ elements_needing_new_ids a →
     SetPropertyValuesOfElements' g v = SetPropertyValuesOfElements g v) →
  assign_unique_ids_to_all_elements self lower GetElementsByType
    GetBuiltInPropertyId_read GetPropertyValuesOfElements
    GetBuiltInPropertyId_write SetPropertyValuesOfElements' = Assigned a d r.
Proof.
  destruct (run_cases self lower GetElementsByType GetBuiltInPropertyId_read
              GetPropertyValuesOfElements GetBuiltInPropertyId_write
              SetPropertyValuesOfElements)
    as (a1 & d1 & Ha1 & Hd1 & Hm1 & Hnd & ->).
  destruct (run_cases self lower GetElementsByType GetBuiltInPropertyId_read
              GetPropertyValuesOfElements GetBuiltInPropertyId_write
              SetPropertyValuesOfElements')
    as (a2 & d2 & Ha2 & Hd2 & _ & _ & ->).
  rewrite Ha1 in Ha2. injection Ha2 as <-.
  rewrite Hd1 in Hd2. injection Hd2 as <-.
  destruct (mapping_spec self _ a1 _ Hm1) as (_ & _ & Hdom & _).
  destruct (AssignerHost.get_all_elements_fast self GetElementsByType)
    as [|e0 l]; [done |].
  destruct d1 as [|kv d']; [done |].
  intros [= <- <- <-] Hsame. f_equal.
  unfold assign_ids_super_fast. destruct GetBuiltInPropertyId_write; [| done].
  apply assign_each_ext. intros g v Hgv.
  apply Hsame. apply Hdom. exists v.
  by apply elem_of_list_to_map_1.
Qed.

(** X22 with three walls, the third with an identifier of its own: a host
    that would refuse the third wall is never asked about it. *)
Lemma run_writes_only_needy_elements_witness :
  ∃ a d r,
    assign_unique_ids_to_all_elements init_walls_only (λ s, s)
      (λ T, if decide (T = str "Wall") then Some [str "E1"; str "E2"; str "E3"]
            else None)
      (Some ())
      (λ _, Some [[Some (str "W-001")]; [Some (str "W-001")];
                  [Some (str "W-005")]])
      (Some ())
      (λ g _, if decide (g = str "E3") then Failed None else Succeeded)
    = Assigned a d r
    ∧ d.*1 = [str "E1"; str "E2"]
    ∧ success_count r = 2%nat.
Proof.
  assert (∃ a d r,
            assign_unique_ids_to_all_elements init_walls_only (λ s, s)
              (λ T, if decide (T = str "Wall")
                    then Some [str "E1"; str "E2"; str "E3"] else None)
              (Some ())
              (λ _, Some [[Some (str "W-001")]; [Some (str "W-001")];
                          [Some (str "W-005")]])
              (Some ()) (λ _ _, Succeeded)
            = Assigned a d r
            ∧ elements_needing_new_ids a = {[ str "E1"; str "E2" ]}
            ∧ d.*1 = [str "E1"; str "E2"]
            ∧ success_count r = 2%nat) as (a & d & r & Hrun & Hn & Hk & Hs)
    by (vm_compute; do 3 eexists; split_and!; reflexivity).
  exists a, d, r. split; [| split; assumption].
  apply (run_writes_only_needy_elements _ _ _ _ _ _ (λ _ _, Succeeded) _ a d r Hrun).
  intros g v Hg. rewrite Hn in Hg.
  apply elem_of_union in Hg as [Hg | Hg]; apply elem_of_singleton in Hg;
    rewrite Hg; vm_compute; reflexivity.
Defined.
